(** * CodeBridge: the real-time room synchronisation engine

    A shallow embedding of [server/src/socket/index.js]: the module-level
    registries ([roomUsers], [roomHosts], [roomSettings], [saveTimers],
    [pendingSaves]), the write-back debouncer [debouncedSave], the socket
    event handlers registered in [initializeSocket], and [handleLeaveRoom].

    JavaScript [Map]s that are iterated ([roomUsers.get(roomId)], the
    per-room pending buffer) are insertion-ordered association lists;
    [Map]s that are only looked up by key are [gmap]s.  Handlers run to
    completion on Node's single-threaded loop, so each handler segment
    between two [await]s is one transition of the model: join-room is
    suspended at its lookups, and the callback of a save timer at each
    store update of its loop. *)

From stdpp Require Import gmap strings list fin_maps.
From Stdlib Require Import ZArith Lia Ascii.

Open Scope string_scope.
Open Scope Z_scope.
Open Scope list_scope.

(** ** JavaScript strings

    A JavaScript string is a sequence of UTF-16 code units.  A string of
    the model stands for the JavaScript string it is the UTF-8 encoding of
    (a lone surrogate is written as its three-byte form, so that every
    JavaScript string has an encoding).  Strings are compared and used as
    keys byte by byte; where a handler looks into a string ([trim],
    [charCodeAt]) the bytes are decoded first. *)

Definition byte_of (a : ascii) : Z := Z.of_N (N_of_ascii a).

(** A continuation byte, [10xxxxxx]. *)
Definition continues (a : ascii) : bool :=
  (128 <=? byte_of a) && (byte_of a <? 192).

(** The characters of a string: the code point of each, with the bytes
    that encode it.  A byte that starts no well-formed sequence belongs to
    the encoding of no JavaScript string; it is read as U+FFFD, which keeps
    [chars] total. *)
Fixpoint chars (s : string) : list (Z * string) :=
  match s with
  | EmptyString => []
  | String a s1 =>
      let b0 := byte_of a in
      let stray := (65533, String a "") :: chars s1 in
      if b0 <? 128 then (b0, String a "") :: chars s1
      else if b0 <? 192 then stray
      else if b0 <? 224 then
        match s1 with
        | String b s2 =>
            let cp := (b0 - 192) * 64 + (byte_of b - 128) in
            if continues b && (128 <=? cp)
            then (cp, String a (String b "")) :: chars s2
            else stray
        | _ => stray
        end
      else if b0 <? 240 then
        match s1 with
        | String b (String c s3) =>
            let cp := (b0 - 224) * 4096 + (byte_of b - 128) * 64
                      + (byte_of c - 128) in
            if continues b && continues c && (2048 <=? cp)
            then (cp, String a (String b (String c ""))) :: chars s3
            else stray
        | _ => stray
        end
      else if b0 <? 248 then
        match s1 with
        | String b (String c (String e s4)) =>
            let cp := (b0 - 240) * 262144 + (byte_of b - 128) * 4096
                      + (byte_of c - 128) * 64 + (byte_of e - 128) in
            if continues b && continues c && continues e
               && (65536 <=? cp) && (cp <=? 1114111)
            then (cp, String a (String b (String c (String e ""))))
                 :: chars s4
            else stray
        | _ => stray
        end
      else stray
  end.

(** The UTF-16 code units of a code point: itself, or a surrogate pair. *)
Definition units_of (cp : Z) : list Z :=
  if cp <? 65536 then [cp]
  else [55296 + (cp - 65536) / 1024; 56320 + (cp - 65536) mod 1024].

(** [s.split('').map(c => c.charCodeAt(0))] *)
Definition code_units (s : string) : list Z :=
  chars s ≫= (λ c, units_of c.1).

(** The code points [String.prototype.trim] strips: WhiteSpace
    (TAB, VT, FF, SP, NBSP, ZWNBSP and the category Zs) and LineTerminator
    (LF, CR, LS, PS). *)
Definition white_space (cp : Z) : bool :=
  bool_decide (cp ∈ [9; 10; 11; 12; 13; 32; 160; 5760; 8232; 8233; 8239;
                     8287; 12288; 65279])
  || ((8192 <=? cp) && (cp <=? 8202)).

Fixpoint trim_start (cs : list (Z * string)) : list (Z * string) :=
  match cs with
  | c :: cs' => if white_space c.1 then trim_start cs' else cs
  | [] => []
  end.

Fixpoint bytes_of (cs : list (Z * string)) : string :=
  match cs with
  | c :: cs' => c.2 +:+ bytes_of cs'
  | [] => ""
  end.

(** [s.trim()] *)
Definition trim (s : string) : string :=
  bytes_of (reverse (trim_start (reverse (trim_start (chars s))))).

(** U+00A0, NO-BREAK SPACE. *)
Definition nbsp : string := String "194"%char (String "160"%char "").

(** ** JavaScript values that the handlers inspect *)

Inductive jsval :=
| JUndefined
| JNull
| JBool (b : bool)
| JNum (n : Z)
| JStr (s : string)
| JOpaque (repr : string).   (* an object the router never looks into *)

#[global] Instance jsval_eq_dec : EqDecision jsval.
Proof. solve_decision. Defined.

(** [if (v)] *)
Definition truthy (v : jsval) : bool :=
  match v with
  | JUndefined | JNull => false
  | JBool b => b
  | JNum n => negb (n =? 0)%Z
  | JStr s => negb (String.eqb s "")
  | JOpaque _ => true
  end.

(** [socket.roomId]: [None] is [undefined]/[null]; the empty string is falsy
    as well, so [if (!roomId) return] also fires for it. *)
Definition room_of (r : option string) : option string :=
  match r with
  | Some s => if String.eqb s "" then None else Some s
  | None => None
  end.

(** ** Insertion-ordered [Map] *)

Module JsMap.
Section defs.
Context {V : Type}.

Fixpoint get (k : string) (m : list (string * V)) : option V :=
  match m with
  | [] => None
  | (k', v) :: m' => if decide (k' = k) then Some v else get k m'
  end.

Definition has (k : string) (m : list (string * V)) : bool :=
  bool_decide (is_Some (get k m)).

(** [m.set(k, v)]: an existing key keeps its position. *)
Fixpoint set (k : string) (v : V) (m : list (string * V)) : list (string * V) :=
  match m with
  | [] => [(k, v)]
  | (k', v') :: m' =>
      if decide (k' = k) then (k, v) :: m' else (k', v') :: set k v m'
  end.

(** [m.delete(k)] *)
Fixpoint delete (k : string) (m : list (string * V)) : list (string * V) :=
  match m with
  | [] => []
  | (k', v') :: m' =>
      if decide (k' = k) then delete k m' else (k', v') :: delete k m'
  end.

Definition keys (m : list (string * V)) : list string := m.*1.
Definition values (m : list (string * V)) : list V := m.*2.
Definition size (m : list (string * V)) : nat := length m.
End defs.
End JsMap.

(** ** The external document store, as seen from the socket module *)

Inductive store_op :=
| SetFileContent (roomId fileId content : string)
| RenameFile (roomId : string) (fileId newName : jsval)
| PushItem (roomId field : string) (item : jsval) (keep_last : option Z)
| PushChat (roomId userId username : string) (message : jsval) (keep_last : Z)
| PullItem (roomId field : string) (id : jsval)
| SetCanvasJSON (roomId : string) (canvasId : option jsval) (json : jsval).

(** ** Write-back debouncer *)

Module Debounce.

(** A timer armed with [setTimeout] and neither fired nor cleared. *)
Record timer := { tm_handle : nat; tm_due : Z; tm_room : string }.

(** A timer callback suspended at the [await] inside its for-of loop.
    [fl_pos] is the index, in insertion order, of the entry whose update it
    awaits: entries are only ever added to a buffer or overwritten in
    place, so the position of the Map iterator is an index.  [filesToSave]
    is a reference to the Map that [pendingSaves] held when the callback
    started.  [fl_files = None] while [pendingSaves] still holds that Map
    for the room: the loop then sees what [debouncedSave] writes into it in
    the meantime.  Once a callback has run [pendingSaves.delete(roomId)] the
    Map is out of the reach of [debouncedSave], and [fl_files] holds the
    entries it has. *)
Record flush := {
  fl_room : string;
  fl_pos : nat;
  fl_files : option (list (string * string))
}.

Record t := {
  saveTimers : gmap string nat;
  pendingSaves : gmap string (list (string * string));
  loop_timers : list timer;     (* Node's 2000ms timer list, in arming order *)
  next_handle : nat;
  clock : Z;                    (* milliseconds *)
  flushes : list flush          (* the callbacks that await the store *)
}.

Definition empty : t :=
  {| saveTimers := ∅; pendingSaves := ∅; loop_timers := [];
     next_handle := 0; clock := 0; flushes := [] |}.

Definition delay : Z := 2000.

(** What a timer callback does towards the outside. *)
Inductive effect :=
| Store (op : store_op)
| LogSaved (roomId : string) (n : nat)
| LogSaveError (roomId : string).

Definition clearTimeout (h : nat) (q : list timer) : list timer :=
  filter (λ tm, tm_handle tm ≠ h) q.

(** [debouncedSave(roomId, fileId = null, content = null)].  File ids and
    contents are strings ([codeFiles.id], [codeFiles.content] in the
    RoomState schema); [None] stands for a field that is missing, [undefined]
    or [null] (the default parameters turn [undefined] into [null]). *)
Definition debouncedSave (roomId : string) (fileId content : option string)
    (d : t) : t :=
  let q :=
    match saveTimers d !! roomId with
    | Some h => clearTimeout h (loop_timers d)
    | None => loop_timers d
    end in
  let pend :=
    match fileId, content with
    | Some f, Some c =>
        if negb (String.eqb f "") then
          let files := default [] (pendingSaves d !! roomId) in
          <[roomId := JsMap.set f c files]> (pendingSaves d)
        else pendingSaves d
    | _, _ => pendingSaves d
    end in
  let h := next_handle d in
  {| saveTimers := <[roomId := h]> (saveTimers d);
     pendingSaves := pend;
     loop_timers :=
       q ++ [{| tm_handle := h; tm_due := clock d + delay; tm_room := roomId |}];
     next_handle := S h;
     clock := clock d;
     flushes := flushes d |}.

(** *** The timer callback, from one [await] to the next *)

Definition set_flushes (l : list flush) (d : t) : t :=
  {| saveTimers := saveTimers d; pendingSaves := pendingSaves d;
     loop_timers := loop_timers d; next_handle := next_handle d;
     clock := clock d; flushes := l |}.

(** [saveTimers.delete(roomId)], the statement after the [try]. *)
Definition forget (roomId : string) (d : t) : t :=
  {| saveTimers := delete roomId (saveTimers d);
     pendingSaves := pendingSaves d; loop_timers := loop_timers d;
     next_handle := next_handle d; clock := clock d; flushes := flushes d |}.

(** The room's Map leaves [pendingSaves]: a suspended callback of the room
    that iterates it keeps it, with the entries it has now. *)
Definition detach (roomId : string) (files : list (string * string))
    (fl : flush) : flush :=
  if bool_decide (fl_room fl = roomId) then
    match fl_files fl with
    | None => {| fl_room := fl_room fl; fl_pos := fl_pos fl;
                 fl_files := Some files |}
    | Some _ => fl
    end
  else fl.

(** [pendingSaves.delete(roomId)] *)
Definition drop_buffer (roomId : string) (d : t) : t :=
  {| saveTimers := saveTimers d;
     pendingSaves := delete roomId (pendingSaves d);
     loop_timers := loop_timers d; next_handle := next_handle d;
     clock := clock d;
     flushes := match pendingSaves d !! roomId with
                | Some files => detach roomId files <$> flushes d
                | None => flushes d
                end |}.

(** The entries of [filesToSave], as the callback finds them now. *)
Definition flush_files (fl : flush) (d : t) : list (string * string) :=
  match fl_files fl with
  | Some files => files
  | None => default [] (pendingSaves d !! fl_room fl)
  end.

(** The head of the for-of loop with the iterator at [fl_pos].  There is
    an entry: its update is issued and the callback waits for the answer.
    There is none: the loop is over, and the rest of the [try] (the log
    line, [pendingSaves.delete(roomId)]) and [saveTimers.delete(roomId)]
    run.  The result is the callback, if it is suspended again, the state
    and what was done towards the outside. *)
Definition flush_step (fl : flush) (d : t) : option flush * t * list effect :=
  let files := flush_files fl d in
  match files !! fl_pos fl with
  | Some (fId, fContent) =>
      (Some fl, d, [Store (SetFileContent (fl_room fl) fId fContent)])
  | None =>
      (None, forget (fl_room fl) (drop_buffer (fl_room fl) d),
       [LogSaved (fl_room fl) (JsMap.size files)])
  end.

(** The callback handed to [setTimeout], up to its first [await] (or to
    its end, when there is nothing to save). *)
Definition flush_begin (roomId : string) (d : t)
    : option flush * t * list effect :=
  match pendingSaves d !! roomId with
  | Some files =>
      if (0 <? JsMap.size files)%nat then
        flush_step {| fl_room := roomId; fl_pos := 0; fl_files := None |} d
      else (None, forget roomId d, [])
  | None => (None, forget roomId d, [])
  end.

(** The awaited update returns ([ok]) and the loop goes on to the next
    entry, or it throws: the [catch] logs, and [saveTimers.delete(roomId)]
    runs. *)
Definition flush_reply (ok : bool) (fl : flush) (d : t)
    : option flush * t * list effect :=
  if ok then
    flush_step {| fl_room := fl_room fl; fl_pos := S (fl_pos fl);
                  fl_files := fl_files fl |} d
  else (None, forget (fl_room fl) d, [LogSaveError (fl_room fl)]).

(** *** The loop of the server, as far as the debouncer goes *)

Definition is_due (now : Z) (tm : timer) : Prop := tm_due tm ≤ now.

#[global] Instance is_due_dec now tm : Decision (is_due now tm).
Proof. unfold is_due. apply _. Defined.

Definition suspend (o : option flush) (d : t) : t :=
  set_flushes (flushes d ++ option_list o) d.

(** The callbacks of the timers in [due] start, in order; each runs to its
    first [await]. *)
Fixpoint begin_all (due : list timer) (d : t) : t * list effect :=
  match due with
  | [] => (d, [])
  | tm :: rest =>
      let '(o, d1, fx1) := flush_begin (tm_room tm) d in
      let '(d2, fx2) := begin_all rest (suspend o d1) in
      (d2, fx1 ++ fx2)
  end.

(** The clock reaches [now]: every armed timer that has expired fires.  All
    timers share one delay, so arming order is expiry order. *)
Definition elapse (now : Z) (d : t) : t * list timer * list effect :=
  let due := filter (is_due now) (loop_timers d) in
  let later := filter (λ tm, ¬ is_due now tm) (loop_timers d) in
  let '(d', fx) :=
    begin_all due
      {| saveTimers := saveTimers d; pendingSaves := pendingSaves d;
         loop_timers := later; next_handle := next_handle d;
         clock := Z.max (clock d) now; flushes := flushes d |} in
  (d', due, fx).

(** The store answers the update that the [k]-th suspended callback
    awaits. *)
Definition saved (k : nat) (ok : bool) (d : t) : t * list effect :=
  match flushes d !! k with
  | None => (d, [])
  | Some fl =>
      let '(o, d1, fx) :=
        flush_reply ok fl (set_flushes (delete k (flushes d)) d) in
      (set_flushes (take k (flushes d1) ++ option_list o ++ drop k (flushes d1))
         d1,
       fx)
  end.

(** *** A callback that is not interrupted

    The store answers every update before anything else happens: the
    answers are those of [accepts]. *)

(** The update a suspended callback awaits. *)
Definition awaited (fl : flush) (d : t) : option store_op :=
  (λ e, SetFileContent (fl_room fl) e.1 e.2) <$> flush_files fl d !! fl_pos fl.

Fixpoint flush_run (accepts : store_op → bool) (fuel : nat) (fl : flush)
    (d : t) : t * list effect :=
  match fuel, awaited fl d with
  | S n, Some op =>
      let '(o, d1, fx1) := flush_reply (accepts op) fl d in
      match o with
      | Some fl' =>
          let '(d2, fx2) := flush_run accepts n fl' d1 in (d2, fx1 ++ fx2)
      | None => (d1, fx1)
      end
  | _, _ => (d, [])
  end.

(** The whole callback, one answer per entry of the buffer. *)
Definition timer_callback (accepts : store_op → bool) (roomId : string) (d : t)
    : t * list effect :=
  let '(o, d1, fx1) := flush_begin roomId d in
  match o with
  | Some fl =>
      let '(d2, fx2) :=
        flush_run accepts (JsMap.size (flush_files fl d1)) fl d1 in
      (d2, fx1 ++ fx2)
  | None => (d1, fx1)
  end.

(** The [for ... of filesToSave] loop of such a callback: one store update
    per entry, in insertion order, stopping at the first update that throws.
    Returns the updates issued and whether the loop ran to its end. *)
Fixpoint save_files (accepts : store_op → bool) (roomId : string)
    (files : list (string * string)) : list store_op * bool :=
  match files with
  | [] => ([], true)
  | (fId, fContent) :: rest =>
      let op := SetFileContent roomId fId fContent in
      if accepts op then
        let '(ops, ok) := save_files accepts roomId rest in (op :: ops, ok)
      else ([op], false)
  end.

(** What [timer_callback] comes to (lemma [timer_callback_whole]). *)
Definition whole_flush (accepts : store_op → bool) (roomId : string) (d : t)
    : t * list effect :=
  match pendingSaves d !! roomId with
  | Some files =>
      if (0 <? JsMap.size files)%nat then
        let '(ops, ok) := save_files accepts roomId files in
        if ok then
          (forget roomId (drop_buffer roomId d),
           (Store <$> ops) ++ [LogSaved roomId (JsMap.size files)])
        else (forget roomId d, (Store <$> ops) ++ [LogSaveError roomId])
      else (forget roomId d, [])
  | None => (forget roomId d, [])
  end.

(** Run the callbacks of the timers in [due], in order, each to its end. *)
Fixpoint fire (accepts : store_op → bool) (due : list timer) (d : t)
    : t * list effect :=
  match due with
  | [] => (d, [])
  | tm :: rest =>
      let '(d1, fx1) := timer_callback accepts (tm_room tm) d in
      let '(d2, fx2) := fire accepts rest d1 in
      (d2, fx1 ++ fx2)
  end.

(** The clock reaches [now], and each callback that starts is over before
    the next one starts. *)
Definition advance (accepts : store_op → bool) (now : Z) (d : t)
    : t * list timer * list effect :=
  let due := filter (is_due now) (loop_timers d) in
  let later := filter (λ tm, ¬ is_due now tm) (loop_timers d) in
  let '(d', fx) :=
    fire accepts due
      {| saveTimers := saveTimers d; pendingSaves := pendingSaves d;
         loop_timers := later; next_handle := next_handle d;
         clock := Z.max (clock d) now; flushes := flushes d |} in
  (d', due, fx).

(** *** Bursts of changes

    A change recorded for a room at a given time of arrival ([code-change]
    calls [debouncedSave(roomId, fileId, content)]). *)
Record change := {
  ch_at : Z; ch_file : option string; ch_content : option string
}.

(** The loop reaches the arrival time of each change, firing what has
    expired (each callback running to its end), and then records the
    change. *)
Fixpoint record_all (accepts : store_op → bool) (roomId : string)
    (calls : list change) (d : t) : t * list timer * list effect :=
  match calls with
  | [] => (d, [], [])
  | c :: rest =>
      let '(d1, fired1, fx1) := advance accepts (ch_at c) d in
      let d2 := debouncedSave roomId (ch_file c) (ch_content c) d1 in
      let '(d3, fired3, fx3) := record_all accepts roomId rest d2 in
      (d3, fired1 ++ fired3, fx1 ++ fx3)
  end.

(** A burst, followed by the loop running on until [t_end]. *)
Definition burst (accepts : store_op → bool) (roomId : string)
    (calls : list change) (t_end : Z) (d : t) : t * list timer * list effect :=
  let '(d1, fired1, fx1) := record_all accepts roomId calls d in
  let '(d2, fired2, fx2) := advance accepts t_end d1 in
  (d2, fired1 ++ fired2, fx1 ++ fx2).

(** Each change arrives before the timer armed by the previous one expires. *)
Fixpoint within_window (prev : Z) (calls : list change) : Prop :=
  match calls with
  | [] => True
  | c :: rest => prev ≤ ch_at c < prev + delay ∧ within_window (ch_at c) rest
  end.

Definition last_at (first : change) (rest : list change) : Z :=
  ch_at (List.last rest first).

(** The timers armed for a room. *)
Definition armed (roomId : string) (d : t) : list timer :=
  filter (λ tm, tm_room tm = roomId) (loop_timers d).

(** Every armed timer is the one its room's handle in [saveTimers] names,
    and no room has two timers armed. *)
Definition tracked (d : t) : Prop :=
  (∀ tm, tm ∈ loop_timers d → saveTimers d !! tm_room tm = Some (tm_handle tm))
  ∧ ∀ roomId, (length (armed roomId d) ≤ 1)%nat.

(** No callback of the room awaits the store. *)
Definition idle (roomId : string) (d : t) : Prop :=
  Forall (λ fl, fl_room fl ≠ roomId) (flushes d).

(** Nothing is pending for the room: no timer, no handle, no buffer, no
    callback under way. *)
Definition quiet (roomId : string) (d : t) : Prop :=
  armed roomId d = [] ∧ saveTimers d !! roomId = None
  ∧ pendingSaves d !! roomId = None ∧ idle roomId d.

(** The room an effect of a timer callback is about. *)
Definition about (roomId : string) (e : effect) : Prop :=
  match e with
  | Store (SetFileContent r _ _) => r = roomId
  | Store _ => False
  | LogSaved r _ => r = roomId
  | LogSaveError r => r = roomId
  end.

#[global] Instance about_dec roomId e : Decision (about roomId e).
Proof. destruct e as [[]| |]; simpl; apply _. Defined.

(** Does the change put something into the buffer, and for which file? *)
Definition recorded (c : change) : option (string * string) :=
  match ch_file c, ch_content c with
  | Some f, Some x => if String.eqb f "" then None else Some (f, x)
  | _, _ => None
  end.

(** The content of the latest change of the burst recorded for [f]. *)
Fixpoint last_recorded (f : string) (calls : list change) : option string :=
  match calls with
  | [] => None
  | c :: rest =>
      match last_recorded f rest with
      | Some x => Some x
      | None =>
          match recorded c with
          | Some (f', x) => if decide (f' = f) then Some x else None
          | None => None
          end
      end
  end.

(** The store updates of one complete flush of the buffer [files]. *)
Definition updates (roomId : string) (files : list (string * string))
    : list effect :=
  (λ e, Store (SetFileContent roomId e.1 e.2)) <$> files.

(** What a flush of the buffer [files] emits when the store takes every
    update: one update per entry, then the log line. *)
Definition flush_effects (roomId : string) (files : list (string * string))
    : list effect :=
  match files with
  | [] => []
  | _ => updates roomId files ++ [LogSaved roomId (length files)]
  end.

(** The room's buffer after a change has been recorded. *)
Definition pend_step (o : option (list (string * string))) (c : change)
    : option (list (string * string)) :=
  match recorded c with
  | Some (f, x) => Some (JsMap.set f x (default [] o))
  | None => o
  end.



End Debounce.

(** ** Connections, members and messages *)

(** [socket.user]: the verified account or the synthesised guest. *)
Record user := { u_id : string; u_username : string; u_isGuest : bool }.

(** The socket object.  It outlives the connection (handlers that are
    suspended on an [await] still hold it), so the heap keeps it with
    [sk_connected = false] after a disconnect.  [socket.id] is the key of
    the object in the heap ([sockets] below); the handlers get it as
    [socketId] next to the object. *)
Record socket := {
  sk_user : user;
  sk_roomId : option string;
  sk_displayName : option string;
  sk_voicePeerId : option string;
  sk_rooms : gset string;          (* socket.join / socket.leave *)
  sk_voiceParticipants : gmap string (list string);
    (* the Map of the second voice listeners, one per connection *)
  sk_connected : bool
}.

(** A value of [roomUsers.get(roomId)]. *)
Record member := {
  m_id : string; m_username : string; m_isGuest : bool; m_socketId : string;
  m_intent : option jsval
}.

(** An entry of [global.voiceRooms.get(roomId)]. *)
Record vpart := {
  vp_peerId : string; vp_socketId : string; vp_isMuted : bool;
  vp_username : string
}.

(** A value of [global.roomCursorPositions.get(roomId)]. *)
Record cursor := {
  cu_username : string; cu_color : string; cu_position : jsval
}.

Inductive audience :=
| Direct (socketId : string)               (* socket.emit *)
| RoomExcept (roomId sender : string)      (* socket.to(roomId).emit *)
| Room (name : string).                    (* io.to(name).emit *)

Inductive msg :=
| MRoomState (roomId : string) (state : jsval) (users : list member)
    (hostSocketId : option string) (chatDisabled : bool)
| MUserJoined (id username socketId : string) (users : list member)
    (hostSocketId : option string)
| MUserLeft (id username socketId : string) (users : list member)
    (hostSocketId : option string)
| MHostChanged (hostSocketId : string)
| MError (message : string)
| MHostError (message : string)
| MChatMessage (userId username : string) (message : jsval)
| MChatToggled (disabled : bool) (by_ : string)
| MSessionEnded (by_ : string)
| MYouWereKicked (by_ : string)
| MYouWereMuted (by_ : string)
| MVoiceParticipants (participants : list vpart)
| MVoicePeerIds (participants : list string)
| MVoiceJoin (peerId socketId : string) (username : option string)
| MVoiceLeave (peerId : string)
| MVoiceMute (peerId : option string) (socketId : option string)
    (isMuted : bool) (forcedByHost : bool)
| MCursor (socketId username color : string) (position : jsval)
| MRelay (event : string) (fields : list (string * jsval)).

Inductive effect :=
| Emit (to : audience) (m : msg)
| Call (op : store_op)                 (* awaited store call of a handler *)
| Flush (e : Debounce.effect).         (* what a debounce timer callback did *)

Record state := {
  roomUsers : gmap string (list (string * member));
  roomHosts : gmap string string;
  roomSettings : gmap string bool;                 (* { chatDisabled } *)
  saves : Debounce.t;                              (* saveTimers, pendingSaves *)
  voiceRooms : gmap string (list vpart);           (* global.voiceRooms *)
  roomCursorPositions : gmap string (list (string * cursor));
  sockets : gmap string socket;
  joining : list (string * string)   (* join-room handlers awaiting the store *)
}.

Definition init : state :=
  {| roomUsers := ∅; roomHosts := ∅; roomSettings := ∅; saves := Debounce.empty;
     voiceRooms := ∅; roomCursorPositions := ∅; sockets := ∅; joining := [] |}.

Definition set_rooms (ru : gmap string (list (string * member)))
    (rh : gmap string string) (rs : gmap string bool) (st : state) : state :=
  {| roomUsers := ru; roomHosts := rh; roomSettings := rs; saves := saves st;
     voiceRooms := voiceRooms st; roomCursorPositions := roomCursorPositions st;
     sockets := sockets st; joining := joining st |}.

Definition set_saves (d : Debounce.t) (st : state) : state :=
  {| roomUsers := roomUsers st; roomHosts := roomHosts st;
     roomSettings := roomSettings st; saves := d;
     voiceRooms := voiceRooms st; roomCursorPositions := roomCursorPositions st;
     sockets := sockets st; joining := joining st |}.

Definition set_voiceRooms (v : gmap string (list vpart)) (st : state) : state :=
  {| roomUsers := roomUsers st; roomHosts := roomHosts st;
     roomSettings := roomSettings st; saves := saves st;
     voiceRooms := v; roomCursorPositions := roomCursorPositions st;
     sockets := sockets st; joining := joining st |}.

Definition set_cursors (c : gmap string (list (string * cursor))) (st : state)
    : state :=
  {| roomUsers := roomUsers st; roomHosts := roomHosts st;
     roomSettings := roomSettings st; saves := saves st;
     voiceRooms := voiceRooms st; roomCursorPositions := c;
     sockets := sockets st; joining := joining st |}.

Definition set_socket (socketId : string) (sk : socket) (st : state) : state :=
  {| roomUsers := roomUsers st; roomHosts := roomHosts st;
     roomSettings := roomSettings st; saves := saves st;
     voiceRooms := voiceRooms st; roomCursorPositions := roomCursorPositions st;
     sockets := <[socketId := sk]> (sockets st); joining := joining st |}.

Definition set_joining (j : list (string * string)) (st : state) : state :=
  {| roomUsers := roomUsers st; roomHosts := roomHosts st;
     roomSettings := roomSettings st; saves := saves st;
     voiceRooms := voiceRooms st; roomCursorPositions := roomCursorPositions st;
     sockets := sockets st; joining := j |}.

(** [io.sockets.sockets.get(id)]: only live connections are registered. *)
Definition io_socket (st : state) (id : string) : option socket :=
  match sockets st !! id with
  | Some sk => if sk_connected sk then Some sk else None
  | None => None
  end.

(** ** Connecting *)

(** The guest identity of the auth middleware.  Socket ids are made by
    the server (engine.io: letters, digits, [-] and [_]), one byte and one
    code unit per character, so [substring(0, 6)] is the first six bytes. *)
Definition guest (socketId : string) : user :=
  {| u_id := "guest-" +:+ socketId;
     u_username := "Guest-" +:+ String.substring 0 6 socketId;
     u_isGuest := true |}.

(** A connection passes the auth middleware: [auth] is the account found for
    the token ([_id], [username]), if any. *)
Definition connect (socketId : string) (auth : option (string * string))
    (st : state) : state :=
  match sockets st !! socketId with
  | Some _ => st                      (* socket ids are unique *)
  | None =>
      set_socket socketId
        {| sk_user := match auth with
                      | Some (id, name) =>
                          {| u_id := id; u_username := name; u_isGuest := false |}
                      | None => guest socketId
                      end;
           sk_roomId := None; sk_displayName := None; sk_voicePeerId := None;
           sk_rooms := {[socketId]}; sk_voiceParticipants := ∅;
           sk_connected := true |} st
  end.

(** ** join-room *)

Definition member_of (socketId : string) (sk : socket) : member :=
  {| m_id := u_id (sk_user sk); m_username := u_username (sk_user sk);
     m_isGuest := u_isGuest (sk_user sk); m_socketId := socketId;
     m_intent := None |}.

(** The handler up to its first [await] (RoomState.getOrCreate). *)
Definition joinRoom_begin (socketId : string) (sk : socket) (roomId : string)
    (displayName : option string) (st : state) : state :=
  let user' :=
    match displayName with
    | Some dn =>
        if negb (String.eqb (trim dn) "") then
          {| u_id := u_id (sk_user sk); u_username := trim dn;
             u_isGuest := u_isGuest (sk_user sk) |}
        else sk_user sk
    | None => sk_user sk
    end in
  let sk' :=
    {| sk_user := user';
       sk_roomId := Some roomId;
       sk_displayName :=
         match displayName with
         | Some dn => if negb (String.eqb (trim dn) "") then Some (trim dn)
                      else sk_displayName sk
         | None => sk_displayName sk
         end;
       sk_voicePeerId := sk_voicePeerId sk;
       sk_rooms := {[roomId]} ∪ sk_rooms sk;
       sk_voiceParticipants := sk_voiceParticipants sk;
       sk_connected := sk_connected sk |} in
  let users := default [] (roomUsers st !! roomId) in
  let ru := <[roomId := JsMap.set socketId (member_of socketId sk') users]>
              (roomUsers st) in
  let rh := match roomHosts st !! roomId with
            | Some _ => roomHosts st
            | None => <[roomId := socketId]> (roomHosts st)
            end in
  let rs := match roomSettings st !! roomId with
            | Some _ => roomSettings st
            | None => <[roomId := false]> (roomSettings st)
            end in
  set_joining (joining st ++ [(socketId, roomId)])
    (set_socket socketId sk' (set_rooms ru rh rs st)).

(** What the two awaited lookups hand back: they throw, or they return the
    room state and the Room document, if one exists, with its [host] field
    ([None] for [null]). *)
Inductive db_result :=
| DbFail
| DbOk (roomState : jsval) (roomDoc : option (option string)).

Definition join_failed (socketId : string) : list effect :=
  [Emit (Direct socketId) (MError "Failed to join room")].

(** The handler after the awaits, for the socket object [sk] and the
    [roomId] of the event it was started with. *)
Definition joinRoom_resume (socketId : string) (sk : socket) (roomId : string)
    (db : db_result) (st : state) : state * list effect :=
  match db with
  | DbFail => (st, join_failed socketId)
  | DbOk roomState roomDoc =>
      let claim := <[roomId := socketId]> (roomHosts st) in
      let rh :=
        match roomDoc with
        | Some host =>
            if bool_decide (host = Some (u_id (sk_user sk))) then claim
            else match roomHosts st !! roomId with
                 | Some _ => roomHosts st
                 | None => match host with
                           | None => claim
                           | Some _ => roomHosts st
                           end
                 end
        | None =>
            match roomHosts st !! roomId with
            | Some _ => roomHosts st
            | None => claim
            end
        end in
      let st' := set_rooms (roomUsers st) rh (roomSettings st) st in
      match roomUsers st !! roomId, roomSettings st !! roomId with
      | Some users, Some chatDisabled =>
          (st',
           [Emit (Direct socketId)
              (MRoomState roomId roomState (JsMap.values users) (rh !! roomId)
                 chatDisabled);
            Emit (RoomExcept roomId socketId)
              (MUserJoined (u_id (sk_user sk)) (u_username (sk_user sk))
                 socketId (JsMap.values users) (rh !! roomId))])
      | _, _ => (st', join_failed socketId)   (* TypeError, caught *)
      end
  end.

(** ** handleLeaveRoom *)

Definition handleLeaveRoom (socketId : string) (st : state)
    : state * list effect :=
  match sockets st !! socketId with
  | None => (st, [])
  | Some sk =>
      match room_of (sk_roomId sk) with
      | None => (st, [])
      | Some roomId =>
          let '(st1, fx) :=
            match roomUsers st !! roomId with
            | Some users =>
                let users' := JsMap.delete socketId users in
                let '(rh, fx_host) :=
                  if bool_decide (roomHosts st !! roomId = Some socketId) then
                    match JsMap.keys users' with
                    | newHostId :: _ =>
                        (<[roomId := newHostId]> (roomHosts st),
                         [Emit (Room roomId) (MHostChanged newHostId)])
                    | [] => (roomHosts st, [])
                    end
                  else (roomHosts st, []) in
                let left :=
                  Emit (RoomExcept roomId socketId)
                    (MUserLeft (u_id (sk_user sk)) (u_username (sk_user sk))
                       socketId (JsMap.values users') (rh !! roomId)) in
                if (JsMap.size users' =? 0)%nat then
                  (set_rooms (delete roomId (roomUsers st)) (delete roomId rh)
                     (delete roomId (roomSettings st)) st,
                   fx_host ++ [left])
                else
                  (set_rooms (<[roomId := users']> (roomUsers st)) rh
                     (roomSettings st) st,
                   fx_host ++ [left])
            | None => (st, [])
            end in
          (set_socket socketId
             {| sk_user := sk_user sk; sk_roomId := None;
                sk_displayName := sk_displayName sk;
                sk_voicePeerId := sk_voicePeerId sk;
                sk_rooms := sk_rooms sk ∖ {[roomId]};
                sk_voiceParticipants := sk_voiceParticipants sk;
                sk_connected := sk_connected sk |} st1,
           fx)
      end
  end.

(** [isHost(socket)] *)
Definition isHost (socketId : string) (sk : socket) (st : state) : bool :=
  match room_of (sk_roomId sk) with
  | Some roomId => bool_decide (roomHosts st !! roomId = Some socketId)
  | None => false
  end.

(** ** Client events *)

Inductive client_event :=
| JoinRoom (roomId : string) (displayName : option string)
| LeaveRoom
| CodeChange (fileId content : option string) (cursorPosition : jsval)
| FileCreate (file : jsval)
| FileDelete (fileId : jsval)
| FileRename (fileId newName : jsval)
| ActiveFileChange (fileId : jsval)
| CursorPosition (fileId position selection : jsval)
| IntentUpdate (intent : jsval)
| TabGroupCreate (group : jsval)
| TabGroupUpdate (groupId updates : jsval)
| TabGroupDelete (groupId : jsval)
| CanvasObjectAdd (canvasId object objectId : jsval)
| CanvasObjectModify (canvasId objectId changes : jsval)
| CanvasObjectDelete (canvasId objectId : jsval)
| CanvasPathCreate (canvasId pathData : jsval)
| CanvasFullSync (payload : list (string * jsval))
| CanvasFileCreate (file : jsval)
| CanvasFileSwitch (canvasId : jsval)
| ChatMessage (message : jsval)
| VoiceJoin (peerId : string) (roomId : option string)
| VoiceLeave (peerId : string) (roomId : option string)
| VoiceMute (peerId : string) (isMuted : bool) (roomId : option string)
| TerminalOutput (entry : jsval)
| RequestCursors
| HostKickUser (targetSocketId : string)
| HostMuteUser (targetSocketId : string)
| HostTransfer (targetSocketId : string)
| HostToggleChat (disabled : bool)
| HostEndSession.

Definition handler := state → state * list effect.

(** Two listeners registered for one event run in registration order. *)
Definition both (h1 h2 : handler) : handler :=
  λ st, let '(st1, fx1) := h1 st in
        let '(st2, fx2) := h2 st1 in
        (st2, fx1 ++ fx2).

(** [const roomId = socket.roomId; if (!roomId) return;] *)
Definition in_room (sk : socket) (k : string → handler) : handler :=
  λ st, match room_of (sk_roomId sk) with
        | Some roomId => k roomId st
        | None => (st, [])
        end.

Definition of_opt (o : option string) : jsval :=
  match o with Some s => JStr s | None => JUndefined end.

Definition userId (sk : socket) : jsval := JStr (u_id (sk_user sk)).
Definition username (sk : socket) : jsval := JStr (u_username (sk_user sk)).

(** [socket.to(roomId).emit(event, fields)], then the store calls [ops]. *)
Definition relay (socketId : string) (sk : socket)
    (event : string) (fields : list (string * jsval))
    (ops : string → list store_op) : handler :=
  in_room sk (λ roomId st,
    (st, Emit (RoomExcept roomId socketId) (MRelay event fields)
         :: (Call <$> ops roomId))).

Definition no_ops (_ : string) : list store_op := [].

(** *** code-change *)
Definition on_code_change (socketId : string) (sk : socket)
    (fileId content : option string)
    (cursorPosition : jsval) : handler :=
  in_room sk (λ roomId st,
    (set_saves (Debounce.debouncedSave roomId fileId content (saves st)) st,
     [Emit (RoomExcept roomId socketId)
        (MRelay "code-change"
           [("fileId", of_opt fileId); ("content", of_opt content);
            ("cursorPosition", cursorPosition);
            ("userId", userId sk); ("username", username sk)])])).

(** *** intent-update *)
Definition on_intent_update (socketId : string) (sk : socket)
    (intent : jsval) : handler :=
  in_room sk (λ roomId st,
    let ru :=
      match roomUsers st !! roomId with
      | Some users =>
          match JsMap.get socketId users with
          | Some info =>
              <[roomId := JsMap.set socketId
                            {| m_id := m_id info; m_username := m_username info;
                               m_isGuest := m_isGuest info;
                               m_socketId := m_socketId info;
                               m_intent := Some intent |} users]> (roomUsers st)
          | None => roomUsers st
          end
      | None => roomUsers st
      end in
    (set_rooms ru (roomHosts st) (roomSettings st) st,
     [Emit (RoomExcept roomId socketId)
        (MRelay "intent-update"
           [("socketId", JStr socketId); ("username", username sk);
            ("intent", intent)])])).

(** *** canvas-full-sync: two listeners *)
Definition field (k : string) (o : list (string * jsval)) : jsval :=
  default JUndefined (JsMap.get k o).

Definition on_canvas_full_sync_1 (socketId : string) (sk : socket)
    (payload : list (string * jsval))
    : handler :=
  in_room sk (λ roomId st,
    (st,
     Emit (RoomExcept roomId socketId)
       (MRelay "canvas-full-sync" (JsMap.set "userId" (userId sk) payload))
     :: (if truthy (field "fabricJSON" payload)
            && truthy (field "canvasId" payload)
         then [Call (SetCanvasJSON roomId (Some (field "canvasId" payload))
                       (field "fabricJSON" payload))]
         else []))).

Definition on_canvas_full_sync_2 (socketId : string) (sk : socket)
    (data : list (string * jsval))
    : handler :=
  in_room sk (λ roomId st,
    (st,
     Emit (RoomExcept roomId socketId) (MRelay "canvas-full-sync" data)
     :: (if bool_decide (field "type" data = JStr "full-canvas")
            && truthy (field "data" data)
         then [Call (SetCanvasJSON roomId None (field "data" data))]
         else []))).

(** *** chat-message.  The generated [id] and [timestamp] of the message
    are left out of the model. *)
Definition on_chat_message (socketId : string) (sk : socket)
    (message : jsval) : handler :=
  in_room sk (λ roomId st,
    (st,
     [Emit (Room roomId)
        (MChatMessage (u_id (sk_user sk)) (u_username (sk_user sk)) message);
      Call (PushChat roomId (u_id (sk_user sk)) (u_username (sk_user sk))
              message 100)])).

(** *** cursor-position: two listeners *)
Definition cursorColors : list string :=
  ["#FF6B6B"; "#4ECDC4"; "#FFE66D"; "#A78BFA"; "#F472B6"; "#34D399";
   "#60A5FA"; "#FBBF24"].

(** [username.split('').reduce((a, c) => a + c.charCodeAt(0), 0)] *)
Definition code_sum (s : string) : Z := foldr Z.add 0 (code_units s).

Definition cursor_color (name : string) : string :=
  nth (Z.to_nat (Z.abs (code_sum name) mod 8)) cursorColors "".

Definition on_cursor_position_2 (socketId : string) (sk : socket)
    (position : jsval) : handler :=
  in_room sk (λ roomId st,
    let name :=
      if String.eqb (u_username (sk_user sk)) ""
      then "Guest-" +:+ String.substring 0 6 socketId
      else u_username (sk_user sk) in
    let color := cursor_color name in
    let cursors := default [] (roomCursorPositions st !! roomId) in
    (set_cursors
       (<[roomId := JsMap.set socketId
                      {| cu_username := name; cu_color := color;
                         cu_position := position |} cursors]>
          (roomCursorPositions st)) st,
     [Emit (RoomExcept roomId socketId)
        (MCursor socketId name color position)])).

(** *** request-cursors *)
Definition on_request_cursors (socketId : string) (sk : socket) : handler :=
  in_room sk (λ roomId st,
    (st,
     match roomCursorPositions st !! roomId with
     | Some cursors =>
         (λ '(id, c), Emit (Direct socketId)
                        (MCursor id (cu_username c) (cu_color c)
                           (cu_position c)))
         <$> filter (λ e, e.1 ≠ socketId) cursors
     | None => []
     end)).

(** *** voice-join, voice-leave, voice-mute: two listeners each *)

(** [a || b] on room ids, followed by [if (!roomId) return]. *)
Definition first_room (a b : option string) : option string :=
  match room_of a with
  | Some r => Some r
  | None => room_of b
  end.

Definition on_sk (socketId : string) (k : socket → handler) : handler :=
  λ st, match sockets st !! socketId with
        | Some sk => k sk st
        | None => (st, [])
        end.

Definition set_voicePeerId (v : option string) (sk : socket) : socket :=
  {| sk_user := sk_user sk; sk_roomId := sk_roomId sk;
     sk_displayName := sk_displayName sk; sk_voicePeerId := v;
     sk_rooms := sk_rooms sk; sk_voiceParticipants := sk_voiceParticipants sk;
     sk_connected := sk_connected sk |}.

Definition set_voiceParticipants (m : gmap string (list string)) (sk : socket)
    : socket :=
  {| sk_user := sk_user sk; sk_roomId := sk_roomId sk;
     sk_displayName := sk_displayName sk; sk_voicePeerId := sk_voicePeerId sk;
     sk_rooms := sk_rooms sk; sk_voiceParticipants := m;
     sk_connected := sk_connected sk |}.

Definition has_peer (peerId : string) (room : list vpart) : bool :=
  bool_decide (Exists (λ p, vp_peerId p = peerId) room).

Definition on_voice_join_1 (socketId : string) (sk : socket) (peerId : string)
    (voiceRoomId : option string) : handler :=
  λ st,
    match first_room (sk_roomId sk) voiceRoomId with
    | None => (st, [])
    | Some roomId =>
        let voiceRoom := default [] (voiceRooms st !! roomId) in
        let voiceRoom' :=
          if has_peer peerId voiceRoom then voiceRoom
          else voiceRoom ++ [{| vp_peerId := peerId; vp_socketId := socketId;
                                vp_isMuted := true;
                                vp_username := u_username (sk_user sk) |}] in
        (set_socket socketId (set_voicePeerId (Some peerId) sk)
           (set_voiceRooms (<[roomId := voiceRoom']> (voiceRooms st)) st),
         [Emit (Direct socketId)
            (MVoiceParticipants (filter (λ p, vp_peerId p ≠ peerId) voiceRoom));
          Emit (Room roomId)
            (MVoiceJoin peerId socketId (Some (u_username (sk_user sk))))])
    end.

(** [set.add(x)] on an insertion-ordered [Set]. *)
Definition set_add (x : string) (l : list string) : list string :=
  if bool_decide (x ∈ l) then l else l ++ [x].

Definition on_voice_join_2 (socketId : string) (sk : socket) (peerId : string)
    (voiceRoomId : option string) : handler :=
  λ st,
    match first_room voiceRoomId (sk_roomId sk) with
    | None => (st, [])
    | Some roomId =>
        let peers :=
          set_add peerId (default [] (sk_voiceParticipants sk !! roomId)) in
        let existing := filter (λ p, p ≠ peerId) peers in
        (set_socket socketId
           (set_voiceParticipants
              (<[roomId := peers]> (sk_voiceParticipants sk)) sk)
           st,
         Emit (RoomExcept roomId socketId) (MVoiceJoin peerId socketId None)
         :: (if (0 <? length existing)%nat
             then [Emit (Direct socketId) (MVoicePeerIds existing)]
             else []))
    end.

(** [idx = findIndex(..); if (idx !== -1) splice(idx, 1)] *)
Fixpoint remove_first_peer (peerId : string) (room : list vpart) : list vpart :=
  match room with
  | [] => []
  | p :: rest =>
      if bool_decide (vp_peerId p = peerId) then rest
      else p :: remove_first_peer peerId rest
  end.

Definition on_voice_leave_1 (socketId : string) (sk : socket)
    (peerId : string) : handler :=
  in_room sk (λ roomId st,
    let vr :=
      match voiceRooms st !! roomId with
      | Some voiceRoom =>
          <[roomId := remove_first_peer peerId voiceRoom]> (voiceRooms st)
      | None => voiceRooms st
      end in
    (set_socket socketId (set_voicePeerId None sk) (set_voiceRooms vr st),
     [Emit (Room roomId) (MVoiceLeave peerId)])).

Definition on_voice_leave_2 (socketId : string) (sk : socket) (peerId : string)
    (voiceRoomId : option string) : handler :=
  λ st,
    match first_room voiceRoomId (sk_roomId sk) with
    | None => (st, [])
    | Some roomId =>
        let vp :=
          match sk_voiceParticipants sk !! roomId with
          | Some peers =>
              <[roomId := filter (λ p, p ≠ peerId) peers]>
                (sk_voiceParticipants sk)
          | None => sk_voiceParticipants sk
          end in
        (set_socket socketId (set_voiceParticipants vp sk) st,
         [Emit (RoomExcept roomId socketId) (MVoiceLeave peerId)])
    end.

(** [find(..)] then [participant.isMuted = isMuted] *)
Fixpoint mute_first_peer (peerId : string) (isMuted : bool) (room : list vpart)
    : list vpart :=
  match room with
  | [] => []
  | p :: rest =>
      if bool_decide (vp_peerId p = peerId)
      then {| vp_peerId := vp_peerId p; vp_socketId := vp_socketId p;
              vp_isMuted := isMuted; vp_username := vp_username p |} :: rest
      else p :: mute_first_peer peerId isMuted rest
  end.

Definition on_voice_mute_1 (socketId : string) (sk : socket)
    (peerId : string) (isMuted : bool)
    : handler :=
  in_room sk (λ roomId st,
    let vr :=
      match voiceRooms st !! roomId with
      | Some voiceRoom =>
          <[roomId := mute_first_peer peerId isMuted voiceRoom]> (voiceRooms st)
      | None => voiceRooms st
      end in
    (set_voiceRooms vr st,
     [Emit (Room roomId) (MVoiceMute (Some peerId) None isMuted false)])).

Definition on_voice_mute_2 (socketId : string) (sk : socket)
    (peerId : string) (isMuted : bool)
    (voiceRoomId : option string) : handler :=
  λ st,
    match first_room voiceRoomId (sk_roomId sk) with
    | None => (st, [])
    | Some roomId =>
        (st, [Emit (RoomExcept roomId socketId)
                (MVoiceMute (Some peerId) None isMuted false)])
    end.

(** *** Host controls *)

Definition host_only (socketId : string) (sk : socket)
    (message : string) (k : string → handler)
    : handler :=
  λ st,
    if isHost socketId sk st then
      match room_of (sk_roomId sk) with
      | Some roomId => k roomId st
      | None => (st, [])
      end
    else (st, [Emit (Direct socketId) (MHostError message)]).

Definition on_host_kick_user (socketId : string) (sk : socket)
    (targetSocketId : string) : handler :=
  host_only socketId sk "Only the host can kick users" (λ roomId st,
    match io_socket st targetSocketId with
    | Some target =>
        if bool_decide (sk_roomId target = Some roomId) then
          let '(st', fx) := handleLeaveRoom targetSocketId st in
          (st', Emit (Direct targetSocketId)
                  (MYouWereKicked (u_username (sk_user sk))) :: fx)
        else (st, [])
    | None => (st, [])
    end).

Definition on_host_mute_user (socketId : string) (sk : socket)
    (targetSocketId : string) : handler :=
  host_only socketId sk "Only the host can mute users" (λ roomId st,
    (st,
     [Emit (Room targetSocketId) (MYouWereMuted (u_username (sk_user sk)));
      Emit (Room roomId) (MVoiceMute None (Some targetSocketId) true true)])).

Definition on_host_transfer (socketId : string) (sk : socket)
    (targetSocketId : string) : handler :=
  host_only socketId sk "Only the host can transfer host role" (λ roomId st,
    match roomUsers st !! roomId with
    | Some users =>
        if JsMap.has targetSocketId users then
          (set_rooms (roomUsers st) (<[roomId := targetSocketId]> (roomHosts st))
             (roomSettings st) st,
           [Emit (Room roomId) (MHostChanged targetSocketId)])
        else (st, [])
    | None => (st, [])
    end).

Definition on_host_toggle_chat (socketId : string) (sk : socket)
    (disabled : bool) : handler :=
  host_only socketId sk "Only the host can toggle chat" (λ roomId st,
    (set_rooms (roomUsers st) (roomHosts st)
       (match roomSettings st !! roomId with
        | Some _ => <[roomId := disabled]> (roomSettings st)
        | None => roomSettings st
        end) st,
     [Emit (Room roomId) (MChatToggled disabled (u_username (sk_user sk)))])).

(** [roomSocketIds.forEach(...)] *)
Fixpoint leave_all (ids : list string) (st : state) : state * list effect :=
  match ids with
  | [] => (st, [])
  | id :: rest =>
      let '(st1, fx1) :=
        match io_socket st id with
        | Some _ => handleLeaveRoom id st
        | None => (st, [])
        end in
      let '(st2, fx2) := leave_all rest st1 in
      (st2, fx1 ++ fx2)
  end.

Definition on_host_end_session (socketId : string) (sk : socket) : handler :=
  host_only socketId sk "Only the host can end the session" (λ roomId st,
    let roomSocketIds :=
      match roomUsers st !! roomId with
      | Some users => JsMap.keys users
      | None => []
      end in
    let '(st', fx) := leave_all roomSocketIds st in
    (set_rooms (delete roomId (roomUsers st')) (delete roomId (roomHosts st'))
       (delete roomId (roomSettings st')) st',
     Emit (Room roomId) (MSessionEnded (u_username (sk_user sk))) :: fx)).

(** ** Dispatch *)

(** The listeners of the connection [sk] for one client event; join-room
    runs up to its [await]. *)
Definition handle (socketId : string) (sk : socket)
    (ev : client_event) : handler :=
  match ev with
  | JoinRoom roomId displayName =>
      λ st, (joinRoom_begin socketId sk roomId displayName st, [])
  | LeaveRoom => handleLeaveRoom socketId
  | CodeChange fileId content cursorPosition =>
      on_code_change socketId sk fileId content cursorPosition
  | FileCreate file =>
      relay socketId sk "file-create" [("file", file); ("userId", userId sk)]
        (λ roomId, [PushItem roomId "codeFiles" file None])
  | FileDelete fileId =>
      relay socketId sk "file-delete" [("fileId", fileId); ("userId", userId sk)]
        (λ roomId, [PullItem roomId "codeFiles" fileId])
  | FileRename fileId newName =>
      relay socketId sk "file-rename"
        [("fileId", fileId); ("newName", newName); ("userId", userId sk)]
        (λ roomId, [RenameFile roomId fileId newName])
  | ActiveFileChange fileId =>
      relay socketId sk "active-file-change"
        [("fileId", fileId); ("userId", userId sk); ("username", username sk)]
        no_ops
  | CursorPosition fileId position selection =>
      both
        (relay socketId sk "cursor-position"
           [("fileId", fileId); ("position", position); ("selection", selection);
            ("userId", userId sk); ("username", username sk)] no_ops)
        (on_cursor_position_2 socketId sk position)
  | IntentUpdate intent => on_intent_update socketId sk intent
  | TabGroupCreate group =>
      relay socketId sk "tab-group-create" [("group", group)]
        (λ roomId, [PushItem roomId "tabGroups" group None])
  | TabGroupUpdate groupId updates =>
      relay socketId sk "tab-group-update"
        [("groupId", groupId); ("updates", updates)]
        no_ops
  | TabGroupDelete groupId =>
      relay socketId sk "tab-group-delete" [("groupId", groupId)]
        (λ roomId, [PullItem roomId "tabGroups" groupId])
  | CanvasObjectAdd canvasId object objectId =>
      relay socketId sk "canvas-object-add"
        [("canvasId", canvasId); ("object", object); ("objectId", objectId);
         ("userId", userId sk)] no_ops
  | CanvasObjectModify canvasId objectId changes =>
      relay socketId sk "canvas-object-modify"
        [("canvasId", canvasId); ("objectId", objectId); ("changes", changes);
         ("userId", userId sk)] no_ops
  | CanvasObjectDelete canvasId objectId =>
      relay socketId sk "canvas-object-delete"
        [("canvasId", canvasId); ("objectId", objectId); ("userId", userId sk)]
        no_ops
  | CanvasPathCreate canvasId pathData =>
      relay socketId sk "canvas-path-create"
        [("canvasId", canvasId); ("pathData", pathData); ("userId", userId sk)]
        no_ops
  | CanvasFullSync payload =>
      both (on_canvas_full_sync_1 socketId sk payload)
           (on_canvas_full_sync_2 socketId sk payload)
  | CanvasFileCreate file =>
      relay socketId sk "canvas-file-create" [("file", file)]
        (λ roomId, [PushItem roomId "canvasFiles" file None])
  | CanvasFileSwitch canvasId =>
      relay socketId sk "canvas-file-switch"
        [("canvasId", canvasId); ("userId", userId sk); ("username", username sk)]
        no_ops
  | ChatMessage message => on_chat_message socketId sk message
  | VoiceJoin peerId roomId =>
      both (on_voice_join_1 socketId sk peerId roomId)
           (on_sk socketId (λ sk', on_voice_join_2 socketId sk' peerId roomId))
  | VoiceLeave peerId roomId =>
      both (on_voice_leave_1 socketId sk peerId)
           (on_sk socketId (λ sk', on_voice_leave_2 socketId sk' peerId roomId))
  | VoiceMute peerId isMuted roomId =>
      both (on_voice_mute_1 socketId sk peerId isMuted)
           (on_voice_mute_2 socketId sk peerId isMuted roomId)
  | TerminalOutput entry =>
      relay socketId sk "terminal-output" [("entry", entry)]
        (λ roomId, [PushItem roomId "terminalHistory" entry (Some 50)])
  | RequestCursors => on_request_cursors socketId sk
  | HostKickUser targetSocketId => on_host_kick_user socketId sk targetSocketId
  | HostMuteUser targetSocketId => on_host_mute_user socketId sk targetSocketId
  | HostTransfer targetSocketId => on_host_transfer socketId sk targetSocketId
  | HostToggleChat disabled => on_host_toggle_chat socketId sk disabled
  | HostEndSession => on_host_end_session socketId sk
  end.

(** ** The server as a transition system *)

(** What the loop can be given to run: a connection is accepted, an event
    of a connection arrives, the lookups of a suspended join-room return, a
    connection is closed, the clock reaches a time (expired save timers
    fire, each callback running to its first [await]), the store answers
    the update that a suspended timer callback awaits. *)
Inductive input :=
| Connect (socketId : string) (auth : option (string * string))
| Recv (socketId : string) (ev : client_event)
| Resume (socketId roomId : string) (db : db_result)
| Disconnect (socketId : string)
| Elapse (now : Z)
| Saved (k : nat) (ok : bool).

Fixpoint remove_first (x : string * string) (l : list (string * string))
    : list (string * string) :=
  match l with
  | [] => []
  | y :: l' => if decide (y = x) then l' else y :: remove_first x l'
  end.

(** The transport closes the connection: the socket leaves the registry and
    all its rooms, then the disconnect listener runs. *)
Definition disconnect (socketId : string) (sk : socket)
    (st : state) : state * list effect :=
  handleLeaveRoom socketId
    (set_socket socketId
       {| sk_user := sk_user sk; sk_roomId := sk_roomId sk;
          sk_displayName := sk_displayName sk;
          sk_voicePeerId := sk_voicePeerId sk; sk_rooms := ∅;
          sk_voiceParticipants := sk_voiceParticipants sk;
          sk_connected := false |} st).

Definition step (st : state) (i : input) : state * list effect :=
  match i with
  | Connect socketId auth => (connect socketId auth st, [])
  | Recv socketId ev =>
      match io_socket st socketId with
      | Some sk => handle socketId sk ev st
      | None => (st, [])
      end
  | Resume socketId roomId db =>
      if bool_decide ((socketId, roomId) ∈ joining st) then
        on_sk socketId (λ sk, joinRoom_resume socketId sk roomId db)
          (set_joining (remove_first (socketId, roomId) (joining st)) st)
      else (st, [])
  | Disconnect socketId =>
      match io_socket st socketId with
      | Some sk => disconnect socketId sk st
      | None => (st, [])
      end
  | Elapse now =>
      let '(d, _, fx) := Debounce.elapse now (saves st) in
      (set_saves d st, Flush <$> fx)
  | Saved k ok =>
      let '(d, fx) := Debounce.saved k ok (saves st) in
      (set_saves d st, Flush <$> fx)
  end.

(** Run a list of inputs, collecting the effects. *)
Fixpoint run (st : state) (inputs : list input) : state * list effect :=
  match inputs with
  | [] => (st, [])
  | i :: rest =>
      let '(st1, fx1) := step st i in
      let '(st2, fx2) := run st1 rest in
      (st2, fx1 ++ fx2)
  end.

(** ** Events and the room guard

    The events all of whose listeners begin with
    [const roomId = socket.roomId; if (!roomId) return;].  The voice
    listeners fall back on the room id of the payload, the host listeners
    answer through [isHost], and join-room has no guard. *)
Definition dropped_without_room (ev : client_event) : bool :=
  match ev with
  | JoinRoom _ _ => false
  | VoiceJoin _ r | VoiceLeave _ r | VoiceMute _ _ r =>
      bool_decide (room_of r = None)
  | HostKickUser _ | HostMuteUser _ | HostTransfer _ | HostToggleChat _
  | HostEndSession => false
  | _ => true
  end.

Definition host_command (ev : client_event) : bool :=
  match ev with
  | HostKickUser _ | HostMuteUser _ | HostTransfer _ | HostToggleChat _
  | HostEndSession => true
  | _ => false
  end.

(** ** Invariants of the registries *)

(** [socketId] is a key of [roomUsers.get(roomId)]. *)
Definition is_member (st : state) (roomId socketId : string) : Prop :=
  ∃ users, roomUsers st !! roomId = Some users ∧ socketId ∈ JsMap.keys users.

(** The host assignment of a room, when set, names a member of the room. *)
Definition host_is_member (st : state) : Prop :=
  ∀ roomId hostId, roomHosts st !! roomId = Some hostId →
                   is_member st roomId hostId.

(** A connection is in the membership of at most one room. *)
Definition one_room_each (st : state) : Prop :=
  ∀ r1 r2 socketId,
    is_member st r1 socketId → is_member st r2 socketId → r1 = r2.

(** A member of a room is a socket whose current room is that room. *)
Definition member_in_current_room (st : state) : Prop :=
  ∀ roomId socketId,
    is_member st roomId socketId →
    ∃ sk, sockets st !! socketId = Some sk ∧ sk_roomId sk = Some roomId.

(** What the invariants read of a state: the keys of each membership map,
    the host assignments, the current room of each socket. *)
Definition same_view (st st' : state) : Prop :=
  (∀ roomId, JsMap.keys <$> roomUsers st' !! roomId
             = JsMap.keys <$> roomUsers st !! roomId)
  ∧ roomHosts st' = roomHosts st
  ∧ (∀ socketId, sk_roomId <$> sockets st' !! socketId
                 = sk_roomId <$> sockets st !! socketId).

(** The events that only relay, or touch registries other than the three
    above. *)
Definition room_neutral (ev : client_event) : bool :=
  match ev with
  | JoinRoom _ _ | LeaveRoom | HostKickUser _ | HostTransfer _
  | HostEndSession => false
  | _ => true
  end.

(** A suspended join-room handler continues while its connection is still
    in the membership of the room. *)
Definition resumes_as_member (st : state) (i : input) : Prop :=
  match i with
  | Resume socketId roomId _ =>
      (socketId, roomId) ∈ joining st → is_member st roomId socketId
  | _ => True
  end.

(** A connection sends join-room only while it has no current room, or for
    the room it is in. *)
Definition joins_one_room (st : state) (i : input) : Prop :=
  match i with
  | Recv socketId (JoinRoom roomId _) =>
      ∀ sk, io_socket st socketId = Some sk →
            sk_roomId sk = None ∨ sk_roomId sk = Some roomId
  | _ => True
  end.

(** The states the server reaches from [init] through inputs that satisfy
    [ok] in the state they arrive in. *)
Inductive reachable_by (ok : state → input → Prop) : state → Prop :=
| reach_init : reachable_by ok init
| reach_step st i :
    reachable_by ok st → ok st i → reachable_by ok (step st i).1.

(** Every input of a run satisfies [ok] in the state it arrives in. *)
Fixpoint all_ok (ok : state → input → Prop) (st : state) (inputs : list input)
    : Prop :=
  match inputs with
  | [] => True
  | i :: rest => ok st i ∧ all_ok ok (step st i).1 rest
  end.

(** ** Further notions used by the properties of the handlers *)

(** The states the server reaches from [init], whatever the inputs. *)
Definition reachable (st : state) : Prop := reachable_by (λ _ _, True) st.

(** The peer ids of a voice roster, in order. *)
Definition peer_ids (room : list vpart) : list string := vp_peerId <$> room.

(** No peer id occurs twice in a voice roster. *)
Definition rosters_distinct (st : state) : Prop :=
  ∀ roomId room, voiceRooms st !! roomId = Some room → NoDup (peer_ids room).

(** The events that reach the listeners of [global.voiceRooms]. *)
Definition voice_event (ev : client_event) : bool :=
  match ev with
  | VoiceJoin _ _ | VoiceLeave _ _ | VoiceMute _ _ _ => true
  | _ => false
  end.

(** The voice roster of a room ([[]] when the room has none). *)
Definition roster (st : state) (roomId : string) : list vpart :=
  default [] (voiceRooms st !! roomId).

(** [participant.isMuted = isMuted] for the entries of a peer. *)
Definition with_muted (peerId : string) (isMuted : bool) (p : vpart) : vpart :=
  if bool_decide (vp_peerId p = peerId)
  then {| vp_peerId := vp_peerId p; vp_socketId := vp_socketId p;
          vp_isMuted := isMuted; vp_username := vp_username p |}
  else p.

(** The name the second cursor-position listener shows for a connection:
    [socket.user?.username || `Guest-${socket.id.substring(0, 6)}`]. *)
Definition cursor_name (socketId : string) (sk : socket) : string :=
  if String.eqb (u_username (sk_user sk)) ""
  then "Guest-" +:+ String.substring 0 6 socketId
  else u_username (sk_user sk).

Definition cursor_event (ev : client_event) : bool :=
  match ev with CursorPosition _ _ _ => true | _ => false end.

(** The connection has a socket object and no current room. *)
Definition roomless (st : state) (socketId : string) : Prop :=
  ∃ sk, sockets st !! socketId = Some sk ∧ room_of (sk_roomId sk) = None.

(** Every room that has a membership map has a member in it, a host
    assignment and a chat setting. *)
Definition rooms_settled (st : state) : Prop :=
  ∀ roomId users, roomUsers st !! roomId = Some users →
    users ≠ []
    ∧ is_Some (roomHosts st !! roomId)
    ∧ is_Some (roomSettings st !! roomId).

(** [socket.user.username] after the display-name lines of join-room:
    [if (displayName && displayName.trim()) ... = displayName.trim()]. *)
Definition name_after_join (displayName : option string) (sk : socket)
    : string :=
  match displayName with
  | Some dn => if String.eqb (trim dn) "" then u_username (sk_user sk)
               else trim dn
  | None => u_username (sk_user sk)
  end.

(** Timer handles are not reused: the armed timers have pairwise
    different handles, all below the next one to be handed out; a handle
    that [saveTimers] holds for a room is below it too, and is the handle of
    no armed timer of another room. *)
Definition handles_fresh (d : Debounce.t) : Prop :=
  NoDup (Debounce.tm_handle <$> Debounce.loop_timers d)
  ∧ (∀ tm, tm ∈ Debounce.loop_timers d →
           (Debounce.tm_handle tm < Debounce.next_handle d)%nat)
  ∧ (∀ r h, Debounce.saveTimers d !! r = Some h →
            (h < Debounce.next_handle d)%nat)
  ∧ ∀ r h tm, Debounce.saveTimers d !! r = Some h →
              tm ∈ Debounce.loop_timers d → Debounce.tm_handle tm = h →
              Debounce.tm_room tm = r.

(** [d'] has armed timers of [d] only, in their order, the next handle of
    [d], and no entry in [saveTimers] that [d] has not. *)
Definition no_new_timers (d d' : Debounce.t) : Prop :=
  Debounce.loop_timers d' `sublist_of` Debounce.loop_timers d
  ∧ Debounce.next_handle d' = Debounce.next_handle d
  ∧ ∀ r h, Debounce.saveTimers d' !! r = Some h →
           Debounce.saveTimers d !! r = Some h.

(** The store updates among the effects of a run. *)
Definition written (fx : list effect) : list store_op :=
  omap (λ e, match e with
             | Flush (Debounce.Store op) => Some op
             | _ => None
             end) fx.

(** The inputs that reach the debouncer. *)
Definition save_input (i : input) : bool :=
  match i with
  | Recv _ (CodeChange _ _ _) | Elapse _ | Saved _ _ => true
  | _ => false
  end.

(** The editing events: their listeners start with
    [socket.to(roomId).emit(...)]. *)
Definition sync_event (ev : client_event) : bool :=
  match ev with
  | CodeChange _ _ _ | FileCreate _ | FileDelete _ | FileRename _ _
  | ActiveFileChange _ | CursorPosition _ _ _ | IntentUpdate _
  | TabGroupCreate _ | TabGroupUpdate _ _ | TabGroupDelete _
  | CanvasObjectAdd _ _ _ | CanvasObjectModify _ _ _
  | CanvasObjectDelete _ _ | CanvasPathCreate _ _ | CanvasFullSync _
  | CanvasFileCreate _ | CanvasFileSwitch _ | TerminalOutput _ => true
  | _ => false
  end.

(** The room a store call is addressed to. *)
Definition op_room (op : store_op) : string :=
  match op with
  | SetFileContent roomId _ _ | RenameFile roomId _ _ | PushItem roomId _ _ _
  | PushChat roomId _ _ _ _ | PullItem roomId _ _ | SetCanvasJSON roomId _ _ =>
      roomId
  end.

(** The effect is a message to the others in the room, or a store call
    for the room. *)
Definition confined (roomId socketId : string) (e : effect) : Prop :=
  match e with
  | Emit to _ => to = RoomExcept roomId socketId
  | Call op => op_room op = roomId
  | Flush _ => False
  end.

(** [userInfo.intent = intent] *)
Definition with_intent (intent : jsval) (info : member) : member :=
  {| m_id := m_id info; m_username := m_username info;
     m_isGuest := m_isGuest info; m_socketId := m_socketId info;
     m_intent := Some intent |}.

(** * Properties *)

(** ** Insertion-ordered maps *)

Section JsMap_facts.
Context {V : Type}.
Implicit Types (m : list (string * V)) (k : string) (v : V).

Lemma JsMap_get_set m k k' v :
  JsMap.get k' (JsMap.set k v m)
  = if decide (k = k') then Some v else JsMap.get k' m.
Proof.
  induction m as [|[k0 v0] m IH]; csimpl.
  - destruct (decide (k = k')); reflexivity.
  - destruct (decide (k0 = k)) as [->|Hne]; csimpl.
    + destruct (decide (k = k')); reflexivity.
    + destruct (decide (k0 = k')) as [->|Hne'].
      * destruct (decide (k = k')); congruence.
      * apply IH.
Qed.

Lemma JsMap_keys_set m k v :
  JsMap.keys (JsMap.set k v m)
  = if decide (k ∈ JsMap.keys m) then JsMap.keys m else JsMap.keys m ++ [k].
Proof.
  unfold JsMap.keys. induction m as [|[k0 v0] m IH]; csimpl.
  - destruct (decide (k ∈ [])) as [H|_]; [inversion H | reflexivity].
  - destruct (decide (k0 = k)) as [->|Hne]; csimpl.
    + rewrite decide_True by apply list_elem_of_here. reflexivity.
    + rewrite IH. destruct (decide (k ∈ m.*1)) as [Hin|Hnin].
      * rewrite decide_True by (by apply list_elem_of_further). reflexivity.
      * rewrite decide_False; [reflexivity|].
        intros [?|?]%elem_of_cons; congruence.
Qed.

Lemma JsMap_set_nodup m k v :
  NoDup (JsMap.keys m) → NoDup (JsMap.keys (JsMap.set k v m)).
Proof.
  intros Hnd. rewrite JsMap_keys_set. destruct (decide _) as [|Hnin]; [done|].
  apply NoDup_app. split_and!; [done| |apply NoDup_singleton].
  intros x Hx ->%list_elem_of_singleton. done.
Qed.

Lemma JsMap_elem_of_keys_set m k k' v :
  k' ∈ JsMap.keys (JsMap.set k v m) ↔ k' = k ∨ k' ∈ JsMap.keys m.
Proof.
  rewrite JsMap_keys_set. destruct (decide _) as [Hin|Hnin].
  - split; [auto|]. intros [->|?]; done.
  - rewrite elem_of_app, list_elem_of_singleton. tauto.
Qed.

Lemma JsMap_set_not_nil m k v : JsMap.set k v m ≠ [].
Proof. destruct m as [|[k0 v0] m]; csimpl; [done|]. by destruct (decide _). Qed.

Lemma JsMap_get_Some_elem m k v : JsMap.get k m = Some v → (k, v) ∈ m.
Proof.
  induction m as [|[k0 v0] m IH]; csimpl; [done|].
  destruct (decide (k0 = k)) as [->|Hne].
  - intros [= ->]. apply list_elem_of_here.
  - intros H. apply list_elem_of_further. auto.
Qed.

Lemma JsMap_elem_get m k v :
  NoDup (JsMap.keys m) → (k, v) ∈ m → JsMap.get k m = Some v.
Proof.
  unfold JsMap.keys. induction m as [|[k0 v0] m IH]; csimpl.
  - intros _ H. inversion H.
  - intros [Hnin Hnd]%NoDup_cons [Heq|Hin]%elem_of_cons.
    + injection Heq as -> ->. by rewrite decide_True.
    + destruct (decide (k0 = k)) as [->|Hne]; [|by apply IH].
      exfalso. apply Hnin. apply list_elem_of_fmap. by exists (k, v).
Qed.

Lemma JsMap_elem_of_keys_delete m k k' :
  k' ∈ JsMap.keys (JsMap.delete k m) ↔ k' ≠ k ∧ k' ∈ JsMap.keys m.
Proof.
  unfold JsMap.keys. induction m as [|[k0 v0] m IH]; csimpl.
  - split; [intros H; inversion H | intros [_ H]; inversion H].
  - destruct (decide (k0 = k)) as [->|Hne]; csimpl.
    + rewrite IH, elem_of_cons. split; [tauto|].
      intros [Hk [->|Hin]]; [done | auto].
    + rewrite !elem_of_cons, IH. split.
      * intros [->|[? ?]]; auto.
      * intros [? [->|?]]; auto.
Qed.

Lemma JsMap_has_keys m k : JsMap.has k m = true ↔ k ∈ JsMap.keys m.
Proof.
  unfold JsMap.has, JsMap.keys. rewrite bool_decide_eq_true.
  induction m as [|[k0 v0] m IH]; csimpl.
  - split; [intros [? [=]] | intros H; inversion H].
  - destruct (decide (k0 = k)) as [->|Hne].
    + split; [intros _; apply list_elem_of_here | eauto].
    + rewrite IH, elem_of_cons. split; [auto|]. intros [?|?]; [congruence|done].
Qed.
End JsMap_facts.

(** ** The write-back debouncer *)

Section debounce_facts.
Import Debounce.
Variable accepts : store_op → bool.
Variable R : string.

Lemma filter_none {A} (P : A → Prop) `{∀ x, Decision (P x)} (l : list A) :
  Forall (λ x, ¬ P x) l → filter P l = [].
Proof.
  induction 1 as [|a l Ha _ IH]; [done|].
  by rewrite filter_cons, decide_False.
Qed.

Lemma filter_all {A} (P : A → Prop) `{∀ x, Decision (P x)} (l : list A) :
  Forall P l → filter P l = l.
Proof.
  induction 1 as [|a l Ha _ IH]; [done|].
  by rewrite filter_cons, decide_True, IH.
Qed.

(** *** The store loop *)

Lemma save_files_accepted room files :
  (∀ op, accepts op = true) →
  save_files accepts room files
  = ((λ e, SetFileContent room e.1 e.2) <$> files, true).
Proof.
  intros Hok. induction files as [|[f x] files IH]; csimpl; [done|].
  by rewrite Hok, IH.
Qed.

Lemma save_files_about room files ops ok :
  save_files accepts room files = (ops, ok) →
  Forall (λ op, ∃ f x, op = SetFileContent room f x) ops.
Proof.
  revert ops ok. induction files as [|[f x] files IH]; csimpl; intros ops ok.
  - intros [= <- <-]. constructor.
  - destruct (accepts _).
    + destruct (save_files accepts room files) as [ops' ok'] eqn:E.
      intros [= <- <-]. constructor; eauto.
    + intros [= <- <-]. repeat constructor; eauto.
Qed.

Lemma filter_about_stores_other room ops :
  room ≠ R →
  Forall (λ op, ∃ f x, op = SetFileContent room f x) ops →
  filter (about R) (Store <$> ops) = [].
Proof.
  intros Hne. induction 1 as [|op ops (f & x & ->) _ IH]; csimpl; [done|].
  rewrite filter_cons. rewrite decide_False by (simpl; congruence). done.
Qed.

Lemma filter_about_updates files :
  filter (about R) (updates R files) = updates R files.
Proof.
  unfold updates. induction files as [|[f x] files IH]; csimpl; [done|].
  rewrite filter_cons. rewrite decide_True by done. by rewrite IH.
Qed.

(** *** One timer callback *)

Lemma save_files_head room e rest :
  (save_files accepts room (e :: rest)).1
  = SetFileContent room e.1 e.2 :: tail (save_files accepts room (e :: rest)).1.
Proof.
  destruct e as [f x]. cbn [save_files fst snd].
  destruct (accepts _); [|done].
  by destruct (save_files accepts room rest).
Qed.

Lemma flush_files_live room k files d :
  pendingSaves d !! room = Some files →
  flush_files {| fl_room := room; fl_pos := k; fl_files := None |} d = files.
Proof. unfold flush_files. cbn [fl_files fl_room]. by intros ->. Qed.

Lemma flush_run_S n fl d :
  flush_run accepts (S n) fl d
  = match awaited fl d with
    | Some op =>
        let '(o, d1, fx1) := flush_reply (accepts op) fl d in
        match o with
        | Some fl' =>
            let '(d2, fx2) := flush_run accepts n fl' d1 in (d2, fx1 ++ fx2)
        | None => (d1, fx1)
        end
    | None => (d, [])
    end.
Proof. done. Qed.

(** A callback that awaits the update of an entry of the room's buffer,
    and is answered at once from there on, issues the updates of the
    entries behind it up to the first that fails. *)
Lemma flush_run_rest room : ∀ rest pre e d,
  pendingSaves d !! room = Some (pre ++ e :: rest) →
  flush_run accepts (S (length rest))
    {| fl_room := room; fl_pos := length pre; fl_files := None |} d
  = (if (save_files accepts room (e :: rest)).2
     then forget room (drop_buffer room d) else forget room d,
     (Store <$> tail (save_files accepts room (e :: rest)).1)
     ++ [if (save_files accepts room (e :: rest)).2
         then LogSaved room (length (pre ++ e :: rest))
         else LogSaveError room]).
Proof.
  induction rest as [|[f' x'] rest IH]; intros pre [f x] d Hp;
    rewrite flush_run_S; unfold awaited;
    rewrite (flush_files_live _ _ _ _ Hp); cbn [fl_room fl_pos];
    rewrite (list_lookup_middle pre _ (f, x) (length pre)) by done;
    cbn [fmap option_fmap option_map fst snd];
    unfold flush_reply; cbn [fl_room fl_pos fl_files].
  - cbn [save_files fst snd].
    destruct (accepts (SetFileContent room f x)); [|done].
    unfold flush_step. rewrite (flush_files_live _ _ _ _ Hp).
    cbn [fl_room fl_pos].
    rewrite lookup_ge_None_2 by (rewrite length_app; simpl; lia).
    done.
  - change (save_files accepts room ((f, x) :: (f', x') :: rest))
      with (let op := SetFileContent room f x in
            if accepts op then
              let '(ops, ok) := save_files accepts room ((f', x') :: rest) in
              (op :: ops, ok)
            else ([op], false)).
    cbv zeta.
    destruct (accepts (SetFileContent room f x)); [|done].
    unfold flush_step. rewrite (flush_files_live _ _ _ _ Hp).
    cbn [fl_room fl_pos].
    assert ((pre ++ (f, x) :: (f', x') :: rest) !! S (length pre)
            = Some (f', x')) as ->.
    { rewrite (cons_middle (f, x)), app_assoc.
      rewrite (list_lookup_middle (pre ++ [(f, x)]) rest (f', x')); [done|].
      rewrite length_app. simpl. lia. }
    assert (pendingSaves d !! room
            = Some ((pre ++ [(f, x)]) ++ (f', x') :: rest))
      as Hp' by (by rewrite <- app_assoc).
    specialize (IH (pre ++ [(f, x)]) (f', x') d Hp').
    replace (length (pre ++ [(f, x)])) with (S (length pre)) in IH
      by (rewrite length_app; simpl; lia).
    cbn [length]. rewrite IH, <- app_assoc.
    pose proof (save_files_head room (f', x') rest) as Hhd.
    destruct (save_files accepts room ((f', x') :: rest)) as [ops ok].
    cbn [fst snd tail] in *. destruct ops as [|op ops]; [done|].
    cbn [tail] in *. by injection Hhd as ->.
Qed.

(** An uninterrupted callback is the whole flush. *)
Lemma timer_callback_whole room d :
  timer_callback accepts room d = whole_flush accepts room d.
Proof.
  unfold timer_callback, whole_flush, flush_begin.
  destruct (pendingSaves d !! room) as [[|e rest]|] eqn:Hp; [done| |done].
  change (0 <? JsMap.size (e :: rest))%nat with true. cbv iota.
  unfold flush_step. rewrite !(flush_files_live _ _ _ _ Hp).
  cbn [fl_room fl_pos lookup list_lookup]. destruct e as [f x].
  rewrite (flush_files_live _ _ _ _ Hp).
  change (JsMap.size ((f, x) :: rest)) with (S (length rest)).
  pose proof (flush_run_rest room rest [] (f, x) d Hp) as Hrun.
  cbn [length app] in Hrun. rewrite Hrun.
  pose proof (save_files_head room (f, x) rest) as Hhd.
  destruct (save_files accepts room ((f, x) :: rest)) as [ops ok].
  cbn [fst snd] in *. destruct ops as [|op ops]; [done|].
  cbn [tail] in *. injection Hhd as ->. by destruct ok.
Qed.

(** A callback of another room leaves this room's part untouched. *)
Lemma timer_callback_other room d :
  room ≠ R →
  let r := timer_callback accepts room d in
  saveTimers r.1 !! R = saveTimers d !! R
  ∧ pendingSaves r.1 !! R = pendingSaves d !! R
  ∧ loop_timers r.1 = loop_timers d
  ∧ filter (about R) r.2 = [].
Proof.
  intros Hne. rewrite timer_callback_whole. unfold whole_flush, forget, drop_buffer.
  destruct (pendingSaves d !! room) as [files|] eqn:Hp; csimpl.
  - destruct (0 <? JsMap.size files)%nat; csimpl.
    + destruct (save_files accepts room files) as [ops ok] eqn:Hs.
      pose proof (save_files_about _ _ _ _ Hs) as Hall.
      destruct ok; csimpl; rewrite ?lookup_delete_ne by done;
        rewrite filter_app, (filter_about_stores_other room ops Hne Hall);
        rewrite filter_cons, decide_False by (simpl; congruence); done.
    + by rewrite lookup_delete_ne.
  - by rewrite lookup_delete_ne.
Qed.

Lemma timer_callback_flush d :
  (∀ op, accepts op = true) →
  let r := timer_callback accepts R d in
  saveTimers r.1 !! R = None
  ∧ pendingSaves r.1 !! R
    = match pendingSaves d !! R with Some [] => Some [] | _ => None end
  ∧ loop_timers r.1 = loop_timers d
  ∧ r.2 = flush_effects R (default [] (pendingSaves d !! R)).
Proof.
  intros Hok. rewrite timer_callback_whole. unfold whole_flush, forget, drop_buffer.
  destruct (pendingSaves d !! R) as [[|e files]|] eqn:Hp.
  - csimpl. by rewrite lookup_delete_eq.
  - rewrite save_files_accepted by done.
    change (0 <? JsMap.size (e :: files))%nat with true. cbv iota beta.
    csimpl. rewrite !lookup_delete_eq. split_and!; try done.
    unfold updates, JsMap.size. by rewrite <- list_fmap_compose.
  - csimpl. by rewrite lookup_delete_eq.
Qed.

Lemma filter_about_flush files :
  filter (about R) (flush_effects R files) = flush_effects R files.
Proof.
  destruct files as [|e files]; [done|]. unfold flush_effects.
  rewrite filter_app, filter_about_updates.
  by rewrite filter_cons, decide_True.
Qed.

(** *** Firing the expired timers *)

Lemma timer_callback_frame room d :
  let r := timer_callback accepts room d in
  loop_timers r.1 = loop_timers d ∧ clock r.1 = clock d
  ∧ next_handle r.1 = next_handle d.
Proof.
  rewrite timer_callback_whole. unfold whole_flush, forget, drop_buffer.
  destruct (pendingSaves d !! room) as [files|]; [|done].
  destruct (0 <? JsMap.size files)%nat; [|done].
  destruct (save_files accepts room files) as [ops [|]]; done.
Qed.

Lemma fire_frame due d :
  let r := fire accepts due d in
  loop_timers r.1 = loop_timers d ∧ clock r.1 = clock d
  ∧ next_handle r.1 = next_handle d.
Proof.
  revert d. induction due as [|tm due IH]; intros d; [done|].
  cbn [fire].
  pose proof (timer_callback_frame (tm_room tm) d) as Hc.
  destruct (timer_callback accepts (tm_room tm) d) as [d1 fx1].
  specialize (IH d1). destruct (fire accepts due d1) as [d2 fx2].
  simpl in *. intuition congruence.
Qed.

Lemma fire_other due d :
  Forall (λ tm, tm_room tm ≠ R) due →
  let r := fire accepts due d in
  saveTimers r.1 !! R = saveTimers d !! R
  ∧ pendingSaves r.1 !! R = pendingSaves d !! R
  ∧ filter (about R) r.2 = [].
Proof.
  intros Hall. revert d. induction Hall as [|tm due Hne _ IH]; intros d; [done|].
  cbn [fire].
  pose proof (timer_callback_other (tm_room tm) d Hne) as Hc.
  destruct (timer_callback accepts (tm_room tm) d) as [d1 fx1].
  specialize (IH d1). destruct (fire accepts due d1) as [d2 fx2].
  simpl in *. destruct Hc as (Hs & Hp & _ & Hfx), IH as (Hs' & Hp' & Hfx').
  rewrite filter_app, Hfx, Hfx'. split_and!; solve [done | congruence].
Qed.

(** Exactly one of the expired timers belongs to the room: its buffer is
    flushed once. *)
Lemma fire_one due d tm :
  (∀ op, accepts op = true) →
  filter (λ tm, tm_room tm = R) due = [tm] →
  let r := fire accepts due d in
  saveTimers r.1 !! R = None
  ∧ pendingSaves r.1 !! R
    = match pendingSaves d !! R with Some [] => Some [] | _ => None end
  ∧ filter (about R) r.2 = flush_effects R (default [] (pendingSaves d !! R)).
Proof.
  intros Hok. revert d. induction due as [|tm' due IH]; intros d Hf; [done|].
  rewrite filter_cons in Hf. cbn [fire].
  destruct (decide (tm_room tm' = R)) as [Heq|Hne].
  - injection Hf as -> Hrest. rewrite Heq.
    pose proof (timer_callback_flush d Hok) as Hc.
    destruct (timer_callback accepts R d) as [d1 fx1].
    assert (Forall (λ tm, tm_room tm ≠ R) due) as Hno.
    { apply Forall_forall. intros x Hx Hr.
      assert (x ∈ filter (λ tm, tm_room tm = R) due) as Hin
        by (by apply list_elem_of_filter).
      rewrite Hrest in Hin. inversion Hin. }
    pose proof (fire_other due d1 Hno) as Ho.
    destruct (fire accepts due d1) as [d2 fx2]. simpl in *.
    destruct Hc as (Hs & Hp & _ & ->), Ho as (Hs' & Hp' & Hfx).
    rewrite filter_app, Hfx, filter_about_flush, app_nil_r.
    split_and!; solve [done | congruence].
  - pose proof (timer_callback_other (tm_room tm') d Hne) as Hc.
    destruct (timer_callback accepts (tm_room tm') d) as [d1 fx1].
    specialize (IH d1 Hf). destruct (fire accepts due d1) as [d2 fx2].
    simpl in *. destruct Hc as (Hs & Hp & _ & Hfx), IH as (Hs' & Hp' & Hfx').
    rewrite filter_app, Hfx, Hfx', <- Hp. split_and!; solve [done | congruence].
Qed.

Lemma filter_comm {A} (P Q : A → Prop)
    `{∀ x, Decision (P x)} `{∀ x, Decision (Q x)} (l : list A) :
  filter P (filter Q l) = filter Q (filter P l).
Proof.
  induction l as [|a l IH]; [done|].
  rewrite (filter_cons Q), (filter_cons P).
  destruct (decide (Q a)), (decide (P a)); rewrite ?filter_cons;
    rewrite ?decide_True by done; rewrite ?decide_False by done;
    by rewrite IH.
Qed.

(** *** The loop reaching a given time *)

(** No timer of the room has expired: the room's part is untouched. *)
Lemma advance_idle now d :
  Forall (λ tm, ¬ is_due now tm) (armed R d) →
  let r := advance accepts now d in
  armed R r.1.1 = armed R d
  ∧ saveTimers r.1.1 !! R = saveTimers d !! R
  ∧ pendingSaves r.1.1 !! R = pendingSaves d !! R
  ∧ clock r.1.1 = Z.max (clock d) now
  ∧ next_handle r.1.1 = next_handle d
  ∧ filter (λ tm, tm_room tm = R) r.1.2 = []
  ∧ filter (about R) r.2 = [].
Proof.
  intros Hnot. unfold advance.
  set (d0 := {| saveTimers := saveTimers d; pendingSaves := pendingSaves d;
                loop_timers := filter (λ tm, ¬ is_due now tm) (loop_timers d);
                next_handle := next_handle d;
                clock := Z.max (clock d) now;
                flushes := flushes d |}).
  set (due := filter (is_due now) (loop_timers d)).
  assert (filter (λ tm, tm_room tm = R) due = []) as Hnone.
  { unfold due. rewrite filter_comm. fold (armed R d). by apply filter_none. }
  assert (armed R d0 = armed R d) as Harmed.
  { unfold armed, d0. cbn [loop_timers]. rewrite filter_comm.
    fold (armed R d). by apply filter_all. }
  assert (Forall (λ tm, tm_room tm ≠ R) due) as Hother.
  { apply Forall_forall. intros x Hx Hr.
    assert (x ∈ filter (λ tm, tm_room tm = R) due) as Hin
      by (by apply list_elem_of_filter).
    rewrite Hnone in Hin. inversion Hin. }
  pose proof (fire_other due d0 Hother) as Ho.
  pose proof (fire_frame due d0) as Hf.
  destruct (fire accepts due d0) as [d1 fx]. simpl in *.
  destruct Ho as (Hs & Hp & Hfx), Hf as (Hl & Hc & Hn).
  unfold armed in *. rewrite Hl. split_and!; done.
Qed.

(** The room's one timer has expired: the buffer is flushed, once. *)
Lemma advance_due now d tm :
  (∀ op, accepts op = true) →
  armed R d = [tm] → is_due now tm →
  let r := advance accepts now d in
  armed R r.1.1 = []
  ∧ saveTimers r.1.1 !! R = None
  ∧ pendingSaves r.1.1 !! R
    = match pendingSaves d !! R with Some [] => Some [] | _ => None end
  ∧ filter (λ tm, tm_room tm = R) r.1.2 = [tm]
  ∧ filter (about R) r.2 = flush_effects R (default [] (pendingSaves d !! R)).
Proof.
  intros Hok Harm Hdue. unfold advance.
  set (d0 := {| saveTimers := saveTimers d; pendingSaves := pendingSaves d;
                loop_timers := filter (λ tm, ¬ is_due now tm) (loop_timers d);
                next_handle := next_handle d;
                clock := Z.max (clock d) now;
                flushes := flushes d |}).
  set (due := filter (is_due now) (loop_timers d)).
  assert (filter (λ tm, tm_room tm = R) due = [tm]) as Hone.
  { unfold due. rewrite filter_comm. fold (armed R d). rewrite Harm.
    by rewrite filter_cons, decide_True. }
  assert (armed R d0 = []) as Harmed.
  { unfold armed, d0. cbn [loop_timers]. rewrite filter_comm.
    fold (armed R d). rewrite Harm.
    rewrite filter_cons, decide_False; [done|]. intros Hn. by apply Hn. }
  pose proof (fire_one due d0 tm Hok Hone) as Ho.
  pose proof (fire_frame due d0) as Hf.
  destruct (fire accepts due d0) as [d1 fx]. simpl in *.
  destruct Ho as (Hs & Hp & Hfx), Hf as (Hl & Hc & Hn).
  unfold armed in *. rewrite Hl. split_and!; done.
Qed.

(** *** Recording a change *)

Lemma debouncedSave_armed f x d :
  (armed R d = [] ∧ saveTimers d !! R = None)
  ∨ (∃ tm, armed R d = [tm] ∧ saveTimers d !! R = Some (tm_handle tm)) →
  let d' := debouncedSave R f x d in
  armed R d'
  = [{| tm_handle := next_handle d; tm_due := clock d + delay; tm_room := R |}]
  ∧ saveTimers d' !! R = Some (next_handle d)
  ∧ clock d' = clock d.
Proof.
  intros Hst. unfold debouncedSave, armed. cbn [loop_timers saveTimers clock].
  rewrite lookup_insert_eq. split_and!; [|done..].
  rewrite filter_app, filter_cons, decide_True by done.
  destruct Hst as [[Harm ->]|(tm & Harm & ->)].
  - unfold armed in Harm. by rewrite Harm.
  - unfold clearTimeout. rewrite filter_comm. unfold armed in Harm.
    rewrite Harm, filter_cons, decide_False; [done|]. intros Hn. by apply Hn.
Qed.

Lemma debouncedSave_pending c d :
  pendingSaves (debouncedSave R (ch_file c) (ch_content c) d) !! R
  = pend_step (pendingSaves d !! R) c.
Proof.
  unfold debouncedSave, pend_step, recorded. cbn [pendingSaves].
  destruct (ch_file c) as [f|]; [|done].
  destruct (ch_content c) as [x|]; [|done].
  destruct (String.eqb f ""); [done|]. apply lookup_insert_eq.
Qed.

(** *** A burst *)

Lemma last_at_cons c0 c rest : last_at c0 (c :: rest) = last_at c rest.
Proof.
  unfold last_at. f_equal. revert c c0.
  induction rest as [|c' rest IH]; intros c c0; [done|].
  change (List.last (c :: c' :: rest) c0) with (List.last (c' :: rest) c0).
  by rewrite !IH.
Qed.

Lemma record_all_window calls : ∀ d tm c0,
  armed R d = [tm] → saveTimers d !! R = Some (tm_handle tm) →
  tm_due tm = ch_at c0 + delay → clock d = ch_at c0 →
  within_window (ch_at c0) calls →
  let r := record_all accepts R calls d in
  (∃ tm', armed R r.1.1 = [tm']
          ∧ saveTimers r.1.1 !! R = Some (tm_handle tm')
          ∧ tm_due tm' = last_at c0 calls + delay)
  ∧ pendingSaves r.1.1 !! R = fold_left pend_step calls (pendingSaves d !! R)
  ∧ filter (λ tm, tm_room tm = R) r.1.2 = []
  ∧ filter (about R) r.2 = [].
Proof.
  induction calls as [|c rest IH]; intros d tm c0 Harm Hs Hdue Hclock Hwin.
  - simpl. split_and!; eauto.
  - destruct Hwin as [[Hle Hlt] Hwin]. cbn [record_all].
    assert (Forall (λ tm, ¬ is_due (ch_at c) tm) (armed R d)) as Hnot.
    { rewrite Harm. constructor; [|constructor]. unfold is_due. lia. }
    pose proof (advance_idle (ch_at c) d Hnot) as Ha.
    destruct (advance accepts (ch_at c) d) as [[d1 fired1] fx1].
    simpl in Ha. destruct Ha as (Ha1 & Hs1 & Hp1 & Hc1 & Hn1 & Hfired1 & Hfx1).
    assert ((armed R d1 = [] ∧ saveTimers d1 !! R = None)
            ∨ (∃ tm, armed R d1 = [tm]
                     ∧ saveTimers d1 !! R = Some (tm_handle tm))) as Hst
      by (right; exists tm; split; congruence).
    pose proof (debouncedSave_armed (ch_file c) (ch_content c) d1 Hst) as Hd.
    pose proof (debouncedSave_pending c d1) as Hp2.
    cbv zeta in Hd. destruct Hd as (Ha2 & Hs2 & Hc2).
    set (d2 := debouncedSave R (ch_file c) (ch_content c) d1) in *.
    assert (clock d2 = ch_at c) as Hclock2 by lia.
    assert (clock d1 + delay = ch_at c + delay) as Hdue2 by lia.
    specialize (IH d2 _ c Ha2 Hs2 Hdue2 Hclock2 Hwin).
    destruct (record_all accepts R rest d2) as [[d3 fired3] fx3].
    simpl in *. destruct IH as (Htm & Hp3 & Hfired3 & Hfx3).
    rewrite last_at_cons, !filter_app, Hfired1, Hfired3, Hfx1, Hfx3.
    split_and!; [done| |done..]. by rewrite Hp3, Hp2, Hp1.
Qed.

(** *** The buffer a burst leaves *)

Lemma pend_fold_nodup calls : ∀ o,
  NoDup (JsMap.keys (default [] o)) →
  NoDup (JsMap.keys (default [] (fold_left pend_step calls o))).
Proof.
  induction calls as [|c rest IH]; intros o Hnd; [done|].
  cbn [fold_left]. apply IH. unfold pend_step.
  destruct (recorded c) as [[f x]|]; [|done]. by apply JsMap_set_nodup.
Qed.

Lemma pend_fold_not_nil calls : ∀ o,
  o ≠ Some [] → fold_left pend_step calls o ≠ Some [].
Proof.
  induction calls as [|c rest IH]; intros o Hne; [done|].
  cbn [fold_left]. apply IH. unfold pend_step.
  destruct (recorded c) as [[f x]|]; [|done].
  intros [= H]. by apply JsMap_set_not_nil in H.
Qed.

Lemma pend_fold_get calls f : ∀ o,
  JsMap.get f (default [] (fold_left pend_step calls o))
  = match last_recorded f calls with
    | Some x => Some x
    | None => JsMap.get f (default [] o)
    end.
Proof.
  induction calls as [|c rest IH]; intros o; [done|].
  cbn [fold_left last_recorded]. rewrite IH.
  destruct (last_recorded f rest); [done|]. unfold pend_step.
  destruct (recorded c) as [[f' x]|]; [|done]. csimpl.
  rewrite JsMap_get_set. by destruct (decide (f' = f)).
Qed.
(** *** The callbacks under way *)

Lemma detach_room room files fl : fl_room (detach room files fl) = fl_room fl.
Proof.
  unfold detach. destruct (bool_decide _); [|done]. by destruct (fl_files fl).
Qed.

Lemma drop_buffer_rooms room d :
  fl_room <$> flushes (drop_buffer room d) = fl_room <$> flushes d.
Proof.
  unfold drop_buffer. cbn [flushes].
  destruct (pendingSaves d !! room) as [files|]; [|done].
  rewrite <- list_fmap_compose. apply list_fmap_ext. intros i fl _.
  apply detach_room.
Qed.

Lemma timer_callback_rooms room d :
  fl_room <$> flushes (timer_callback accepts room d).1
  = fl_room <$> flushes d.
Proof.
  rewrite timer_callback_whole. unfold whole_flush.
  destruct (pendingSaves d !! room) as [files|]; [|done].
  destruct (0 <? JsMap.size files)%nat; [|done].
  destruct (save_files accepts room files) as [ops [|]]; [|done].
  apply drop_buffer_rooms.
Qed.

Lemma fire_rooms due : ∀ d,
  fl_room <$> flushes (fire accepts due d).1 = fl_room <$> flushes d.
Proof.
  induction due as [|tm due IH]; intros d; [done|]. cbn [fire].
  pose proof (timer_callback_rooms (tm_room tm) d) as Hc.
  destruct (timer_callback accepts (tm_room tm) d) as [d1 fx1].
  specialize (IH d1). destruct (fire accepts due d1) as [d2 fx2].
  cbn [fst] in *. congruence.
Qed.

Lemma advance_rooms now d :
  fl_room <$> flushes (advance accepts now d).1.1 = fl_room <$> flushes d.
Proof.
  unfold advance.
  pose proof (fire_rooms (filter (is_due now) (loop_timers d))
    {| saveTimers := saveTimers d; pendingSaves := pendingSaves d;
       loop_timers := filter (λ tm, ¬ is_due now tm) (loop_timers d);
       next_handle := next_handle d; clock := Z.max (clock d) now;
       flushes := flushes d |}) as Hf.
  by destruct (fire _ _ _).
Qed.

Lemma record_all_rooms calls : ∀ d,
  fl_room <$> flushes (record_all accepts R calls d).1.1
  = fl_room <$> flushes d.
Proof.
  induction calls as [|c calls IH]; intros d; [done|]. cbn [record_all].
  pose proof (advance_rooms (ch_at c) d) as Ha.
  destruct (advance accepts (ch_at c) d) as [[d1 fired1] fx1].
  specialize (IH (debouncedSave R (ch_file c) (ch_content c) d1)).
  destruct (record_all accepts R calls _) as [[d3 fired3] fx3].
  cbn [fst] in *. by rewrite IH.
Qed.

Lemma idle_rooms room d d' :
  fl_room <$> flushes d' = fl_room <$> flushes d →
  idle room d → idle room d'.
Proof.
  unfold idle. intros Heq Hd.
  apply (Forall_fmap fl_room (λ r, r ≠ room)).
  rewrite Heq. by apply Forall_fmap.
Qed.

End debounce_facts.

(** *** One timer per room *)

Lemma filter_filter_length {A} (P Q : A → Prop)
    `{∀ x, Decision (P x)} `{∀ x, Decision (Q x)} (l : list A) :
  (length (filter P (filter Q l)) ≤ length (filter P l))%nat.
Proof.
  induction l as [|a l IH]; [done|].
  rewrite (filter_cons Q), (filter_cons P).
  destruct (decide (Q a)), (decide (P a)); rewrite ?filter_cons;
    rewrite ?decide_True by done; rewrite ?decide_False by done;
    simpl; lia.
Qed.

Lemma tracked_empty : Debounce.tracked Debounce.empty.
Proof. split; [intros tm H; inversion H | intros r; simpl; lia]. Qed.

Lemma tracked_debouncedSave roomId fileId content d :
  Debounce.tracked d →
  Debounce.tracked (Debounce.debouncedSave roomId fileId content d).
Proof.
  intros [Hnamed Hone].
  set (q := match Debounce.saveTimers d !! roomId with
            | Some h => Debounce.clearTimeout h (Debounce.loop_timers d)
            | None => Debounce.loop_timers d
            end).
  assert (∀ tm, tm ∈ q → tm ∈ Debounce.loop_timers d
                         ∧ Debounce.tm_room tm ≠ roomId) as Hq.
  { intros tm Hin. unfold q in Hin.
    destruct (Debounce.saveTimers d !! roomId) as [h|] eqn:Hs.
    - apply list_elem_of_filter in Hin as [Hne Hin]. split; [done|].
      intros Hr. specialize (Hnamed tm Hin). rewrite Hr, Hs in Hnamed.
      congruence.
    - split; [done|]. intros Hr. specialize (Hnamed tm Hin).
      rewrite Hr, Hs in Hnamed. congruence. }
  assert (∀ r, (length (filter (λ tm, Debounce.tm_room tm = r) q)
                ≤ length (Debounce.armed r d))%nat) as Hlen.
  { intros r. unfold q, Debounce.armed, Debounce.clearTimeout.
    destruct (Debounce.saveTimers d !! roomId); [|done].
    apply filter_filter_length. }
  unfold Debounce.debouncedSave. fold q. split.
  - cbn [Debounce.loop_timers Debounce.saveTimers].
    intros tm [Hin|Hin%list_elem_of_singleton]%elem_of_app.
    + destruct (Hq tm Hin) as [Hin' Hne].
      rewrite lookup_insert_ne by done. by apply Hnamed.
    + subst tm. cbn [Debounce.tm_room Debounce.tm_handle]. apply lookup_insert_eq.
  - intros r. unfold Debounce.armed. cbn [Debounce.loop_timers].
    rewrite filter_app, length_app, filter_cons. cbn [Debounce.tm_room].
    destruct (decide (roomId = r)) as [<-|Hne].
    + rewrite (filter_none (λ tm, Debounce.tm_room tm = roomId) q).
      * simpl. lia.
      * apply Forall_forall. intros tm Hin. by apply Hq.
    + specialize (Hlen r). specialize (Hone r). simpl. lia.
Qed.

Lemma fire_saveTimers_other accepts due : ∀ d r,
  Forall (λ tm, Debounce.tm_room tm ≠ r) due →
  Debounce.saveTimers (Debounce.fire accepts due d).1 !! r
  = Debounce.saveTimers d !! r.
Proof.
  intros d r Hall. by destruct (fire_other accepts r due d Hall) as (-> & _).
Qed.

Lemma tracked_advance accepts now d :
  Debounce.tracked d → Debounce.tracked (Debounce.advance accepts now d).1.1.
Proof.
  intros [Hnamed Hone]. unfold Debounce.advance.
  set (due := filter (Debounce.is_due now) (Debounce.loop_timers d)).
  set (later := filter (λ tm, ¬ Debounce.is_due now tm) (Debounce.loop_timers d)).
  set (d0 := {| Debounce.saveTimers := Debounce.saveTimers d;
                Debounce.pendingSaves := Debounce.pendingSaves d;
                Debounce.loop_timers := later;
                Debounce.next_handle := Debounce.next_handle d;
                Debounce.clock := Z.max (Debounce.clock d) now;
                Debounce.flushes := Debounce.flushes d |}).
  pose proof (fire_frame accepts due d0) as (Hl & _ & _).
  assert (∀ tm, tm ∈ later →
                Forall (λ tm', Debounce.tm_room tm' ≠ Debounce.tm_room tm) due)
    as Hsep.
  { intros tm [Hnd Hin]%list_elem_of_filter. apply Forall_forall.
    intros tm' [Hd Hin']%list_elem_of_filter Hr.
    assert (tm ∈ Debounce.armed (Debounce.tm_room tm) d) as H1
      by (by apply list_elem_of_filter).
    assert (tm' ∈ Debounce.armed (Debounce.tm_room tm) d) as H2
      by (by apply list_elem_of_filter).
    specialize (Hone (Debounce.tm_room tm)).
    destruct (Debounce.armed (Debounce.tm_room tm) d) as [|a [|b l]];
      [inversion H1| |simpl in Hone; lia].
    apply list_elem_of_singleton in H1, H2. subst a. subst tm'. done. }
  pose proof (λ r, fire_saveTimers_other accepts due d0 r) as Hs.
  destruct (Debounce.fire accepts due d0) as [d1 fx]. cbn [fst snd] in *.
  split.
  - intros tm Hin. rewrite Hl in Hin. cbn [Debounce.loop_timers d0] in Hin.
    rewrite Hs by (by apply Hsep). cbn [Debounce.saveTimers d0].
    apply Hnamed. by apply list_elem_of_filter in Hin as [_ Hin].
  - intros r. unfold Debounce.armed. rewrite Hl.
    cbn [Debounce.loop_timers d0]. etrans; [apply filter_filter_length|].
    apply Hone.
Qed.

Lemma tracked_record_all accepts roomId calls : ∀ d,
  Debounce.tracked d →
  Debounce.tracked (Debounce.record_all accepts roomId calls d).1.1.
Proof.
  induction calls as [|c rest IH]; intros d Ht; [done|].
  cbn [Debounce.record_all].
  pose proof (tracked_advance accepts (Debounce.ch_at c) d Ht) as Ha.
  destruct (Debounce.advance accepts (Debounce.ch_at c) d) as [[d1 fired1] fx1].
  cbn [fst] in Ha.
  pose proof (tracked_debouncedSave roomId (Debounce.ch_file c)
                (Debounce.ch_content c) d1 Ha) as Hd.
  specialize (IH _ Hd).
  destruct (Debounce.record_all accepts roomId rest _) as [[d3 fired3] fx3].
  exact IH.
Qed.

(** Coalescing, for a burst that meets no callback of the room under way.
    A room with nothing pending (no timer, no buffer, no callback that
    awaits the store) receives a burst of one or more changes, each
    arriving before the timer armed by the previous one expires; the store
    takes every update, and answers the final flush before anything else
    happens.  Then: once the burst is recorded exactly one timer is armed
    for the room and nothing has been written yet; when the loop has run
    past the last deadline exactly one timer of the room has fired, and what
    it wrote is one update per touched file, carrying the content of the
    latest change recorded for that file; afterwards nothing is pending for
    the room. *)
Lemma debounce_coalesces (accepts : store_op → bool) (R : string)
    (c0 : Debounce.change) (rest : list Debounce.change) (t_end : Z)
    (d : Debounce.t) :
  (∀ op, accepts op = true) →
  Debounce.tracked d →
  Debounce.quiet R d →
  Debounce.clock d ≤ Debounce.ch_at c0 →
  Debounce.within_window (Debounce.ch_at c0) rest →
  Debounce.last_at c0 rest + Debounce.delay ≤ t_end →
  let calls := c0 :: rest in
  let rec := Debounce.record_all accepts R calls d in
  let r := Debounce.burst accepts R calls t_end d in
  length (Debounce.armed R rec.1.1) = 1%nat
  ∧ filter (Debounce.about R) rec.2 = []
  ∧ length (filter (λ tm, Debounce.tm_room tm = R) r.1.2) = 1%nat
  ∧ (∃ files,
       filter (Debounce.about R) r.2 = Debounce.flush_effects R files
       ∧ NoDup (JsMap.keys files)
       ∧ ∀ f x, (f, x) ∈ files ↔ Debounce.last_recorded f calls = Some x)
  ∧ Debounce.quiet R r.1.1
  ∧ ∀ room, (length (Debounce.armed room rec.1.1) ≤ 1)%nat.
Proof.
  intros Hok Htracked (Harm & Hs & Hp & Hidle) Hclock Hwin Hend calls rec r.
  assert (∀ room, (length (Debounce.armed room rec.1.1) ≤ 1)%nat) as Hall
    by (by apply tracked_record_all).
  match goal with
  | |- ?A ∧ ?B ∧ ?C ∧ ?D ∧ ?E ∧ _ =>
      cut (A ∧ B ∧ C ∧ D ∧ E);
      [intros (? & ? & ? & ? & ?); split_and!; done|]
  end.
  clear Hall. subst calls rec r. unfold Debounce.burst. cbn [Debounce.record_all].
  (* the first change *)
  assert (Forall (λ tm, ¬ Debounce.is_due (Debounce.ch_at c0) tm)
            (Debounce.armed R d)) as Hnot by (rewrite Harm; constructor).
  pose proof (advance_idle accepts R (Debounce.ch_at c0) d Hnot) as Ha.
  pose proof (advance_rooms accepts (Debounce.ch_at c0) d) as Hr1.
  destruct (Debounce.advance accepts (Debounce.ch_at c0) d) as [[d1 fired1] fx1].
  simpl in Ha. destruct Ha as (Ha1 & Hs1 & Hp1 & Hc1 & Hn1 & Hfired1 & Hfx1).
  cbn [fst] in Hr1.
  assert ((Debounce.armed R d1 = [] ∧ Debounce.saveTimers d1 !! R = None)
          ∨ (∃ tm, Debounce.armed R d1 = [tm]
                   ∧ Debounce.saveTimers d1 !! R = Some (Debounce.tm_handle tm)))
    as Hst by (left; split; congruence).
  pose proof (debouncedSave_armed R (Debounce.ch_file c0)
                (Debounce.ch_content c0) d1 Hst) as Hd.
  pose proof (debouncedSave_pending R c0 d1) as Hp2.
  cbv zeta in Hd. destruct Hd as (Ha2 & Hs2 & Hc2).
  set (d2 := Debounce.debouncedSave R (Debounce.ch_file c0)
               (Debounce.ch_content c0) d1) in *.
  assert (Debounce.clock d2 = Debounce.ch_at c0) as Hclock2 by lia.
  assert (Debounce.clock d1 + Debounce.delay
          = Debounce.ch_at c0 + Debounce.delay) as Hdue2 by lia.
  (* the rest of the burst *)
  pose proof (record_all_window accepts R rest d2 _ c0 Ha2 Hs2 Hdue2 Hclock2 Hwin)
    as Hr.
  pose proof (record_all_rooms accepts R rest d2) as Hr3.
  destruct (Debounce.record_all accepts R rest d2) as [[d3 fired3] fx3].
  cbv zeta in Hr; cbn [fst snd] in Hr, Hr3.
  destruct Hr as ((tm & Ha3 & Hs3 & Hdue3) & Hp3 & Hfired3 & Hfx3).
  (* the loop runs past the deadline *)
  assert (Debounce.is_due t_end tm) as Hdue by (unfold Debounce.is_due; lia).
  pose proof (advance_due accepts R t_end d3 tm Hok Ha3 Hdue) as Hf.
  pose proof (advance_rooms accepts t_end d3) as Hr4.
  destruct (Debounce.advance accepts t_end d3) as [[d4 fired4] fx4].
  simpl in Hf. destruct Hf as (Ha4 & Hs4 & Hp4 & Hfired4 & Hfx4).
  cbn [fst] in Hr4.
  set (buf := fold_left Debounce.pend_step rest
                (Debounce.pend_step None c0)) in *.
  assert (Debounce.pendingSaves d3 !! R = buf) as Hbuf
    by (unfold buf; rewrite Hp3, Hp2, Hp1, Hp; done).
  assert (buf ≠ Some []) as Hnil.
  { apply (pend_fold_not_nil rest). unfold Debounce.pend_step.
    destruct (Debounce.recorded c0) as [[f x]|]; csimpl; done. }
  assert (NoDup (JsMap.keys (default [] buf))) as Hnd.
  { apply (pend_fold_nodup rest). unfold Debounce.pend_step.
    destruct (Debounce.recorded c0) as [[f x]|]; csimpl;
      repeat constructor. inversion 1. }
  cbn [fst snd].
  rewrite !filter_app, Hfired1, Hfired3, Hfired4, Hfx1, Hfx3, Hfx4, Ha3.
  split_and!; try done.
  - exists (default [] buf). rewrite Hbuf. split_and!; [done..|].
    intros f x.
    assert (JsMap.get f (default [] buf) = Debounce.last_recorded f (c0 :: rest))
      as Hget.
    { change (default [] buf)
        with (default [] (fold_left Debounce.pend_step (c0 :: rest) None)).
      rewrite pend_fold_get. by destruct (Debounce.last_recorded _ _). }
    rewrite <- Hget. split; [by apply JsMap_elem_get | apply JsMap_get_Some_elem].
  - unfold Debounce.quiet. rewrite Hp4, Hbuf.
    split_and!; [done|done|by destruct buf as [[|]|]|].
    apply (idle_rooms R d); [|done]. rewrite Hr4, Hr3. exact Hr1.
Qed.

(** The scenario of the specification: "a" then "ab" for file "f1" within
    200ms, a 2000ms window; one write, of "ab". *)
Lemma debounce_coalesces_example :
  let calls := [{| Debounce.ch_at := 0; Debounce.ch_file := Some "f1";
                   Debounce.ch_content := Some "a" |};
                {| Debounce.ch_at := 150; Debounce.ch_file := Some "f1";
                   Debounce.ch_content := Some "ab" |}] in
  filter (Debounce.about "ABC123")
    (Debounce.burst (λ _, true) "ABC123" calls 2150 Debounce.empty).2
  = [Debounce.Store (SetFileContent "ABC123" "f1" "ab");
     Debounce.LogSaved "ABC123" 1]
  ∧ length (filter (λ tm, Debounce.tm_room tm = "ABC123")
              (Debounce.burst (λ _, true) "ABC123" calls 2150 Debounce.empty).1.2)
    = 1%nat.
Proof.
  intros calls.
  pose proof (debounce_coalesces (λ _, true) "ABC123"
                {| Debounce.ch_at := 0; Debounce.ch_file := Some "f1";
                   Debounce.ch_content := Some "a" |}
                [{| Debounce.ch_at := 150; Debounce.ch_file := Some "f1";
                    Debounce.ch_content := Some "ab" |}] 2150 Debounce.empty
                (λ _, eq_refl) tracked_empty
                (conj eq_refl (conj eq_refl (conj eq_refl (Forall_nil_2 _))))
                ltac:(simpl; lia)
                ltac:(simpl; unfold Debounce.delay; lia)
                ltac:(unfold Debounce.last_at, Debounce.delay; simpl; lia))
    as (_ & _ & Hone & _ & _).
  split; [vm_compute; reflexivity | exact Hone].
Defined.

(** C2 — coalescing breaks when a change arrives while the room's timer
    callback awaits the store.  "a" is recorded for file "f1" of room "R"
    and the timer fires after 2000ms: the update of "f1" is issued and
    awaited.  Meanwhile "ab" arrives: it goes into the Map the callback
    iterates and arms a timer.  The store answers; the callback deletes the
    buffer, "ab" with it, and the timer handle, of a timer that is armed.
    All the store was asked to write is "a".  When the timer of "ab" fires
    there is nothing to write, so the latest content is never written; and a
    change that arrives before it fires cancels nothing, which leaves two
    timers armed for the room. *)
Theorem change_during_flush_is_lost :
  let inputs := [Connect "a" None; Recv "a" (JoinRoom "R" None);
                 Resume "a" "R" (DbOk JNull None);
                 Recv "a" (CodeChange (Some "f1") (Some "a") JNull);
                 Elapse 2000;
                 Recv "a" (CodeChange (Some "f1") (Some "ab") JNull);
                 Saved 0 true] in
  let st := (run init inputs).1 in
  let late := step st (Elapse 4000) in
  let next := step st (Recv "a" (CodeChange (Some "f1") (Some "abc") JNull)) in
  written (run init inputs).2 = [SetFileContent "R" "f1" "a"]
  ∧ Debounce.pendingSaves (saves st) !! "R" = None
  ∧ Debounce.saveTimers (saves st) !! "R" = None
  ∧ Debounce.tm_handle <$> Debounce.armed "R" (saves st) = [1%nat]
  ∧ Debounce.flushes (saves st) = []
  ∧ late.2 = []
  ∧ Debounce.loop_timers (saves late.1) = []
  ∧ Debounce.pendingSaves (saves late.1) = ∅
  ∧ Debounce.tm_handle <$> Debounce.armed "R" (saves next.1) = [1%nat; 2%nat].
Proof. split_and!; vm_compute; reflexivity. Qed.

(** ** A failing store update *)





(** ** Leaving a room *)

(** After the leave procedure the connection has no current room. *)
Lemma leave_clears_room st socketId :
  match sockets (handleLeaveRoom socketId st).1 !! socketId with
  | Some sk => room_of (sk_roomId sk) = None
  | None => True
  end.
Proof.
  unfold handleLeaveRoom.
  destruct (sockets st !! socketId) as [sk|] eqn:Hsk; cbn [fst].
  - destruct (room_of (sk_roomId sk)) as [roomId|] eqn:Hroom; cbn [fst].
    + destruct (roomUsers st !! roomId) as [users|].
      * destruct (bool_decide _); [destruct (JsMap.keys _)|];
          destruct (_ =? _)%nat; cbn [fst sockets set_socket];
          by rewrite lookup_insert_eq.
      * cbn [fst sockets set_socket]. by rewrite lookup_insert_eq.
    + by rewrite Hsk.
  - by rewrite Hsk.
Qed.

(** C7 — the leave procedure is idempotent.  Whatever the first call did, a
    second call for the same connection changes nothing and emits nothing
    (no second user-left, no second host-changed), and the same holds for
    any connection that has no current room; so a second leave-room event
    right after the first is a no-op as well. *)
Theorem leave_idempotent (st : state) (socketId : string) :
  (let r := handleLeaveRoom socketId st in
   handleLeaveRoom socketId r.1 = (r.1, []))
  ∧ (match sockets st !! socketId with
     | Some sk =>
         room_of (sk_roomId sk) = None → handleLeaveRoom socketId st = (st, [])
     | None => handleLeaveRoom socketId st = (st, [])
     end)
  ∧ (let r := step st (Recv socketId LeaveRoom) in
     step r.1 (Recv socketId LeaveRoom) = (r.1, [])).
Proof.
  assert (∀ st', match sockets st' !! socketId with
                 | Some sk => room_of (sk_roomId sk) = None
                 | None => True
                 end → handleLeaveRoom socketId st' = (st', [])) as Hnoop.
  { intros st' H. unfold handleLeaveRoom.
    destruct (sockets st' !! socketId) as [sk|]; [|done]. by rewrite H. }
  split_and!.
  - cbv zeta. apply Hnoop, leave_clears_room.
  - destruct (sockets st !! socketId) as [sk|] eqn:Hsk.
    + intros H. apply Hnoop. by rewrite Hsk.
    + apply Hnoop. by rewrite Hsk.
  - cbn [step]. destruct (io_socket st socketId) as [sk|] eqn:Hio.
    + cbn [handle].
      destruct (io_socket (handleLeaveRoom socketId st).1 socketId); [|done].
      apply Hnoop, leave_clears_room.
    + cbn [fst]. by rewrite Hio.
Qed.

Lemma leave_idempotent_witness :
  let st := (run init [Connect "a" None; Recv "a" (JoinRoom "ABC123" None);
                       Recv "a" LeaveRoom]).1 in
  handleLeaveRoom "a" st = (st, []).
Proof.
  intros st.
  pose proof (proj1 (proj2 (leave_idempotent st "a"))) as H.
  vm_compute in H. vm_compute. exact (H eq_refl).
Defined.

(** ** Host authority *)

Lemma isHost_room socketId sk st :
  isHost socketId sk st = true →
  ∃ roomId, room_of (sk_roomId sk) = Some roomId
            ∧ roomHosts st !! roomId = Some socketId.
Proof.
  unfold isHost. destruct (room_of (sk_roomId sk)) as [roomId|]; [|done].
  intros H%bool_decide_eq_true. eauto.
Qed.

Lemma host_only_host socketId sk message k st roomId :
  room_of (sk_roomId sk) = Some roomId →
  roomHosts st !! roomId = Some socketId →
  host_only socketId sk message k st = k roomId st.
Proof.
  intros Hroom Hhost. unfold host_only, isHost. rewrite Hroom.
  by rewrite bool_decide_eq_true_2.
Qed.

(** C10 — host-transfer to a connection that is not a member of the room.
    The requester is the host of its current room and the target is not in
    that room's membership: the event changes nothing, broadcasts nothing
    and reports nothing to the requester. *)
Theorem host_transfer_absent_target (st : state) (socketId : string)
    (sk : socket) (targetSocketId : string) :
  io_socket st socketId = Some sk →
  isHost socketId sk st = true →
  (∀ roomId users,
     room_of (sk_roomId sk) = Some roomId →
     roomUsers st !! roomId = Some users →
     targetSocketId ∉ JsMap.keys users) →
  step st (Recv socketId (HostTransfer targetSocketId)) = (st, []).
Proof.
  intros Hsk Hhost Habsent. cbn [step]. rewrite Hsk. cbn [handle].
  destruct (isHost_room _ _ _ Hhost) as (roomId & Hroom & Hh).
  unfold on_host_transfer. rewrite (host_only_host _ _ _ _ _ roomId) by done.
  destruct (roomUsers st !! roomId) as [users|] eqn:Hu; [|done].
  destruct (JsMap.has targetSocketId users) eqn:Hhas; [|done].
  apply JsMap_has_keys in Hhas. by destruct (Habsent roomId users).
Qed.

Lemma host_transfer_absent_target_witness :
  let st := (run init [Connect "h" None; Recv "h" (JoinRoom "ABC123" None);
                       Resume "h" "ABC123" (DbOk JNull None);
                       Connect "x" None]).1 in
  step st (Recv "h" (HostTransfer "x")) = (st, []).
Proof.
  intros st.
  destruct (io_socket st "h") as [sk|] eqn:Hsk; [|by vm_compute in Hsk].
  apply (host_transfer_absent_target st "h" sk "x" Hsk).
  - vm_compute in Hsk. by injection Hsk as <-.
  - intros roomId users Hroom Hu. vm_compute in Hsk. injection Hsk as <-.
    vm_compute in Hroom. injection Hroom as <-.
    vm_compute in Hu. injection Hu as <-.
    vm_compute. intros H.
    repeat (inversion H as [|? ? ? H']; clear H; rename H' into H).
Defined.

(** C4 — host reclaim.  A connection starts joining a room; the join is
    then pending, and whatever state the server is in when the lookups
    return (whoever is host by then), if the Room document names the
    connection's account as its host, the connection is the room's host once
    the handler has run. *)
Theorem owner_reclaims_host (st : state) (socketId : string) (sk : socket)
    (roomId : string) (displayName : option string) :
  io_socket st socketId = Some sk →
  let st1 := (step st (Recv socketId (JoinRoom roomId displayName))).1 in
  (socketId, roomId) ∈ joining st1
  ∧ ∀ (st2 : state) (sk2 : socket) (roomState : jsval),
      (socketId, roomId) ∈ joining st2 →
      sockets st2 !! socketId = Some sk2 →
      roomHosts
        (step st2 (Resume socketId roomId
                     (DbOk roomState (Some (Some (u_id (sk_user sk2))))))).1
      !! roomId = Some socketId.
Proof.
  intros Hsk st1. split.
  - subst st1. cbn [step]. rewrite Hsk. cbn [handle fst joinRoom_begin].
    unfold joinRoom_begin. cbn [joining set_joining].
    apply elem_of_app. right. apply list_elem_of_here.
  - intros st2 sk2 roomState Hpending Hsk2. cbn [step].
    rewrite bool_decide_eq_true_2 by done.
    unfold on_sk. cbn [sockets set_joining]. rewrite Hsk2.
    unfold joinRoom_resume. rewrite bool_decide_eq_true_2 by done.
    cbn [roomUsers roomSettings set_joining].
    destruct (roomUsers st2 !! roomId), (roomSettings st2 !! roomId);
      cbn [fst roomHosts set_rooms]; apply lookup_insert_eq.
Qed.

Lemma owner_reclaims_host_witness :
  let st := (run init [Connect "b" None; Recv "b" (JoinRoom "ABC123" None);
                       Resume "b" "ABC123" (DbOk JNull (Some (Some "u1")));
                       Connect "a" (Some ("u1", "alice"));
                       Recv "a" (JoinRoom "ABC123" None)]).1 in
  roomHosts st !! "ABC123" = Some "b"
  ∧ roomHosts (step st (Resume "a" "ABC123" (DbOk JNull (Some (Some "u1"))))).1
    !! "ABC123" = Some "a".
Proof.
  intros st. split; [vm_compute; reflexivity|].
  set (st0 := (run init [Connect "b" None; Recv "b" (JoinRoom "ABC123" None);
                         Resume "b" "ABC123" (DbOk JNull (Some (Some "u1")));
                         Connect "a" (Some ("u1", "alice"))]).1).
  destruct (io_socket st0 "a") as [sk|] eqn:Hsk; [|by vm_compute in Hsk].
  destruct (sockets st !! "a") as [sk2|] eqn:Hsk2; [|by vm_compute in Hsk2].
  pose proof (proj2 (owner_reclaims_host st0 "a" sk "ABC123" None Hsk)
                st sk2 JNull) as H.
  assert (u_id (sk_user sk2) = "u1") as Hid
    by (vm_compute in Hsk2; by injection Hsk2 as <-).
  rewrite Hid in H. apply H; [|done].
  vm_compute. apply list_elem_of_here.
Defined.

(** Automatic promotion, for a host whose current room is the room.  The
    host of a room, with at least one other member in it, disconnects: the
    first key of the remaining membership, a member other than the one that
    left, becomes the host, and host-changed naming it is emitted to the
    whole room, before user-left goes to the others. *)
Lemma host_disconnect_promotes (st : state) (socketId : string) (sk : socket)
    (roomId other : string) (users : list (string * member)) :
  io_socket st socketId = Some sk →
  room_of (sk_roomId sk) = Some roomId →
  roomHosts st !! roomId = Some socketId →
  roomUsers st !! roomId = Some users →
  other ∈ JsMap.keys users → other ≠ socketId →
  let r := step st (Disconnect socketId) in
  ∃ newHostId rest,
    JsMap.keys (JsMap.delete socketId users) = newHostId :: rest
    ∧ newHostId ≠ socketId
    ∧ newHostId ∈ JsMap.keys users
    ∧ roomHosts r.1 !! roomId = Some newHostId
    ∧ roomUsers r.1 !! roomId = Some (JsMap.delete socketId users)
    ∧ r.2 = [Emit (Room roomId) (MHostChanged newHostId);
             Emit (RoomExcept roomId socketId)
               (MUserLeft (u_id (sk_user sk)) (u_username (sk_user sk))
                  socketId (JsMap.values (JsMap.delete socketId users))
                  (Some newHostId))].
Proof.
  intros Hsk Hroom Hhost Husers Hother Hne r.
  assert (other ∈ JsMap.keys (JsMap.delete socketId users)) as Hin
    by (by apply JsMap_elem_of_keys_delete).
  destruct (JsMap.keys (JsMap.delete socketId users))
    as [|newHostId rest] eqn:Hkeys; [inversion Hin|].
  assert (newHostId ≠ socketId ∧ newHostId ∈ JsMap.keys users) as [Hn Hm].
  { apply JsMap_elem_of_keys_delete. rewrite Hkeys. apply list_elem_of_here. }
  exists newHostId, rest. split_and!; [done..| | |]; subst r; cbn [step];
    rewrite Hsk; unfold disconnect, handleLeaveRoom;
    cbn [sockets set_socket roomUsers roomHosts roomSettings sk_roomId sk_user];
    rewrite lookup_insert_eq; cbn [sk_roomId sk_user]; rewrite Hroom, Husers;
    rewrite bool_decide_eq_true_2 by done; rewrite Hkeys;
    (replace (JsMap.size (JsMap.delete socketId users) =? 0)%nat with false
      by (symmetry; apply Nat.eqb_neq; unfold JsMap.size, JsMap.keys in *;
          intros Hz; apply length_zero_iff_nil in Hz; by rewrite Hz in Hkeys));
    cbn [fst snd roomHosts roomUsers set_rooms set_socket];
    rewrite ?lookup_insert_eq; done.
Qed.

(** The scenario of the specification: A (the owner) and B are in "ABC123";
    A disconnects; B becomes host. *)
Lemma host_disconnect_promotes_example :
  let st := (run init [Connect "A" (Some ("u1", "alice")); Connect "B" None;
                       Recv "A" (JoinRoom "ABC123" None);
                       Resume "A" "ABC123" (DbOk JNull (Some (Some "u1")));
                       Recv "B" (JoinRoom "ABC123" None);
                       Resume "B" "ABC123" (DbOk JNull (Some (Some "u1")))]).1 in
  roomHosts st !! "ABC123" = Some "A"
  ∧ roomHosts (step st (Disconnect "A")).1 !! "ABC123" = Some "B"
  ∧ Emit (Room "ABC123") (MHostChanged "B") ∈ (step st (Disconnect "A")).2.
Proof.
  intros st.
  destruct (io_socket st "A") as [sk|] eqn:Hsk; [|by vm_compute in Hsk].
  destruct (roomUsers st !! "ABC123") as [users|] eqn:Hu; [|by vm_compute in Hu].
  assert (room_of (sk_roomId sk) = Some "ABC123") as Hroom
    by (vm_compute in Hsk; by injection Hsk as <-).
  assert ("B" ∈ JsMap.keys users) as Hin.
  { vm_compute in Hu. injection Hu as <-. vm_compute.
    apply list_elem_of_further, list_elem_of_here. }
  destruct (host_disconnect_promotes st "A" sk "ABC123" "B" users Hsk Hroom
              ltac:(vm_compute; reflexivity) Hu Hin ltac:(done))
    as (newHostId & rest & Hkeys & _ & _ & Hhost & _ & Hfx).
  assert (newHostId = "B") as ->.
  { vm_compute in Hu. injection Hu as <-. vm_compute in Hkeys. congruence. }
  split_and!; [vm_compute; reflexivity | exact Hhost |].
  rewrite Hfx. apply list_elem_of_here.
Defined.

(** C6 — automatic promotion fails for a host whose current room is
    another room.  "c" and "m" are in room "A" with "c" the host; "c" joins
    room "B", which leaves it in the membership of "A" and host of "A"; "c"
    disconnects.  The leave procedure goes by [socket.roomId], which is
    "B": "c" leaves "B", and in "A" nothing happens.  The closed connection
    stays in the membership of "A" and stays its host, "m" is not promoted
    and no host-changed is emitted.  The same happens to the host of the
    room with the empty id, which join-room registers and the guard of the
    leave procedure takes for no room. *)
Theorem host_in_other_room_is_not_replaced :
  let st := (run init [Connect "c" None; Connect "m" None;
                       Recv "c" (JoinRoom "A" None);
                       Resume "c" "A" (DbOk JNull None);
                       Recv "m" (JoinRoom "A" None);
                       Resume "m" "A" (DbOk JNull None);
                       Recv "c" (JoinRoom "B" None);
                       Resume "c" "B" (DbOk JNull None)]).1 in
  let r := step st (Disconnect "c") in
  let st0 := (run init [Connect "c" None; Connect "m" None;
                        Recv "c" (JoinRoom "" None);
                        Resume "c" "" (DbOk JNull None);
                        Recv "m" (JoinRoom "" None);
                        Resume "m" "" (DbOk JNull None)]).1 in
  let r0 := step st0 (Disconnect "c") in
  roomHosts st !! "A" = Some "c"
  ∧ JsMap.keys <$> roomUsers st !! "A" = Some ["c"; "m"]
  ∧ io_socket r.1 "c" = None
  ∧ roomHosts r.1 !! "A" = Some "c"
  ∧ JsMap.keys <$> roomUsers r.1 !! "A" = Some ["c"; "m"]
  ∧ r.2 = [Emit (RoomExcept "B" "c")
             (MUserLeft "guest-c" "Guest-c" "c" [] (Some "c"))]
  ∧ io_socket r0.1 "c" = None
  ∧ roomHosts r0.1 !! "" = Some "c"
  ∧ JsMap.keys <$> roomUsers r0.1 !! "" = Some ["c"; "m"]
  ∧ r0.2 = [].
Proof. split_and!; vm_compute; reflexivity. Qed.

(** ** Chat *)

(** C5, as the code has it — host-toggle-chat is advisory.  When the host
    disables chat, chat-toggled{disabled:true} goes to the whole room and
    the room's setting is set; the chat-message listener does not read the
    setting: a chat message from any connection whose current room is that
    room, host or not, is still broadcast to the whole room and pushed to
    the chat history.  What is refused is a host command from a non-host,
    with host-error to the sender and no change. *)
Theorem chat_toggle_is_advisory (st : state) (hostId : string) (host : socket)
    (roomId : string) :
  io_socket st hostId = Some host →
  isHost hostId host st = true →
  room_of (sk_roomId host) = Some roomId →
  let r := step st (Recv hostId (HostToggleChat true)) in
  r.2 = [Emit (Room roomId) (MChatToggled true (u_username (sk_user host)))]
  ∧ (is_Some (roomSettings st !! roomId) → roomSettings r.1 !! roomId = Some true)
  ∧ (∀ id sk message,
       io_socket r.1 id = Some sk →
       room_of (sk_roomId sk) = Some roomId →
       step r.1 (Recv id (ChatMessage message))
       = (r.1,
          [Emit (Room roomId)
             (MChatMessage (u_id (sk_user sk)) (u_username (sk_user sk)) message);
           Call (PushChat roomId (u_id (sk_user sk)) (u_username (sk_user sk))
                   message 100)]))
  ∧ (∀ id sk disabled,
       io_socket r.1 id = Some sk →
       isHost id sk r.1 = false →
       step r.1 (Recv id (HostToggleChat disabled))
       = (r.1, [Emit (Direct id) (MHostError "Only the host can toggle chat")])).
Proof.
  intros Hsk Hhost Hroom r.
  destruct (isHost_room _ _ _ Hhost) as (roomId' & Hroom' & Hh).
  assert (roomId' = roomId) as -> by congruence.
  assert (r = on_host_toggle_chat hostId host true st) as Hr
    by (subst r; cbn [step]; by rewrite Hsk).
  unfold on_host_toggle_chat in Hr.
  rewrite (host_only_host _ _ _ _ _ roomId) in Hr by done.
  rewrite Hr. cbn [fst snd]. split_and!.
  - done.
  - intros [b Hb]. cbn [roomSettings set_rooms]. rewrite Hb.
    apply lookup_insert_eq.
  - intros id sk message Hid Hr'. cbn [step]. rewrite Hid. cbn [handle].
    unfold on_chat_message, in_room. by rewrite Hr'.
  - intros id sk disabled Hid Hnot. cbn [step]. rewrite Hid. cbn [handle].
    unfold on_host_toggle_chat, host_only. by rewrite Hnot.
Qed.

Lemma chat_toggle_is_advisory_witness :
  let st := (run init [Connect "B" None; Connect "C" None;
                       Recv "B" (JoinRoom "ABC123" None);
                       Resume "B" "ABC123" (DbOk JNull None);
                       Recv "C" (JoinRoom "ABC123" None);
                       Resume "C" "ABC123" (DbOk JNull None)]).1 in
  (step st (Recv "B" (HostToggleChat true))).2
  = [Emit (Room "ABC123") (MChatToggled true "Guest-B")].
Proof.
  intros st.
  destruct (io_socket st "B") as [sk|] eqn:Hsk; [|by vm_compute in Hsk].
  assert (sk_user sk = guest "B" ∧ sk_roomId sk = Some "ABC123") as [Hu Hr]
    by (vm_compute in Hsk; by injection Hsk as <-).
  destruct (chat_toggle_is_advisory st "B" sk "ABC123" Hsk) as (Hfx & _).
  - unfold isHost. rewrite Hr. vm_compute. reflexivity.
  - by rewrite Hr.
  - rewrite Hfx, Hu. reflexivity.
Defined.

(** C5 as stated fails: in the scenario of the specification, with chat
    disabled by the host B, the chat message of the non-host C is broadcast
    to the room and pushed to the chat history. *)
Lemma chat_disabled_counterexample :
  let st := (run init [Connect "B" None; Connect "C" None;
                       Recv "B" (JoinRoom "ABC123" None);
                       Resume "B" "ABC123" (DbOk JNull None);
                       Recv "C" (JoinRoom "ABC123" None);
                       Resume "C" "ABC123" (DbOk JNull None);
                       Recv "B" (HostToggleChat true)]).1 in
  roomSettings st !! "ABC123" = Some true
  ∧ roomHosts st !! "ABC123" = Some "B"
  ∧ (step st (Recv "C" (ChatMessage (JStr "hello")))).2
    = [Emit (Room "ABC123") (MChatMessage "guest-C" "Guest-C" (JStr "hello"));
       Call (PushChat "ABC123" "guest-C" "Guest-C" (JStr "hello") 100)].
Proof. split_and!; vm_compute; reflexivity. Qed.

(** ** The room guard *)

(** C9, as the code has it — events from a connection without a current
    room.  Every event other than join-room, the host commands and a voice
    event that carries a room id of its own is dropped: no change, nothing
    emitted.  A host command changes nothing either but is answered with
    host-error.  voice-join with a room id in the payload is handled for
    that room: the peer is added to its roster unless the peer id is there,
    the sender is sent voice-participants, voice-join goes to the whole room
    and, from the second listener, to the room except the sender.
    voice-leave and voice-mute with a room id in the payload touch no
    roster, their first listeners having no such fallback: voice-leave is
    relayed to the room except the sender and changes the connection's own
    participant set only, voice-mute is relayed to the room except the
    sender and changes nothing. *)
Theorem roomless_events_dropped (st : state) (socketId : string) (sk : socket)
    (ev : client_event) :
  io_socket st socketId = Some sk →
  room_of (sk_roomId sk) = None →
  (dropped_without_room ev = true → step st (Recv socketId ev) = (st, []))
  ∧ (host_command ev = true →
     ∃ message,
       step st (Recv socketId ev)
       = (st, [Emit (Direct socketId) (MHostError message)]))
  ∧ (∀ peerId r,
       ev = VoiceJoin peerId (Some r) → r ≠ "" →
       let res := step st (Recv socketId ev) in
       roster res.1 r
       = (if has_peer peerId (roster st r) then roster st r
          else roster st r
               ++ [{| vp_peerId := peerId; vp_socketId := socketId;
                      vp_isMuted := true;
                      vp_username := u_username (sk_user sk) |}])
       ∧ ∃ rest,
           res.2
           = Emit (Direct socketId)
               (MVoiceParticipants
                  (filter (λ p, vp_peerId p ≠ peerId) (roster st r)))
             :: Emit (Room r)
                  (MVoiceJoin peerId socketId (Some (u_username (sk_user sk))))
             :: Emit (RoomExcept r socketId) (MVoiceJoin peerId socketId None)
             :: rest
           ∧ Forall (λ e, ∃ m, e = Emit (Direct socketId) m) rest)
  ∧ (∀ peerId r,
       ev = VoiceLeave peerId (Some r) → r ≠ "" →
       let res := step st (Recv socketId ev) in
       voiceRooms res.1 = voiceRooms st
       ∧ (∃ vp, res.1 = set_socket socketId (set_voiceParticipants vp sk) st)
       ∧ res.2 = [Emit (RoomExcept r socketId) (MVoiceLeave peerId)])
  ∧ (∀ peerId isMuted r,
       ev = VoiceMute peerId isMuted (Some r) → r ≠ "" →
       step st (Recv socketId ev)
       = (st, [Emit (RoomExcept r socketId)
                 (MVoiceMute (Some peerId) None isMuted false)])).
Proof.
  intros Hsk Hroom.
  assert (sockets st !! socketId = Some sk) as Hheap.
  { unfold io_socket in Hsk. destruct (sockets st !! socketId) as [sk'|]; [|done].
    destruct (sk_connected sk'); congruence. }
  assert (∀ r, first_room (sk_roomId sk) r = room_of r
               ∧ first_room r (sk_roomId sk) = room_of r) as Hfirst.
  { intros r. unfold first_room. rewrite Hroom. by destruct (room_of r). }
  assert (∀ r, r ≠ "" → room_of (Some r) = Some r) as Hpayload.
  { intros r Hr. unfold room_of.
    destruct (String.eqb r "") eqn:E; [|done]. by apply String.eqb_eq in E. }
  split_and!.
  - intros Hev. cbn [step]. rewrite Hsk.
    destruct ev; try discriminate Hev; cbn [handle];
      try apply bool_decide_eq_true in Hev;
      unfold relay, on_code_change, on_intent_update, on_canvas_full_sync_1,
        on_canvas_full_sync_2, on_chat_message, on_cursor_position_2,
        on_request_cursors, on_voice_join_1, on_voice_join_2, on_voice_leave_1,
        on_voice_leave_2, on_voice_mute_1, on_voice_mute_2, both, on_sk, in_room,
        handleLeaveRoom;
      rewrite ?Hheap, ?Hroom, ?(proj1 (Hfirst _)), ?(proj2 (Hfirst _)), ?Hev,
        ?Hheap, ?(proj2 (Hfirst _)), ?Hev; try done.
  - intros Hev. cbn [step]. rewrite Hsk.
    assert (isHost socketId sk st = false) as Hnot
      by (unfold isHost; by rewrite Hroom).
    destruct ev; try discriminate Hev; cbn [handle];
      unfold on_host_kick_user, on_host_mute_user, on_host_transfer,
        on_host_toggle_chat, on_host_end_session, host_only;
      rewrite Hnot; eauto.
  - intros peerId r -> Hr res. subst res. cbn [step]. rewrite Hsk.
    cbn [handle]. unfold both, on_sk, on_voice_join_1.
    rewrite (proj1 (Hfirst _)), (Hpayload r Hr).
    cbn [sockets set_socket set_voiceRooms]. rewrite lookup_insert_eq.
    unfold on_voice_join_2. cbn [sk_roomId set_voicePeerId].
    rewrite (proj2 (Hfirst _)), (Hpayload r Hr).
    cbn [fst snd app]. unfold roster.
    cbn [voiceRooms set_socket set_voiceRooms]. rewrite lookup_insert_eq.
    cbn [default]. split; [done|].
    eexists. split; [reflexivity|].
    destruct (0 <? _)%nat; repeat constructor. eauto.
  - intros peerId r -> Hr res. subst res. cbn [step]. rewrite Hsk.
    cbn [handle]. unfold both, on_sk, on_voice_leave_1, in_room.
    rewrite Hroom, Hheap. unfold on_voice_leave_2.
    rewrite (proj2 (Hfirst _)), (Hpayload r Hr). cbn [fst snd app].
    split_and!; [done| |done]. eauto.
  - intros peerId isMuted r -> Hr. cbn [step]. rewrite Hsk.
    cbn [handle]. unfold both, on_voice_mute_1, on_voice_mute_2, in_room.
    rewrite Hroom, (proj2 (Hfirst _)), (Hpayload r Hr). done.
Qed.

Lemma roomless_events_dropped_witness :
  let st := (run init [Connect "a" None]).1 in
  step st (Recv "a" (ChatMessage (JStr "hi"))) = (st, [])
  ∧ step st (Recv "a" (VoiceJoin "p1" None)) = (st, [])
  ∧ step st (Recv "a" (VoiceMute "p1" true (Some "ABC123")))
    = (st, [Emit (RoomExcept "ABC123" "a")
              (MVoiceMute (Some "p1") None true false)]).
Proof.
  intros st.
  destruct (io_socket st "a") as [sk|] eqn:Hsk; [|by vm_compute in Hsk].
  assert (room_of (sk_roomId sk) = None) as Hroom
    by (vm_compute in Hsk; by injection Hsk as <-).
  split_and!.
  - apply (roomless_events_dropped st "a" sk _ Hsk Hroom). reflexivity.
  - apply (roomless_events_dropped st "a" sk _ Hsk Hroom). reflexivity.
  - by apply (roomless_events_dropped st "a" sk _ Hsk Hroom).
Defined.

(** C9 as stated fails: a connection that is in no room sends voice-join
    with a room id in the payload; the roster of that room is created with
    the peer in it and voice-join is broadcast to the room.  A host command
    from it is answered with an error. *)
Lemma roomless_voice_join_counterexample :
  let st := (run init [Connect "a" None]).1 in
  let r := step st (Recv "a" (VoiceJoin "p1" (Some "ABC123"))) in
  sk_roomId <$> sockets st !! "a" = Some None
  ∧ voiceRooms st !! "ABC123" = None
  ∧ voiceRooms r.1 !! "ABC123"
    = Some [{| vp_peerId := "p1"; vp_socketId := "a"; vp_isMuted := true;
               vp_username := "Guest-a" |}]
  ∧ Emit (Room "ABC123") (MVoiceJoin "p1" "a" (Some "Guest-a")) ∈ r.2
  ∧ step st (Recv "a" (HostToggleChat true))
    = (st, [Emit (Direct "a") (MHostError "Only the host can toggle chat")]).
Proof.
  split_and!; try (vm_compute; reflexivity).
  vm_compute. apply list_elem_of_further, list_elem_of_here.
Qed.

(** ** Invariants of the registries *)

Lemma room_of_Some o r : room_of o = Some r → o = Some r.
Proof.
  destruct o as [s|]; simpl; [|done]. destruct (String.eqb s ""); congruence.
Qed.

Lemma io_socket_heap st socketId sk :
  io_socket st socketId = Some sk → sockets st !! socketId = Some sk.
Proof.
  unfold io_socket. destruct (sockets st !! socketId) as [sk'|]; [|done].
  destruct (sk_connected sk'); congruence.
Qed.

Lemma same_view_refl st : same_view st st.
Proof. by split_and!. Qed.

Lemma same_view_member st st' roomId socketId :
  same_view st st' → is_member st' roomId socketId ↔ is_member st roomId socketId.
Proof.
  intros (Hu & _ & _). specialize (Hu roomId). unfold is_member.
  destruct (roomUsers st' !! roomId) as [u'|], (roomUsers st !! roomId) as [u|];
    try discriminate Hu; [|split; intros (? & [=] & _)].
  injection Hu as Hu. split; intros (? & [= <-] & Hin); eexists; split; eauto;
    congruence.
Qed.

Lemma same_view_host_is_member st st' :
  same_view st st' → host_is_member st → host_is_member st'.
Proof.
  intros Hv Hinv roomId h Hh. apply (same_view_member _ _ _ _ Hv).
  apply Hinv. destruct Hv as (_ & <- & _). done.
Qed.

Lemma same_view_member_in_current_room st st' :
  same_view st st' → member_in_current_room st → member_in_current_room st'.
Proof.
  intros Hv Hinv roomId s Hm. apply (same_view_member _ _ _ _ Hv) in Hm.
  destruct (Hinv _ _ Hm) as (sk & Hsk & Hr). destruct Hv as (_ & _ & Hs).
  specialize (Hs s). rewrite Hsk in Hs.
  destruct (sockets st' !! s) as [sk'|]; [|done].
  injection Hs as Hs. exists sk'. split; congruence.
Qed.

Lemma same_view_set_socket st socketId sk sk' :
  sockets st !! socketId = Some sk → sk_roomId sk' = sk_roomId sk →
  same_view st (set_socket socketId sk' st).
Proof.
  intros Hsk Hr. split_and!; [done..|]. intros s. cbn [sockets set_socket].
  destruct (decide (socketId = s)) as [<-|Hne].
  - rewrite lookup_insert_eq, Hsk. simpl. congruence.
  - by rewrite lookup_insert_ne.
Qed.

Lemma JsMap_get_Some_keys {V} (m : list (string * V)) k v :
  JsMap.get k m = Some v → k ∈ JsMap.keys m.
Proof.
  intros H%JsMap_get_Some_elem. unfold JsMap.keys.
  apply list_elem_of_fmap. by exists (k, v).
Qed.

Lemma same_view_sockets st st' :
  roomUsers st' = roomUsers st → roomHosts st' = roomHosts st →
  (∀ s, sk_roomId <$> sockets st' !! s = sk_roomId <$> sockets st !! s) →
  same_view st st'.
Proof. intros Hu Hh Hs. split_and!; [intros; by rewrite Hu | done | done]. Qed.

Lemma heap_set_socket st socketId sk sk' s :
  sockets st !! socketId = Some sk → sk_roomId sk' = sk_roomId sk →
  sk_roomId <$> <[socketId := sk']> (sockets st) !! s
  = sk_roomId <$> sockets st !! s.
Proof.
  intros Hsk Hr. destruct (decide (socketId = s)) as [<-|Hne].
  - rewrite lookup_insert_eq, Hsk. simpl. congruence.
  - by rewrite lookup_insert_ne.
Qed.

(** The listeners of a room-neutral event leave the view as it is. *)
Lemma handle_neutral st socketId sk ev :
  sockets st !! socketId = Some sk → room_neutral ev = true →
  same_view st (handle socketId sk ev st).1.
Proof.
  intros Hsk Hev.
  destruct ev; try discriminate Hev; cbn [handle];
    unfold relay, on_code_change, on_canvas_full_sync_1, on_canvas_full_sync_2,
      on_chat_message, on_cursor_position_2, on_request_cursors, both, in_room;
    try (destruct (room_of (sk_roomId sk)) as [roomId|]; cbn [fst];
         apply same_view_sockets; done).
  - (* intent-update *)
    unfold on_intent_update, in_room.
    destruct (room_of (sk_roomId sk)) as [roomId|]; [|apply same_view_refl].
    cbn [fst]. split_and!; [|done..]. intros r. cbn [roomUsers set_rooms].
    destruct (roomUsers st !! roomId) as [users|] eqn:Hu; [|done].
    destruct (JsMap.get socketId users) as [info|] eqn:Hg; [|done].
    destruct (decide (roomId = r)) as [<-|Hne].
    + rewrite lookup_insert_eq, Hu. simpl. f_equal. rewrite JsMap_keys_set.
      rewrite decide_True; [done|]. by eapply JsMap_get_Some_keys.
    + by rewrite lookup_insert_ne.
  - (* voice-join *)
    unfold on_voice_join_1, on_voice_join_2, on_sk.
    destruct (first_room (sk_roomId sk) roomId) as [r1|];
      cbn [sockets set_socket set_voiceRooms]; rewrite ?lookup_insert_eq, ?Hsk;
      destruct (first_room roomId _) as [r2|]; cbn [fst snd];
      apply same_view_sockets; try done; intros s;
      cbn [sockets set_socket set_voiceRooms];
      rewrite ?insert_insert_eq; try done; by eapply heap_set_socket.
  - (* voice-leave *)
    unfold on_voice_leave_1, on_voice_leave_2, on_sk, in_room.
    destruct (room_of (sk_roomId sk)) as [r1|];
      cbn [sockets set_socket set_voiceRooms]; rewrite ?lookup_insert_eq, ?Hsk;
      destruct (first_room roomId _) as [r2|]; cbn [fst snd];
      apply same_view_sockets; try done; intros s;
      cbn [sockets set_socket set_voiceRooms];
      rewrite ?insert_insert_eq; try done; by eapply heap_set_socket.
  - (* voice-mute *)
    unfold on_voice_mute_1, on_voice_mute_2, in_room.
    destruct (room_of (sk_roomId sk)) as [r1|];
      destruct (first_room roomId _) as [r2|]; cbn [fst snd];
      apply same_view_sockets; done.
  - (* host-mute-user *)
    unfold on_host_mute_user, host_only.
    destruct (isHost socketId sk st); [|apply same_view_refl].
    destruct (room_of (sk_roomId sk)); apply same_view_refl.
  - (* host-toggle-chat *)
    unfold on_host_toggle_chat, host_only.
    destruct (isHost socketId sk st); [|apply same_view_refl].
    destruct (room_of (sk_roomId sk)); apply same_view_sockets; done.
Qed.

(** What the leave procedure does to the registries: nothing the
    invariants see, or the connection loses its current room and, when the
    room has a membership map, its key in it. *)
Lemma handleLeaveRoom_shape socketId st :
  let st' := (handleLeaveRoom socketId st).1 in
  same_view st st'
  ∨ ∃ sk sk' roomId,
      sockets st !! socketId = Some sk ∧ sk_roomId sk = Some roomId
      ∧ sk_roomId sk' = None
      ∧ sockets st' = <[socketId := sk']> (sockets st)
      ∧ ((roomUsers st !! roomId = None
          ∧ roomUsers st' = roomUsers st ∧ roomHosts st' = roomHosts st)
         ∨ ∃ users,
             roomUsers st !! roomId = Some users
             ∧ ((JsMap.keys (JsMap.delete socketId users) = []
                 ∧ roomUsers st' = delete roomId (roomUsers st)
                 ∧ roomHosts st' = delete roomId (roomHosts st))
                ∨ ∃ next rest,
                    JsMap.keys (JsMap.delete socketId users) = next :: rest
                    ∧ roomUsers st'
                      = <[roomId := JsMap.delete socketId users]> (roomUsers st)
                    ∧ roomHosts st'
                      = if bool_decide (roomHosts st !! roomId = Some socketId)
                        then <[roomId := next]> (roomHosts st)
                        else roomHosts st)).
Proof.
  unfold handleLeaveRoom.
  destruct (sockets st !! socketId) as [sk|] eqn:Hsk;
    [|left; apply same_view_refl].
  destruct (room_of (sk_roomId sk)) as [roomId|] eqn:Hroom;
    [|left; apply same_view_refl].
  apply room_of_Some in Hroom. right.
  exists sk,
    {| sk_user := sk_user sk; sk_roomId := None;
       sk_displayName := sk_displayName sk; sk_voicePeerId := sk_voicePeerId sk;
       sk_rooms := sk_rooms sk ∖ {[roomId]};
       sk_voiceParticipants := sk_voiceParticipants sk;
       sk_connected := sk_connected sk |}, roomId.
  split; [done|]. split; [done|].
  destruct (roomUsers st !! roomId) as [users|] eqn:Hu.
  - set (users' := JsMap.delete socketId users).
    destruct (JsMap.keys users') as [|next rest] eqn:Hkeys.
    + assert (users' = []) as Hnil
        by (unfold JsMap.keys in Hkeys; by apply fmap_nil_inv in Hkeys).
      rewrite Hnil. cbn [JsMap.size length Nat.eqb].
      destruct (bool_decide _);
        cbn [fst sockets roomUsers roomHosts set_socket set_rooms sk_roomId].
      all: split; [reflexivity|]. all: split; [reflexivity|].
      all: right; exists users. all: split; [done|]. all: left; done.
    + assert ((JsMap.size users' =? 0)%nat = false) as ->.
      { apply Nat.eqb_neq. unfold JsMap.size, JsMap.keys in *. intros Hz.
        apply length_zero_iff_nil in Hz. by rewrite Hz in Hkeys. }
      destruct (bool_decide _);
        cbn [fst sockets roomUsers roomHosts set_socket set_rooms sk_roomId].
      all: split; [reflexivity|]. all: split; [reflexivity|].
      all: right; exists users. all: split; [done|].
      all: right; exists next, rest; done.
  - cbn [fst sockets roomUsers roomHosts set_socket sk_roomId].
    split; [reflexivity|]. split; [reflexivity|]. left. done.
Qed.

Lemma leave_host_is_member socketId st :
  host_is_member st → host_is_member (handleLeaveRoom socketId st).1.
Proof.
  intros Hinv.
  destruct (handleLeaveRoom_shape socketId st)
    as [Hv|(sk & sk' & roomId & Hsk & Hroom & Hroom' & Hheap & Hcase)];
    [by eapply same_view_host_is_member|].
  set (st' := (handleLeaveRoom socketId st).1) in *.
  intros r h Hh. unfold is_member.
  destruct Hcase as [(Hnone & -> & Hhosts)
                    |(users & Hu & [(Hnil & -> & Hhosts)
                                   |(next & rest & Hkeys & -> & Hhosts)])].
  - rewrite Hhosts in Hh. by apply Hinv.
  - rewrite Hhosts in Hh. apply lookup_delete_Some in Hh as [Hne Hh].
    rewrite lookup_delete_ne by done. by apply Hinv.
  - rewrite Hhosts in Hh. destruct (decide (roomId = r)) as [<-|Hne].
    + rewrite lookup_insert_eq. eexists; split; [done|].
      destruct (bool_decide (roomHosts st !! roomId = Some socketId)) eqn:Hb.
      * rewrite lookup_insert_eq in Hh. injection Hh as <-.
        rewrite Hkeys. apply list_elem_of_here.
      * apply bool_decide_eq_false in Hb.
        destruct (Hinv _ _ Hh) as (users0 & Hu0 & Hin).
        assert (users0 = users) as -> by congruence.
        apply JsMap_elem_of_keys_delete. split; [congruence|done].
    + rewrite lookup_insert_ne by done. apply Hinv.
      destruct (bool_decide _); [by rewrite lookup_insert_ne in Hh|done].
Qed.

Lemma leave_member_in_current_room socketId st :
  member_in_current_room st →
  member_in_current_room (handleLeaveRoom socketId st).1.
Proof.
  intros Hinv.
  destruct (handleLeaveRoom_shape socketId st)
    as [Hv|(sk & sk' & roomId & Hsk & Hroom & Hroom' & Hheap & Hcase)];
    [by eapply same_view_member_in_current_room|].
  set (st' := (handleLeaveRoom socketId st).1) in *.
  intros r s Hm.
  assert (is_member st r s ∧ s ≠ socketId) as [Hold Hne].
  { assert (is_member st r socketId → r = roomId) as Hcur.
    { intros H. destruct (Hinv _ _ H) as (sk0 & Hsk0 & Hr0). congruence. }
    unfold is_member in *.
    destruct Hm as (users' & Hu' & Hin).
    destruct Hcase as [(Hnone & Husers & _)
                      |(users & Hu & [(Hnil & Husers & _)
                                     |(next & rest & Hkeys & Husers & _)])];
      rewrite Husers in Hu'.
    - split; [eauto|]. intros ->. assert (r = roomId) as -> by eauto.
      congruence.
    - apply lookup_delete_Some in Hu' as [Hner Hu']. split; [eauto|].
      intros ->. apply Hner. symmetry. eauto.
    - destruct (decide (roomId = r)) as [<-|Hner].
      + rewrite lookup_insert_eq in Hu'. injection Hu' as <-.
        apply JsMap_elem_of_keys_delete in Hin as [Hn Hin]. eauto.
      + rewrite lookup_insert_ne in Hu' by done. split; [eauto|].
        intros ->. apply Hner. symmetry. eauto. }
  destruct (Hinv _ _ Hold) as (sk0 & Hsk0 & Hr0). exists sk0.
  by rewrite Hheap, lookup_insert_ne.
Qed.

Lemma leave_all_invariants ids : ∀ st,
  (host_is_member st → host_is_member (leave_all ids st).1)
  ∧ (member_in_current_room st → member_in_current_room (leave_all ids st).1).
Proof.
  induction ids as [|id ids IH]; intros st; [done|]. cbn [leave_all].
  destruct (io_socket st id) as [sk|].
  - pose proof (leave_host_is_member id st) as H1.
    pose proof (leave_member_in_current_room id st) as H2.
    destruct (handleLeaveRoom id st) as [st1 fx1]. specialize (IH st1).
    destruct (leave_all ids st1) as [st2 fx2]. simpl in *. tauto.
  - specialize (IH st). destruct (leave_all ids st) as [st2 fx2]. done.
Qed.

Lemma host_is_member_frame st st' :
  roomUsers st' = roomUsers st → roomHosts st' = roomHosts st →
  host_is_member st → host_is_member st'.
Proof.
  intros Hu Hh Hinv r h Hr. unfold is_member. rewrite Hu. apply Hinv. congruence.
Qed.

Lemma member_in_current_room_frame st st' :
  roomUsers st' = roomUsers st → sockets st' = sockets st →
  member_in_current_room st → member_in_current_room st'.
Proof.
  intros Hu Hs Hinv r s Hm. rewrite Hs. apply Hinv.
  unfold is_member in *. by rewrite <- Hu.
Qed.

(** *** join-room, up to the await *)

Lemma join_begin_host_is_member socketId sk roomId displayName st :
  host_is_member st →
  host_is_member (joinRoom_begin socketId sk roomId displayName st).
Proof.
  intros Hinv r h. unfold joinRoom_begin, is_member.
  cbn [roomHosts roomUsers set_joining set_socket set_rooms].
  destruct (decide (roomId = r)) as [<-|Hne].
  - rewrite lookup_insert_eq. intros Hh. eexists; split; [done|].
    apply JsMap_elem_of_keys_set.
    destruct (roomHosts st !! roomId) as [h0|] eqn:Hh0.
    + rewrite Hh0 in Hh. injection Hh as ->. right.
      destruct (Hinv _ _ Hh0) as (users & -> & Hin). done.
    + rewrite lookup_insert_eq in Hh. injection Hh as <-. by left.
  - rewrite lookup_insert_ne by done. intros Hh. apply Hinv.
    destruct (roomHosts st !! roomId); [done|].
    by rewrite lookup_insert_ne in Hh.
Qed.

Lemma join_begin_member_in_current_room socketId sk roomId displayName st :
  sockets st !! socketId = Some sk →
  sk_roomId sk = None ∨ sk_roomId sk = Some roomId →
  member_in_current_room st →
  member_in_current_room (joinRoom_begin socketId sk roomId displayName st).
Proof.
  intros Hsk Hguard Hinv r s. unfold joinRoom_begin, is_member.
  cbn [sockets roomUsers set_joining set_socket set_rooms].
  intros (users' & Hu' & Hin).
  destruct (decide (socketId = s)) as [<-|Hs].
  - rewrite lookup_insert_eq. eexists; split; [done|]. cbn [sk_roomId].
    destruct (decide (roomId = r)) as [<-|Hne]; [done|].
    rewrite lookup_insert_ne in Hu' by done.
    destruct (Hinv r socketId) as (sk0 & Hsk0 & Hr0); [by exists users'|].
    assert (sk0 = sk) as -> by congruence.
    destruct Hguard; congruence.
  - rewrite lookup_insert_ne by done. apply Hinv.
    destruct (decide (roomId = r)) as [<-|Hne].
    + rewrite lookup_insert_eq in Hu'. injection Hu' as <-.
      apply JsMap_elem_of_keys_set in Hin as [->|Hin]; [done|].
      destruct (roomUsers st !! roomId) as [users|] eqn:Hu;
        [by exists users | inversion Hin].
    + rewrite lookup_insert_ne in Hu' by done. by exists users'.
Qed.

(** *** join-room, after the await *)

Lemma join_resume_hosts socketId sk roomId db st :
  roomUsers (joinRoom_resume socketId sk roomId db st).1 = roomUsers st
  ∧ sockets (joinRoom_resume socketId sk roomId db st).1 = sockets st
  ∧ (roomHosts (joinRoom_resume socketId sk roomId db st).1 = roomHosts st
     ∨ roomHosts (joinRoom_resume socketId sk roomId db st).1
       = <[roomId := socketId]> (roomHosts st)).
Proof.
  unfold joinRoom_resume. destruct db as [|roomState roomDoc]; [by auto|].
  destruct (roomUsers st !! roomId), (roomSettings st !! roomId);
    cbn [fst roomUsers roomHosts sockets set_rooms];
    (split; [done|]); (split; [done|]);
    destruct roomDoc as [[host|]|]; repeat case_bool_decide;
    destruct (roomHosts st !! roomId); auto.
Qed.

Lemma join_resume_host_is_member socketId sk roomId db st :
  is_member st roomId socketId →
  host_is_member st →
  host_is_member (joinRoom_resume socketId sk roomId db st).1.
Proof.
  intros Hm Hinv. destruct (join_resume_hosts socketId sk roomId db st)
    as (Hu & _ & [Hh|Hh]); [by apply (host_is_member_frame st)|].
  intros r h. unfold is_member. rewrite Hh, Hu.
  destruct (decide (roomId = r)) as [<-|Hne].
  - rewrite lookup_insert_eq. by intros [= <-].
  - rewrite lookup_insert_ne by done. apply Hinv.
Qed.

(** *** Host commands that change the registries *)

Lemma kick_invariants socketId sk target st :
  (host_is_member st → host_is_member (on_host_kick_user socketId sk target st).1)
  ∧ (member_in_current_room st →
     member_in_current_room (on_host_kick_user socketId sk target st).1).
Proof.
  unfold on_host_kick_user, host_only.
  destruct (isHost socketId sk st); [|done].
  destruct (room_of (sk_roomId sk)) as [roomId|]; [|done].
  destruct (io_socket st target) as [tsk|]; [|done].
  destruct (bool_decide _); [|done].
  pose proof (leave_host_is_member target st).
  pose proof (leave_member_in_current_room target st).
  destruct (handleLeaveRoom target st) as [st' fx]. done.
Qed.

Lemma transfer_invariants socketId sk target st :
  (host_is_member st → host_is_member (on_host_transfer socketId sk target st).1)
  ∧ (member_in_current_room st →
     member_in_current_room (on_host_transfer socketId sk target st).1).
Proof.
  unfold on_host_transfer, host_only.
  destruct (isHost socketId sk st); [|done].
  destruct (room_of (sk_roomId sk)) as [roomId|]; [|done].
  destruct (roomUsers st !! roomId) as [users|] eqn:Hu; [|done].
  destruct (JsMap.has target users) eqn:Hhas; [|done].
  apply JsMap_has_keys in Hhas. cbn [fst]. split.
  - intros Hinv r h. unfold is_member. cbn [roomHosts roomUsers set_rooms].
    destruct (decide (roomId = r)) as [<-|Hne].
    + rewrite lookup_insert_eq. intros [= <-]. eauto.
    + rewrite lookup_insert_ne by done. apply Hinv.
  - by apply member_in_current_room_frame.
Qed.

Lemma end_session_invariants socketId sk st :
  (host_is_member st → host_is_member (on_host_end_session socketId sk st).1)
  ∧ (member_in_current_room st →
     member_in_current_room (on_host_end_session socketId sk st).1).
Proof.
  unfold on_host_end_session, host_only.
  destruct (isHost socketId sk st); [|done].
  destruct (room_of (sk_roomId sk)) as [roomId|]; [|done].
  match goal with |- context [leave_all ?ids st] =>
    pose proof (leave_all_invariants ids st) as [H1 H2];
    destruct (leave_all ids st) as [st' fx]
  end.
  cbn [fst] in *. split; intros Hinv.
  - specialize (H1 Hinv). intros r h. unfold is_member.
    cbn [roomHosts roomUsers set_rooms].
    intros [Hne Hh]%lookup_delete_Some. rewrite lookup_delete_ne by done.
    by apply H1.
  - specialize (H2 Hinv). intros r s. unfold is_member.
    cbn [sockets roomUsers set_rooms].
    intros (users & [Hne Hu]%lookup_delete_Some & Hin). apply H2.
    by exists users.
Qed.

(** *** One transition *)

Lemma step_host_is_member st i :
  host_is_member st → resumes_as_member st i → host_is_member (step st i).1.
Proof.
  intros Hinv Hok. destruct i as [s auth|s ev|s roomId db|s|now|k ok];
    cbn [step].
  - unfold connect. destruct (sockets st !! s); [done|].
    by apply (host_is_member_frame st).
  - destruct (io_socket st s) as [sk|] eqn:Hsk; [|done].
    destruct (room_neutral ev) eqn:Hev.
    + eapply same_view_host_is_member; [|done].
      apply handle_neutral; [by apply io_socket_heap | done].
    + destruct ev; try discriminate Hev; cbn [handle fst].
      * by apply join_begin_host_is_member.
      * by apply leave_host_is_member.
      * by apply kick_invariants.
      * by apply transfer_invariants.
      * by apply end_session_invariants.
  - case_bool_decide as Hpending; [|done]. unfold on_sk.
    cbn [sockets set_joining]. destruct (sockets st !! s) as [sk|]; cbn [fst].
    + apply join_resume_host_is_member.
      * destruct (Hok Hpending) as (users & Hu & Hin). by exists users.
      * by apply (host_is_member_frame st).
    + by apply (host_is_member_frame st).
  - destruct (io_socket st s) as [sk|] eqn:Hsk; [|done]. unfold disconnect.
    apply leave_host_is_member. by apply (host_is_member_frame st).
  - destruct (Debounce.elapse now (saves st)) as [[d fired] fx].
    by apply (host_is_member_frame st).
  - destruct (Debounce.saved k ok (saves st)) as [d fx].
    by apply (host_is_member_frame st).
Qed.

Lemma step_member_in_current_room st i :
  member_in_current_room st → joins_one_room st i →
  member_in_current_room (step st i).1.
Proof.
  intros Hinv Hok. destruct i as [s auth|s ev|s roomId db|s|now|k ok];
    cbn [step].
  - unfold connect. destruct (sockets st !! s) as [sk|] eqn:Hs; [done|].
    cbn [fst]. intros r s' Hm. destruct (Hinv r s') as (sk' & Hsk' & Hr');
      [done|]. exists sk'. cbn [sockets set_socket].
    rewrite lookup_insert_ne by congruence. done.
  - destruct (io_socket st s) as [sk|] eqn:Hsk; [|done].
    destruct (room_neutral ev) eqn:Hev.
    + eapply same_view_member_in_current_room; [|done].
      apply handle_neutral; [by apply io_socket_heap | done].
    + destruct ev; try discriminate Hev; cbn [handle fst].
      * apply join_begin_member_in_current_room;
          [by apply io_socket_heap | by apply Hok | done].
      * by apply leave_member_in_current_room.
      * by apply kick_invariants.
      * by apply transfer_invariants.
      * by apply end_session_invariants.
  - case_bool_decide as Hpending; [|done]. unfold on_sk.
    cbn [sockets set_joining]. destruct (sockets st !! s) as [sk|]; cbn [fst].
    + destruct (join_resume_hosts s sk roomId db
                  (set_joining (remove_first (s, roomId) (joining st)) st))
        as (Hu & Hs & _).
      by apply (member_in_current_room_frame st).
    + by apply (member_in_current_room_frame st).
  - destruct (io_socket st s) as [sk|] eqn:Hsk; [|done]. unfold disconnect.
    apply leave_member_in_current_room.
    eapply same_view_member_in_current_room; [|done].
    apply (same_view_set_socket st s sk); [by apply io_socket_heap | done].
  - destruct (Debounce.elapse now (saves st)) as [[d fired] fx].
    by apply (member_in_current_room_frame st).
  - destruct (Debounce.saved k ok (saves st)) as [d fx].
    by apply (member_in_current_room_frame st).
Qed.

(** *** Reachable states *)

Lemma reachable_run ok inputs : ∀ st,
  reachable_by ok st → all_ok ok st inputs → reachable_by ok (run st inputs).1.
Proof.
  induction inputs as [|i rest IH]; intros st Hst Hall; [done|].
  destruct Hall as [Hi Hrest]. cbn [run].
  specialize (IH (step st i).1 (reach_step ok st i Hst Hi) Hrest).
  destruct (step st i) as [st1 fx1]. cbn [fst] in IH.
  destruct (run st1 rest) as [st2 fx2]. exact IH.
Qed.

(** The host assignment names a member of the room in every state reached
    without a join-room handler resuming after its connection has left the
    room. *)
Lemma host_names_member st :
  reachable_by resumes_as_member st → host_is_member st.
Proof.
  induction 1 as [|st i _ IH Hok]; [by intros r h|].
  by apply step_host_is_member.
Qed.

(** C1 — the host assignment names a member of the room.  The code breaks
    it: the account that owns room "R" connects and sends join-room, the
    connection closes while the handler awaits the store, and the handler,
    resuming with the Room document, makes the closed connection host of
    "R".  No join is in flight any more, "R" has no membership map, and its
    host assignment names "s1". *)
Theorem join_resumed_after_leave_sets_absent_host :
  let st := (run init [Connect "s1" (Some ("u1", "alice"));
                       Recv "s1" (JoinRoom "R" None);
                       Disconnect "s1";
                       Resume "s1" "R" (DbOk JNull (Some (Some "u1")))]).1 in
  roomHosts st !! "R" = Some "s1"
  ∧ roomUsers st !! "R" = None
  ∧ joining st = []
  ∧ ¬ host_is_member st.
Proof.
  intros st.
  assert (roomHosts st !! "R" = Some "s1") as Hh by (vm_compute; reflexivity).
  assert (roomUsers st !! "R" = None) as Hu by (vm_compute; reflexivity).
  split_and!; [done | done | vm_compute; reflexivity |].
  intros Hinv. destruct (Hinv _ _ Hh) as (users & Hu' & _). congruence.
Qed.

(** ** One room per connection *)

(** One room per connection, for runs in which join-room never has to
    replace a room.  In every state reached through inputs in which a
    connection sends join-room only while its [socket.roomId] is unset
    (it never joined, or the leave procedure has reset it) or names the
    same room, each member of a room is a socket whose current room is that
    room, and so no connection is in the membership of two rooms. *)
Lemma one_room_when_joins_follow_leaves (st : state) :
  reachable_by joins_one_room st →
  member_in_current_room st ∧ one_room_each st.
Proof.
  intros Hreach.
  assert (member_in_current_room st) as Hinv.
  { induction Hreach as [|st i _ IH Hok].
    - intros r s (users & Hu & _). cbn [roomUsers init] in Hu.
      by rewrite lookup_empty in Hu.
    - by apply step_member_in_current_room. }
  split; [done|]. intros r1 r2 s H1 H2.
  destruct (Hinv _ _ H1) as (sk1 & Hsk1 & Hr1).
  destruct (Hinv _ _ H2) as (sk2 & Hsk2 & Hr2). congruence.
Qed.

Lemma one_room_when_joins_follow_leaves_example :
  one_room_each
    (run init [Connect "s" None;
               Recv "s" (JoinRoom "A" None); Resume "s" "A" (DbOk JNull None);
               Recv "s" LeaveRoom;
               Recv "s" (JoinRoom "B" None); Resume "s" "B" (DbOk JNull None)]).1.
Proof.
  apply one_room_when_joins_follow_leaves.
  apply reachable_run; [constructor|].
  cbn [all_ok]. split_and!; try exact I.
  - intros sk H. vm_compute in H. injection H as <-. by left.
  - intros sk H. vm_compute in H. injection H as <-. by left.
Defined.

(** C8 — a connection in two rooms.  A connection joins "A" and then "B":
    join-room overwrites [socket.roomId] and adds the connection to the
    membership of "B", and nothing takes it out of the membership of "A".
    It is in both; and since the leave procedure goes by [socket.roomId],
    its entry in "A" outlives leave-room and the connection itself. *)
Theorem second_join_keeps_first_membership :
  let st := (run init [Connect "s" None;
                       Recv "s" (JoinRoom "A" None);
                       Resume "s" "A" (DbOk JNull None);
                       Recv "s" (JoinRoom "B" None);
                       Resume "s" "B" (DbOk JNull None)]).1 in
  let closed := (run st [Recv "s" LeaveRoom; Disconnect "s"]).1 in
  JsMap.keys <$> roomUsers st !! "A" = Some ["s"]
  ∧ JsMap.keys <$> roomUsers st !! "B" = Some ["s"]
  ∧ ¬ one_room_each st
  ∧ io_socket closed "s" = None
  ∧ JsMap.keys <$> roomUsers closed !! "A" = Some ["s"]
  ∧ roomUsers closed !! "B" = None.
Proof.
  intros st closed.
  assert (JsMap.keys <$> roomUsers st !! "A" = Some ["s"]) as HA
    by (vm_compute; reflexivity).
  assert (JsMap.keys <$> roomUsers st !! "B" = Some ["s"]) as HB
    by (vm_compute; reflexivity).
  split_and!; [done|done| |vm_compute; reflexivity..]. intros Hone.
  assert (is_member st "A" "s") as H1.
  { unfold is_member. destruct (roomUsers st !! "A") as [u|]; [|done].
    exists u. split; [done|]. injection HA as ->. apply list_elem_of_here. }
  assert (is_member st "B" "s") as H2.
  { unfold is_member. destruct (roomUsers st !! "B") as [u|]; [|done].
    exists u. split; [done|]. injection HB as ->. apply list_elem_of_here. }
  specialize (Hone _ _ _ H1 H2). discriminate Hone.
Qed.

(** * Further properties of the handlers *)

(** ** What the leave procedure leaves alone *)

Lemma handleLeaveRoom_frame socketId st :
  let st' := (handleLeaveRoom socketId st).1 in
  voiceRooms st' = voiceRooms st
  ∧ roomCursorPositions st' = roomCursorPositions st
  ∧ saves st' = saves st
  ∧ joining st' = joining st.
Proof.
  unfold handleLeaveRoom.
  destruct (sockets st !! socketId) as [sk|]; [|done].
  destruct (room_of (sk_roomId sk)) as [roomId|]; [|done].
  destruct (roomUsers st !! roomId) as [users|]; [|done].
  destruct (bool_decide _); [destruct (JsMap.keys _)|];
    destruct (_ =? _)%nat; done.
Qed.

Lemma leave_all_frame ids : ∀ st,
  let st' := (leave_all ids st).1 in
  voiceRooms st' = voiceRooms st
  ∧ roomCursorPositions st' = roomCursorPositions st
  ∧ saves st' = saves st
  ∧ joining st' = joining st.
Proof.
  induction ids as [|id ids IH]; intros st; [done|]. cbn [leave_all].
  destruct (io_socket st id) as [sk|].
  - pose proof (handleLeaveRoom_frame id st) as Hf.
    destruct (handleLeaveRoom id st) as [st1 fx1]. specialize (IH st1).
    destruct (leave_all ids st1) as [st2 fx2]. simpl in *.
    destruct Hf as (? & ? & ? & ?), IH as (? & ? & ? & ?).
    split_and!; congruence.
  - specialize (IH st). destruct (leave_all ids st) as [st2 fx2]. done.
Qed.

Lemma kick_frame socketId sk target st :
  let st' := (on_host_kick_user socketId sk target st).1 in
  voiceRooms st' = voiceRooms st
  ∧ roomCursorPositions st' = roomCursorPositions st
  ∧ saves st' = saves st
  ∧ joining st' = joining st.
Proof.
  unfold on_host_kick_user, host_only.
  destruct (isHost socketId sk st); [|done].
  destruct (room_of (sk_roomId sk)) as [roomId|]; [|done].
  destruct (io_socket st target); [|done].
  destruct (bool_decide _); [|done].
  pose proof (handleLeaveRoom_frame target st) as Hf.
  destruct (handleLeaveRoom target st). apply Hf.
Qed.

Lemma end_session_frame socketId sk st :
  let st' := (on_host_end_session socketId sk st).1 in
  voiceRooms st' = voiceRooms st
  ∧ roomCursorPositions st' = roomCursorPositions st
  ∧ saves st' = saves st
  ∧ joining st' = joining st.
Proof.
  unfold on_host_end_session, host_only.
  destruct (isHost socketId sk st); [|done].
  destruct (room_of (sk_roomId sk)) as [roomId|]; [|done].
  match goal with |- context [leave_all ?ids st] =>
    pose proof (leave_all_frame ids st) as Hf;
    destruct (leave_all ids st) as [st' fx]
  end. apply Hf.
Qed.

(** Only the voice events change the voice rosters. *)
Lemma handle_voiceRooms socketId sk ev st :
  voice_event ev = false →
  voiceRooms (handle socketId sk ev st).1 = voiceRooms st.
Proof.
  intros Hev.
  destruct ev; try discriminate Hev; cbn [handle];
    try apply handleLeaveRoom_frame; try apply kick_frame;
    try apply end_session_frame;
    unfold relay, on_code_change, on_intent_update, on_canvas_full_sync_1,
      on_canvas_full_sync_2, on_chat_message, on_cursor_position_2,
      on_request_cursors, both, in_room, on_host_mute_user, on_host_transfer,
      on_host_toggle_chat, host_only;
    repeat case_match; simplify_eq/=; done.
Qed.

(** ** Voice rosters *)

Lemma has_peer_spec peerId room :
  has_peer peerId room = true ↔ peerId ∈ peer_ids room.
Proof.
  unfold has_peer, peer_ids. rewrite bool_decide_eq_true, Exists_exists.
  rewrite list_elem_of_fmap. split.
  - intros (p & Hin & <-). eauto.
  - intros (p & -> & Hin). eauto.
Qed.

Lemma remove_first_peer_filter peerId room :
  NoDup (peer_ids room) →
  remove_first_peer peerId room = filter (λ p, vp_peerId p ≠ peerId) room.
Proof.
  unfold peer_ids. induction room as [|p room IH]; [done|].
  csimpl. intros [Hnin Hnd]%NoDup_cons. rewrite filter_cons.
  case_bool_decide as Hp.
  - rewrite decide_False by (intros H; by apply H).
    symmetry. apply filter_all. apply Forall_forall. intros q Hq Heq.
    apply Hnin. rewrite Hp, <- Heq. apply list_elem_of_fmap. eauto.
  - rewrite decide_True by done. by rewrite IH.
Qed.

Lemma remove_first_peer_absent peerId room :
  peerId ∉ peer_ids room → remove_first_peer peerId room = room.
Proof.
  unfold peer_ids. induction room as [|p room IH]; [done|]. csimpl.
  intros Hnin. case_bool_decide as Hp.
  - exfalso. apply Hnin. rewrite Hp. apply list_elem_of_here.
  - rewrite IH; [done|]. intros H. apply Hnin. by apply list_elem_of_further.
Qed.

Lemma remove_first_peer_app_new peerId room p :
  peerId ∉ peer_ids room → vp_peerId p = peerId →
  remove_first_peer peerId (room ++ [p]) = room.
Proof.
  unfold peer_ids. induction room as [|q room IH]; csimpl; intros Hnin Hp.
  - by rewrite bool_decide_eq_true_2.
  - case_bool_decide as Hq.
    + exfalso. apply Hnin. rewrite Hq. apply list_elem_of_here.
    + rewrite IH; [done| |done]. intros H. apply Hnin.
      by apply list_elem_of_further.
Qed.

Lemma peer_ids_mute peerId isMuted room :
  peer_ids (mute_first_peer peerId isMuted room) = peer_ids room.
Proof.
  unfold peer_ids. induction room as [|p room IH]; [done|]. csimpl.
  case_bool_decide; csimpl; [done|]. by rewrite IH.
Qed.

Lemma mute_first_peer_map peerId isMuted room :
  NoDup (peer_ids room) →
  mute_first_peer peerId isMuted room = with_muted peerId isMuted <$> room.
Proof.
  unfold peer_ids. induction room as [|p room IH]; [done|].
  csimpl. intros [Hnin Hnd]%NoDup_cons. unfold with_muted at 1.
  case_bool_decide as Hp.
  - f_equal. symmetry. rewrite <- (list_fmap_id room) at 2.
    apply list_fmap_ext. intros i q Hq. unfold with_muted.
    rewrite bool_decide_eq_false_2; [done|]. intros Heq. apply Hnin.
    rewrite Hp, <- Heq. apply list_elem_of_fmap. exists q. split; [done|].
    by eapply list_elem_of_lookup_2.
  - by rewrite IH.
Qed.

(** The voice roster of each room after a voice event. *)
Lemma voice_join_rooms socketId sk peerId r st :
  sockets st !! socketId = Some sk →
  voiceRooms (handle socketId sk (VoiceJoin peerId r) st).1
  = match first_room (sk_roomId sk) r with
    | Some roomId =>
        <[roomId :=
            if has_peer peerId (roster st roomId) then roster st roomId
            else roster st roomId
                 ++ [{| vp_peerId := peerId; vp_socketId := socketId;
                        vp_isMuted := true;
                        vp_username := u_username (sk_user sk) |}]]>
          (voiceRooms st)
    | None => voiceRooms st
    end.
Proof.
  intros Hsk. cbn [handle]. unfold both, on_voice_join_1, on_sk, roster.
  destruct (first_room (sk_roomId sk) r) as [roomId|].
  - cbn [sockets set_socket set_voiceRooms]. rewrite lookup_insert_eq.
    unfold on_voice_join_2. cbn [sk_roomId set_voicePeerId].
    by destruct (first_room r (sk_roomId sk)).
  - rewrite Hsk. unfold on_voice_join_2.
    by destruct (first_room r (sk_roomId sk)).
Qed.

Lemma voice_leave_rooms socketId sk peerId r st :
  sockets st !! socketId = Some sk →
  voiceRooms (handle socketId sk (VoiceLeave peerId r) st).1
  = match room_of (sk_roomId sk) with
    | Some roomId =>
        match voiceRooms st !! roomId with
        | Some room => <[roomId := remove_first_peer peerId room]> (voiceRooms st)
        | None => voiceRooms st
        end
    | None => voiceRooms st
    end.
Proof.
  intros Hsk. cbn [handle]. unfold both, on_voice_leave_1, on_sk, in_room.
  destruct (room_of (sk_roomId sk)) as [roomId|].
  - cbn [sockets set_socket set_voiceRooms]. rewrite lookup_insert_eq.
    unfold on_voice_leave_2. cbn [sk_roomId set_voicePeerId].
    by destruct (first_room r (sk_roomId sk)).
  - rewrite Hsk. unfold on_voice_leave_2.
    by destruct (first_room r (sk_roomId sk)).
Qed.

Lemma voice_mute_rooms socketId sk peerId isMuted r st :
  voiceRooms (handle socketId sk (VoiceMute peerId isMuted r) st).1
  = match room_of (sk_roomId sk) with
    | Some roomId =>
        match voiceRooms st !! roomId with
        | Some room =>
            <[roomId := mute_first_peer peerId isMuted room]> (voiceRooms st)
        | None => voiceRooms st
        end
    | None => voiceRooms st
    end.
Proof.
  cbn [handle]. unfold both, on_voice_mute_1, on_voice_mute_2, in_room.
  destruct (room_of (sk_roomId sk)) as [roomId|];
    by destruct (first_room r (sk_roomId sk)).
Qed.

Lemma step_voiceRooms_other st i :
  (∀ socketId ev, i = Recv socketId ev → voice_event ev = false) →
  voiceRooms (step st i).1 = voiceRooms st.
Proof.
  intros Hnv. destruct i as [s auth|s ev|s roomId db|s|now|k ok]; cbn [step].
  - unfold connect. by destruct (sockets st !! s).
  - destruct (io_socket st s) as [sk|]; [|done].
    apply handle_voiceRooms. by eapply Hnv.
  - case_bool_decide; [|done]. unfold on_sk. cbn [sockets set_joining].
    destruct (sockets st !! s) as [sk|]; [|done].
    unfold joinRoom_resume. destruct db; [done|].
    cbn [roomUsers roomSettings set_joining].
    by destruct (roomUsers st !! roomId), (roomSettings st !! roomId).
  - destruct (io_socket st s) as [sk|]; [|done]. unfold disconnect.
    by destruct (handleLeaveRoom_frame s
                   (set_socket s
                      {| sk_user := sk_user sk; sk_roomId := sk_roomId sk;
                         sk_displayName := sk_displayName sk;
                         sk_voicePeerId := sk_voicePeerId sk; sk_rooms := ∅;
                         sk_voiceParticipants := sk_voiceParticipants sk;
                         sk_connected := false |} st)) as (-> & _).
  - by destruct (Debounce.elapse now (saves st)) as [[d fired] fx].
  - by destruct (Debounce.saved k ok (saves st)) as [d fx].
Qed.

Lemma step_rosters_distinct st i :
  rosters_distinct st → rosters_distinct (step st i).1.
Proof.
  intros Hinv.
  assert ((∃ s ev, i = Recv s ev ∧ voice_event ev = true)
          ∨ ∀ s ev, i = Recv s ev → voice_event ev = false) as Hcases.
  { destruct i as [| s ev | | | |]; try (right; intros ? ? [=]; done).
    destruct (voice_event ev) eqn:Hev; [left; eauto|].
    right. by intros ? ? [= <- <-]. }
  destruct Hcases as [(s & ev & -> & Hev)|Hnv]; last first.
  { intros r room. rewrite step_voiceRooms_other by done. apply Hinv. }
  cbn [step]. destruct (io_socket st s) as [sk|] eqn:Hsk; [|done].
  apply io_socket_heap in Hsk. intros r room.
  destruct ev; try discriminate Hev.
  - rewrite voice_join_rooms by done.
    destruct (first_room (sk_roomId sk) roomId) as [r0|]; [|apply Hinv].
    destruct (decide (r0 = r)) as [->|Hne];
      [|rewrite lookup_insert_ne by done; apply Hinv].
    rewrite lookup_insert_eq. intros [= <-].
    assert (NoDup (peer_ids (roster st r))) as Hnd.
    { unfold roster. destruct (voiceRooms st !! r) eqn:Hr; [by eapply Hinv|].
      constructor. }
    destruct (has_peer peerId (roster st r)) eqn:Hhas; [done|].
    unfold peer_ids. rewrite fmap_app. apply NoDup_app. split_and!; [done| |].
    + intros q Hq Hq'. csimpl in Hq'. apply list_elem_of_singleton in Hq'.
      subst q. apply (proj2 (has_peer_spec _ _)) in Hq. congruence.
    + apply NoDup_singleton.
  - rewrite voice_leave_rooms by done.
    destruct (room_of (sk_roomId sk)) as [r0|]; [|apply Hinv].
    destruct (voiceRooms st !! r0) as [room0|] eqn:Hr0; [|apply Hinv].
    destruct (decide (r0 = r)) as [->|Hne];
      [|rewrite lookup_insert_ne by done; apply Hinv].
    rewrite lookup_insert_eq. intros [= <-].
    rewrite remove_first_peer_filter by (by eapply Hinv).
    unfold peer_ids.
    eapply sublist_NoDup; [by eapply (Hinv r room0)|].
    apply fmap_sublist, sublist_filter.
  - rewrite voice_mute_rooms.
    destruct (room_of (sk_roomId sk)) as [r0|]; [|apply Hinv].
    destruct (voiceRooms st !! r0) as [room0|] eqn:Hr0; [|apply Hinv].
    destruct (decide (r0 = r)) as [->|Hne];
      [|rewrite lookup_insert_ne by done; apply Hinv].
    rewrite lookup_insert_eq. intros [= <-]. rewrite peer_ids_mute.
    by eapply Hinv.
Qed.

Lemma reachable_rosters_distinct (st : state) :
  reachable st → rosters_distinct st.
Proof.
  induction 1 as [|st i _ IH _].
  - intros r room Hr. cbn [voiceRooms init] in Hr. by rewrite lookup_empty in Hr.
  - by apply step_rosters_distinct.
Qed.

Lemma reachable_run_any inputs st :
  reachable st → reachable (run st inputs).1.
Proof.
  intros Hst. apply reachable_run; [done|]. clear Hst. revert st.
  induction inputs as [|i rest IH]; intros st; [done|]. split; [done|]. apply IH.
Qed.

(** X1 — in every state the server reaches, no voice roster lists a peer id
    twice: voice-join adds a peer only when [find] does not see it, and
    voice-leave and voice-mute add nothing. *)
Theorem voice_rosters_distinct (st : state) :
  reachable st → rosters_distinct st.
Proof. apply reachable_rosters_distinct. Qed.

Lemma voice_rosters_distinct_witness :
  let st := (run init [Connect "a" None; Recv "a" (JoinRoom "ABC123" None);
                       Recv "a" (VoiceJoin "p1" None);
                       Recv "a" (VoiceJoin "p1" None);
                       Recv "a" (VoiceJoin "p2" None)]).1 in
  peer_ids (roster st "ABC123") = ["p1"; "p2"]
  ∧ NoDup (peer_ids (roster st "ABC123")).
Proof.
  intros st. split; [vm_compute; reflexivity|].
  destruct (voiceRooms st !! "ABC123") as [room|] eqn:Hr;
    [|by vm_compute in Hr].
  unfold roster. rewrite Hr.
  apply (voice_rosters_distinct st (reachable_run_any _ _ (reach_init _))
           "ABC123" room Hr).
Defined.

Lemma first_room_current o r roomId :
  room_of o = Some roomId → first_room o r = Some roomId.
Proof. unfold first_room. by intros ->. Qed.

(** X2 — voice-leave removes the peer: after it, the roster of the
    connection's room is the roster it had, without the entry of that peer
    id and with the other entries in their order. *)
Theorem voice_leave_removes_peer (st : state) (socketId : string) (sk : socket)
    (roomId peerId : string) (r : option string) :
  reachable st →
  io_socket st socketId = Some sk →
  room_of (sk_roomId sk) = Some roomId →
  roster (step st (Recv socketId (VoiceLeave peerId r))).1 roomId
  = filter (λ p, vp_peerId p ≠ peerId) (roster st roomId).
Proof.
  intros Hreach Hsk Hroom. cbn [step]. rewrite Hsk. unfold roster.
  rewrite voice_leave_rooms by (by apply io_socket_heap). rewrite Hroom.
  destruct (voiceRooms st !! roomId) as [room|] eqn:Hr.
  - rewrite lookup_insert_eq. csimpl. apply remove_first_peer_filter.
    by eapply (reachable_rosters_distinct st Hreach).
  - by rewrite Hr.
Qed.

(** The scenario of the specification: voice-join p1, voice-join p2,
    voice-leave p1; the roster is p2 alone. *)
Lemma voice_leave_removes_peer_witness :
  let st := (run init [Connect "a" None; Connect "b" None;
                       Recv "a" (JoinRoom "ABC123" None);
                       Recv "b" (JoinRoom "ABC123" None);
                       Recv "a" (VoiceJoin "p1" None);
                       Recv "b" (VoiceJoin "p2" None)]).1 in
  peer_ids (roster (step st (Recv "a" (VoiceLeave "p1" None))).1 "ABC123")
  = ["p2"].
Proof.
  intros st.
  destruct (io_socket st "a") as [sk|] eqn:Hsk; [|by vm_compute in Hsk].
  assert (room_of (sk_roomId sk) = Some "ABC123") as Hroom
    by (vm_compute in Hsk; by injection Hsk as <-).
  rewrite (voice_leave_removes_peer st "a" sk "ABC123" "p1" None
             (reachable_run_any _ _ (reach_init _)) Hsk Hroom).
  vm_compute. reflexivity.
Defined.

Lemma voice_join_socket socketId sk peerId r st :
  sockets st !! socketId = Some sk →
  ∃ sk', sockets (handle socketId sk (VoiceJoin peerId r) st).1 !! socketId
         = Some sk'
         ∧ sk_roomId sk' = sk_roomId sk ∧ sk_connected sk' = sk_connected sk.
Proof.
  intros Hsk. cbn [handle]. unfold both, on_voice_join_1, on_sk.
  destruct (first_room (sk_roomId sk) r) as [r1|].
  - cbn [sockets set_socket set_voiceRooms]. rewrite lookup_insert_eq.
    unfold on_voice_join_2. cbn [sk_roomId set_voicePeerId].
    destruct (first_room r (sk_roomId sk));
      cbn [fst sockets set_socket set_voiceRooms]; rewrite lookup_insert_eq;
      eauto.
  - rewrite Hsk. unfold on_voice_join_2.
    destruct (first_room r (sk_roomId sk));
      cbn [fst sockets set_socket set_voiceRooms];
      rewrite ?lookup_insert_eq, ?Hsk; eauto.
Qed.

(** X3 — voice-join followed by voice-leave is a round trip: when the peer
    id is not in the roster of the connection's room, joining and then
    leaving with it gives back the roster as it was. *)
Theorem voice_join_then_leave (st : state) (socketId : string) (sk : socket)
    (roomId peerId : string) (r r' : option string) :
  io_socket st socketId = Some sk →
  room_of (sk_roomId sk) = Some roomId →
  peerId ∉ peer_ids (roster st roomId) →
  roster (run st [Recv socketId (VoiceJoin peerId r);
                  Recv socketId (VoiceLeave peerId r')]).1 roomId
  = roster st roomId.
Proof.
  intros Hsk Hroom Hnew. cbn [run step]. rewrite Hsk.
  pose proof (io_socket_heap _ _ _ Hsk) as Hheap.
  pose proof (voice_join_rooms socketId sk peerId r st Hheap) as Hvr.
  destruct (voice_join_socket socketId sk peerId r st Hheap)
    as (sk' & Hsk' & Hr' & Hc').
  destruct (handle socketId sk (VoiceJoin peerId r) st) as [st1 fx1].
  cbn [fst] in *.
  assert (io_socket st1 socketId = Some sk') as Hio.
  { unfold io_socket in *. rewrite Hsk'. rewrite Hheap in Hsk.
    rewrite Hc'. by destruct (sk_connected sk). }
  rewrite Hio.
  pose proof (voice_leave_rooms socketId sk' peerId r' st1 Hsk') as Hvl.
  destruct (handle socketId sk' (VoiceLeave peerId r') st1) as [st2 fx2].
  cbn [fst] in *. unfold roster at 1. rewrite Hvl, Hr', Hroom, Hvr.
  rewrite (first_room_current _ _ roomId) by done.
  rewrite lookup_insert_eq.
  assert (has_peer peerId (roster st roomId) = false) as ->.
  { destruct (has_peer peerId (roster st roomId)) eqn:Hhas; [|done].
    by apply has_peer_spec in Hhas. }
  rewrite lookup_insert_eq. csimpl. by apply remove_first_peer_app_new.
Qed.

Lemma voice_join_then_leave_witness :
  let st := (run init [Connect "a" None;
                       Recv "a" (JoinRoom "ABC123" None);
                       Recv "a" (VoiceJoin "p1" None)]).1 in
  roster (run st [Recv "a" (VoiceJoin "p2" None);
                  Recv "a" (VoiceLeave "p2" None)]).1 "ABC123"
  = roster st "ABC123".
Proof.
  intros st.
  destruct (io_socket st "a") as [sk|] eqn:Hsk; [|by vm_compute in Hsk].
  apply (voice_join_then_leave st "a" sk "ABC123" "p2" None None Hsk).
  - vm_compute in Hsk. by injection Hsk as <-.
  - vm_compute. intros H.
    repeat (inversion H as [|? ? ? H']; clear H; rename H' into H).
Defined.

(** X4 — voice-mute changes the flag in place: the roster of the
    connection's room keeps its entries and their order, and the entry of
    the peer id, if there is one, gets the new flag. *)
Theorem voice_mute_in_place (st : state) (socketId : string) (sk : socket)
    (roomId peerId : string) (isMuted : bool) (r : option string) :
  reachable st →
  io_socket st socketId = Some sk →
  room_of (sk_roomId sk) = Some roomId →
  roster (step st (Recv socketId (VoiceMute peerId isMuted r))).1 roomId
  = with_muted peerId isMuted <$> roster st roomId.
Proof.
  intros Hreach Hsk Hroom. cbn [step]. rewrite Hsk. unfold roster.
  rewrite voice_mute_rooms. rewrite Hroom.
  destruct (voiceRooms st !! roomId) as [room|] eqn:Hr.
  - rewrite lookup_insert_eq. csimpl. apply mute_first_peer_map.
    by eapply (reachable_rosters_distinct st Hreach).
  - by rewrite Hr.
Qed.

Lemma voice_mute_in_place_witness :
  let st := (run init [Connect "a" None;
                       Recv "a" (JoinRoom "ABC123" None);
                       Recv "a" (VoiceJoin "p1" None)]).1 in
  roster (step st (Recv "a" (VoiceMute "p1" false None))).1 "ABC123"
  = [{| vp_peerId := "p1"; vp_socketId := "a"; vp_isMuted := false;
        vp_username := "Guest-a" |}].
Proof.
  intros st.
  destruct (io_socket st "a") as [sk|] eqn:Hsk; [|by vm_compute in Hsk].
  assert (room_of (sk_roomId sk) = Some "ABC123") as Hroom
    by (vm_compute in Hsk; by injection Hsk as <-).
  rewrite (voice_mute_in_place st "a" sk "ABC123" "p1" false None
             (reachable_run_any _ _ (reach_init _)) Hsk Hroom).
  vm_compute. reflexivity.
Defined.

(** ** Cursors *)

(** X5 — the colour computed for a display name is always one of the eight
    entries of [cursorColors]: the index [|sum of char codes| % 8] stays in
    range. *)
Theorem cursor_color_in_palette (name : string) :
  cursor_color name ∈ cursorColors.
Proof.
  unfold cursor_color.
  assert (0 ≤ Z.abs (code_sum name) mod 8 < 8) as Hi
    by (apply Z.mod_pos_bound; lia).
  assert (Z.to_nat (Z.abs (code_sum name) mod 8) < 8)%nat as Hlt by lia.
  destruct (Z.to_nat (Z.abs (code_sum name) mod 8)) as [|[|[|[|[|[|[|[|n]]]]]]]];
    [unfold cursorColors; cbn [nth];
     repeat first [apply list_elem_of_here | apply list_elem_of_further]..|lia].
Qed.

Lemma cursor_position_state socketId sk fileId position selection st roomId :
  room_of (sk_roomId sk) = Some roomId →
  let st' := (handle socketId sk (CursorPosition fileId position selection) st).1 in
  sockets st' = sockets st
  ∧ roomCursorPositions st' !! roomId
    = Some (JsMap.set socketId
              {| cu_username := cursor_name socketId sk;
                 cu_color := cursor_color (cursor_name socketId sk);
                 cu_position := position |}
              (default [] (roomCursorPositions st !! roomId))).
Proof.
  intros Hroom. cbn [handle].
  unfold both, relay, on_cursor_position_2, in_room. rewrite Hroom.
  cbn [fst sockets roomCursorPositions set_cursors]. split; [done|].
  by rewrite lookup_insert_eq.
Qed.

(** X6 — a cursor is replayed on request: after a connection in a room has
    sent cursor-position, request-cursors from another connection of the
    room is answered with that cursor (the connection's display name, the
    colour of that name, the position just sent); every answer goes to the
    requester alone and none is the requester's own cursor. *)
Theorem cursor_replayed_on_request (st : state) (a b : string)
    (ska skb : socket) (roomId : string) (fileId position selection : jsval) :
  io_socket st a = Some ska → room_of (sk_roomId ska) = Some roomId →
  io_socket st b = Some skb → room_of (sk_roomId skb) = Some roomId →
  a ≠ b →
  let st1 := (step st (Recv a (CursorPosition fileId position selection))).1 in
  let fx := (step st1 (Recv b RequestCursors)).2 in
  Emit (Direct b)
    (MCursor a (cursor_name a ska) (cursor_color (cursor_name a ska)) position)
  ∈ fx
  ∧ ∀ e, e ∈ fx →
         ∃ id name color pos,
           e = Emit (Direct b) (MCursor id name color pos) ∧ id ≠ b.
Proof.
  intros Ha Hra Hb Hrb Hne st1 fx. subst st1 fx. cbn [step]. rewrite Ha.
  destruct (cursor_position_state a ska fileId position selection st roomId Hra)
    as [Hs Hc].
  destruct (handle a ska (CursorPosition fileId position selection) st)
    as [st1 fx1]. cbn [fst] in *.
  assert (io_socket st1 b = Some skb) as -> by (unfold io_socket; by rewrite Hs).
  cbn [handle]. unfold on_request_cursors, in_room. rewrite Hrb, Hc. cbn [snd].
  split.
  - apply list_elem_of_fmap.
    exists (a, {| cu_username := cursor_name a ska;
                  cu_color := cursor_color (cursor_name a ska);
                  cu_position := position |}).
    split; [done|]. apply list_elem_of_filter. split; [done|].
    apply JsMap_get_Some_elem. rewrite JsMap_get_set. by rewrite decide_True.
  - intros e ([id c] & -> & [Hid _]%list_elem_of_filter)%list_elem_of_fmap.
    eauto 10.
Qed.

Lemma cursor_replayed_on_request_witness :
  let st := (run init [Connect "a" None; Connect "b" None;
                       Recv "a" (JoinRoom "ABC123" (Some "Zoë"));
                       Recv "b" (JoinRoom "ABC123" None)]).1 in
  let st1 := (step st (Recv "a" (CursorPosition JNull (JNum 7) JNull))).1 in
  code_units "Zoë" = [90; 111; 235]
  ∧ Emit (Direct "b") (MCursor "a" "Zoë" "#F472B6" (JNum 7))
    ∈ (step st1 (Recv "b" RequestCursors)).2.
Proof.
  intros st st1. split; [vm_compute; reflexivity|].
  destruct (io_socket st "a") as [ska|] eqn:Ha; [|by vm_compute in Ha].
  destruct (io_socket st "b") as [skb|] eqn:Hb; [|by vm_compute in Hb].
  assert (room_of (sk_roomId ska) = Some "ABC123"
          ∧ cursor_name "a" ska = "Zoë") as [Hra Hn]
    by (vm_compute in Ha; by injection Ha as <-).
  assert (room_of (sk_roomId skb) = Some "ABC123") as Hrb
    by (vm_compute in Hb; by injection Hb as <-).
  destruct (cursor_replayed_on_request st "a" "b" ska skb "ABC123"
              JNull (JNum 7) JNull Ha Hra Hb Hrb ltac:(done)) as [Hin _].
  rewrite Hn in Hin. exact Hin.
Defined.

(** ** Presence is only ever changed by its own events *)

Lemma handle_cursors socketId sk ev st :
  sockets st !! socketId = Some sk →
  cursor_event ev = false →
  roomCursorPositions (handle socketId sk ev st).1 = roomCursorPositions st.
Proof.
  intros Hsk Hev.
  destruct ev; try discriminate Hev; cbn [handle];
    try apply handleLeaveRoom_frame; try apply kick_frame;
    try apply end_session_frame;
    unfold on_code_change, on_intent_update, on_canvas_full_sync_1,
      on_canvas_full_sync_2, on_chat_message, on_request_cursors,
      on_host_mute_user, on_host_transfer, on_host_toggle_chat,
      on_voice_join_1, on_voice_join_2, on_voice_leave_1, on_voice_leave_2,
      on_voice_mute_1, on_voice_mute_2, relay, both, on_sk, in_room, host_only;
    repeat case_match; simplify_eq/=; done.
Qed.

(** X7 — leaving never cleans presence.  The voice rosters change only on
    voice events and the cursor registry only on cursor-position: a
    leave-room, a kick, the end of a session or a disconnect leaves the
    departed connection's roster entry and cursor where they are. *)
Theorem presence_untouched_by_other_inputs (st : state) (i : input) :
  (∀ socketId ev, i = Recv socketId ev →
                  voice_event ev = false ∧ cursor_event ev = false) →
  voiceRooms (step st i).1 = voiceRooms st
  ∧ roomCursorPositions (step st i).1 = roomCursorPositions st.
Proof.
  intros Hev. split.
  - apply step_voiceRooms_other. intros s ev Hi. by destruct (Hev s ev Hi).
  - destruct i as [s auth|s ev|s roomId db|s|now|k ok]; cbn [step].
    + unfold connect. by destruct (sockets st !! s).
    + destruct (io_socket st s) as [sk|] eqn:Hsk; [|done].
      apply handle_cursors; [by apply io_socket_heap|].
      by destruct (Hev s ev eq_refl).
    + case_bool_decide; [|done]. unfold on_sk. cbn [sockets set_joining].
      destruct (sockets st !! s) as [sk|]; [|done].
      unfold joinRoom_resume. destruct db; [done|].
      cbn [roomUsers roomSettings set_joining].
      by destruct (roomUsers st !! roomId), (roomSettings st !! roomId).
    + destruct (io_socket st s) as [sk|]; [|done]. unfold disconnect.
      by destruct (handleLeaveRoom_frame s
                     (set_socket s
                        {| sk_user := sk_user sk; sk_roomId := sk_roomId sk;
                           sk_displayName := sk_displayName sk;
                           sk_voicePeerId := sk_voicePeerId sk; sk_rooms := ∅;
                           sk_voiceParticipants := sk_voiceParticipants sk;
                           sk_connected := false |} st)) as (_ & -> & _).
    + by destruct (Debounce.elapse now (saves st)) as [[d fired] fx].
    + by destruct (Debounce.saved k ok (saves st)) as [d fx].
Qed.

Lemma presence_untouched_by_other_inputs_witness :
  let st := (run init [Connect "a" None;
                       Recv "a" (JoinRoom "ABC123" None);
                       Recv "a" (VoiceJoin "p1" None);
                       Recv "a" (CursorPosition JNull (JNum 3) JNull)]).1 in
  peer_ids (roster (step st (Disconnect "a")).1 "ABC123") = ["p1"]
  ∧ JsMap.keys <$> roomCursorPositions (step st (Disconnect "a")).1 !! "ABC123"
    = Some ["a"].
Proof.
  intros st.
  destruct (presence_untouched_by_other_inputs st (Disconnect "a"))
    as [Hv Hc]; [by intros s ev [=]|].
  unfold roster. rewrite Hv, Hc. split; vm_compute; reflexivity.
Defined.

(** ** Host controls *)

Lemma host_only_refuses (st : state) (socketId : string) (sk : socket)
    (ev : client_event) :
  io_socket st socketId = Some sk →
  isHost socketId sk st = false →
  host_command ev = true →
  ∃ message,
    step st (Recv socketId ev)
    = (st, [Emit (Direct socketId) (MHostError message)]).
Proof.
  intros Hsk Hnot Hev. cbn [step]. rewrite Hsk.
  destruct ev; try discriminate Hev; cbn [handle];
    unfold on_host_kick_user, on_host_mute_user, on_host_transfer,
      on_host_toggle_chat, on_host_end_session, host_only;
    rewrite Hnot; eauto.
Qed.

(** X8 — host commands need the host: a host command from a connection
    that is not the host of its current room changes nothing and is
    answered with one host-error to the sender. *)
Theorem host_commands_need_host (st : state) (socketId : string) (sk : socket)
    (ev : client_event) :
  io_socket st socketId = Some sk →
  isHost socketId sk st = false →
  host_command ev = true →
  ∃ message,
    step st (Recv socketId ev)
    = (st, [Emit (Direct socketId) (MHostError message)]).
Proof. apply host_only_refuses. Qed.

Lemma host_commands_need_host_witness :
  let st := (run init [Connect "h" None; Connect "m" None;
                       Recv "h" (JoinRoom "ABC123" None);
                       Recv "m" (JoinRoom "ABC123" None)]).1 in
  step st (Recv "m" (HostKickUser "h"))
  = (st, [Emit (Direct "m") (MHostError "Only the host can kick users")]).
Proof.
  intros st.
  destruct (io_socket st "m") as [sk|] eqn:Hsk; [|by vm_compute in Hsk].
  destruct (host_commands_need_host st "m" sk (HostKickUser "h") Hsk)
    as [message Hstep]; [|done|].
  - vm_compute in Hsk. injection Hsk as <-. vm_compute. reflexivity.
  - rewrite Hstep. f_equal. revert Hstep. cbn [step]. rewrite Hsk.
    cbn [handle]. unfold on_host_kick_user, host_only.
    destruct (isHost "m" sk st); [|by intros [= <-]].
    vm_compute in Hsk. injection Hsk as <-. vm_compute. by intros [= <-].
Defined.

(** The socket of a connection after the leave procedure has run for
    [socketId]: the one that left has no current room; another one is as it
    was. *)
Lemma handleLeaveRoom_sockets socketId st id :
  match sockets st !! id with
  | Some sk =>
      ∃ sk', sockets (handleLeaveRoom socketId st).1 !! id = Some sk'
             ∧ sk_connected sk' = sk_connected sk
             ∧ sk_user sk' = sk_user sk
             ∧ (if decide (id = socketId)
                then room_of (sk_roomId sk') = None
                else sk' = sk)
  | None => sockets (handleLeaveRoom socketId st).1 !! id = None
  end.
Proof.
  unfold handleLeaveRoom.
  destruct (sockets st !! socketId) as [sk0|] eqn:Hsk0.
  - destruct (room_of (sk_roomId sk0)) as [roomId|] eqn:Hroom.
    + assert (∀ st1 fx,
                sockets st1 = sockets st →
                match sockets st !! id with
                | Some sk =>
                    ∃ sk', sockets
                             (set_socket socketId
                                {| sk_user := sk_user sk0; sk_roomId := None;
                                   sk_displayName := sk_displayName sk0;
                                   sk_voicePeerId := sk_voicePeerId sk0;
                                   sk_rooms := sk_rooms sk0 ∖ {[roomId]};
                                   sk_voiceParticipants :=
                                     sk_voiceParticipants sk0;
                                   sk_connected := sk_connected sk0 |} st1,
                              fx : list effect).1 !! id = Some sk'
                           ∧ sk_connected sk' = sk_connected sk
                           ∧ sk_user sk' = sk_user sk
                           ∧ (if decide (id = socketId)
                              then room_of (sk_roomId sk') = None
                              else sk' = sk)
                | None =>
                    sockets
                      (set_socket socketId
                         {| sk_user := sk_user sk0; sk_roomId := None;
                            sk_displayName := sk_displayName sk0;
                            sk_voicePeerId := sk_voicePeerId sk0;
                            sk_rooms := sk_rooms sk0 ∖ {[roomId]};
                            sk_voiceParticipants := sk_voiceParticipants sk0;
                            sk_connected := sk_connected sk0 |} st1, fx).1
                    !! id = None
                end) as Hgen.
      { intros st1 fx Hs. cbn [fst sockets set_socket]. rewrite Hs.
        destruct (decide (id = socketId)) as [->|Hne].
        - rewrite Hsk0, lookup_insert_eq. eauto.
        - rewrite lookup_insert_ne by done.
          destruct (sockets st !! id); eauto. }
      destruct (roomUsers st !! roomId) as [users|]; [|by apply Hgen].
      destruct (bool_decide _); [destruct (JsMap.keys _)|];
        destruct (_ =? _)%nat; by apply Hgen.
    + cbn [fst]. destruct (decide (id = socketId)) as [->|Hne].
      * rewrite Hsk0. eauto.
      * destruct (sockets st !! id); eauto.
  - cbn [fst]. destruct (decide (id = socketId)) as [->|Hne].
    + by rewrite Hsk0.
    + destruct (sockets st !! id); eauto.
Qed.

Lemma handleLeaveRoom_not_member socketId sk roomId st :
  sockets st !! socketId = Some sk →
  room_of (sk_roomId sk) = Some roomId →
  ¬ is_member (handleLeaveRoom socketId st).1 roomId socketId.
Proof.
  intros Hsk Hroom (users' & Hu' & Hin). revert Hu'.
  unfold handleLeaveRoom. rewrite Hsk, Hroom.
  destruct (roomUsers st !! roomId) as [users|] eqn:Hu.
  - destruct (bool_decide _);
      [destruct (JsMap.keys (JsMap.delete socketId users)) eqn:Hk|];
      destruct (_ =? _)%nat; cbn [fst roomUsers set_socket set_rooms];
      rewrite ?lookup_delete_eq, ?lookup_insert_eq; try done;
      intros Heq; simplify_eq;
      apply JsMap_elem_of_keys_delete in Hin; tauto.
  - cbn [fst roomUsers set_socket]. by rewrite Hu.
Qed.

(** X9 — a kick removes the target: when the host kicks a live connection
    whose current room is the host's room, the target is told so first,
    then goes through the leave procedure: it is no longer a member of the
    room and has no current room. *)
Theorem kick_removes_target (st : state) (hostId targetId : string)
    (host target : socket) (roomId : string) :
  io_socket st hostId = Some host →
  room_of (sk_roomId host) = Some roomId →
  roomHosts st !! roomId = Some hostId →
  io_socket st targetId = Some target →
  sk_roomId target = Some roomId →
  let r := step st (Recv hostId (HostKickUser targetId)) in
  head r.2
  = Some (Emit (Direct targetId) (MYouWereKicked (u_username (sk_user host))))
  ∧ ¬ is_member r.1 roomId targetId
  ∧ ∃ sk', sockets r.1 !! targetId = Some sk' ∧ room_of (sk_roomId sk') = None.
Proof.
  intros Hh Hroom Hhost Ht Htr r. subst r. cbn [step]. rewrite Hh.
  cbn [handle]. unfold on_host_kick_user.
  rewrite (host_only_host _ _ _ _ _ roomId) by done.
  rewrite Ht. rewrite bool_decide_eq_true_2 by done.
  pose proof (io_socket_heap _ _ _ Ht) as Hheap.
  assert (room_of (sk_roomId target) = Some roomId) as Htroom.
  { rewrite Htr. pose proof (room_of_Some _ _ Hroom) as Hcur.
    by rewrite Hcur in Hroom. }
  pose proof (handleLeaveRoom_not_member targetId target roomId st Hheap Htroom)
    as Hgone.
  pose proof (handleLeaveRoom_sockets targetId st targetId) as Hs.
  rewrite Hheap in Hs. destruct Hs as (sk' & Hsk' & _ & _ & Hcl).
  rewrite decide_True in Hcl by done.
  destruct (handleLeaveRoom targetId st) as [st' fx]. cbn [fst snd] in *.
  split_and!; [done|done|eauto].
Qed.

Lemma kick_removes_target_witness :
  let st := (run init [Connect "h" None; Connect "m" None;
                       Recv "h" (JoinRoom "ABC123" None);
                       Recv "m" (JoinRoom "ABC123" None)]).1 in
  ¬ is_member (step st (Recv "h" (HostKickUser "m"))).1 "ABC123" "m".
Proof.
  intros st.
  destruct (io_socket st "h") as [host|] eqn:Hh; [|by vm_compute in Hh].
  destruct (io_socket st "m") as [target|] eqn:Ht; [|by vm_compute in Ht].
  apply (kick_removes_target st "h" "m" host target "ABC123" Hh).
  - vm_compute in Hh. by injection Hh as <-.
  - vm_compute. reflexivity.
  - exact Ht.
  - vm_compute in Ht. by injection Ht as <-.
Defined.

(** X10 — a kick that finds no one is silent: when the target is not a
    live connection, or its current room is not the host's room, the host's
    kick changes nothing and emits nothing, not even an error to the
    host. *)
Theorem kick_without_target_is_silent (st : state) (hostId targetId : string)
    (host : socket) (roomId : string) :
  io_socket st hostId = Some host →
  room_of (sk_roomId host) = Some roomId →
  roomHosts st !! roomId = Some hostId →
  (∀ target, io_socket st targetId = Some target →
             sk_roomId target ≠ Some roomId) →
  step st (Recv hostId (HostKickUser targetId)) = (st, []).
Proof.
  intros Hh Hroom Hhost Hno. cbn [step]. rewrite Hh.
  cbn [handle]. unfold on_host_kick_user.
  rewrite (host_only_host _ _ _ _ _ roomId) by done.
  destruct (io_socket st targetId) as [target|]; [|done].
  rewrite bool_decide_eq_false_2; [done|]. by apply Hno.
Qed.

Lemma kick_without_target_is_silent_witness :
  let st := (run init [Connect "h" None; Connect "x" None;
                       Recv "h" (JoinRoom "ABC123" None);
                       Recv "x" (JoinRoom "OTHER1" None)]).1 in
  step st (Recv "h" (HostKickUser "x")) = (st, [])
  ∧ step st (Recv "h" (HostKickUser "nobody")) = (st, []).
Proof.
  intros st.
  destruct (io_socket st "h") as [host|] eqn:Hh; [|by vm_compute in Hh].
  assert (room_of (sk_roomId host) = Some "ABC123") as Hroom
    by (vm_compute in Hh; by injection Hh as <-).
  split.
  - apply (kick_without_target_is_silent st "h" "x" host "ABC123" Hh Hroom).
    + vm_compute. reflexivity.
    + intros target Ht. vm_compute in Ht. by injection Ht as <-.
  - apply (kick_without_target_is_silent st "h" "nobody" host "ABC123" Hh Hroom).
    + vm_compute. reflexivity.
    + intros target Ht. by vm_compute in Ht.
Defined.

Lemma leave_keeps_roomless socketId st id :
  roomless st id → roomless (handleLeaveRoom socketId st).1 id.
Proof.
  intros (sk & Hsk & Hr). pose proof (handleLeaveRoom_sockets socketId st id) as H.
  rewrite Hsk in H. destruct H as (sk' & Hsk' & _ & _ & Hcase).
  exists sk'. split; [done|]. destruct (decide (id = socketId)); congruence.
Qed.

Lemma leave_keeps_live socketId st id :
  is_Some (io_socket st id) → is_Some (io_socket (handleLeaveRoom socketId st).1 id).
Proof.
  unfold io_socket. pose proof (handleLeaveRoom_sockets socketId st id) as H.
  destruct (sockets st !! id) as [sk|]; [|by intros [? [=]]].
  destruct H as (sk' & -> & -> & _). by destruct (sk_connected sk).
Qed.

Lemma leave_all_roomless ids : ∀ st id,
  (roomless st id → roomless (leave_all ids st).1 id)
  ∧ (is_Some (io_socket st id) → is_Some (io_socket (leave_all ids st).1 id))
  ∧ (id ∈ ids → is_Some (io_socket st id) → roomless (leave_all ids st).1 id).
Proof.
  induction ids as [|id0 ids IH]; intros st id.
  { split_and!; [done..|]. intros H. inversion H. }
  cbn [leave_all].
  destruct (io_socket st id0) as [sk0|] eqn:Hio.
  - pose proof (leave_keeps_roomless id0 st id) as H1.
    pose proof (leave_keeps_live id0 st id) as H2.
    pose proof (leave_clears_room st id0) as H3.
    pose proof (handleLeaveRoom_sockets id0 st id0) as H4.
    rewrite (io_socket_heap _ _ _ Hio) in H4.
    destruct H4 as (sk' & Hsk' & _).
    destruct (handleLeaveRoom id0 st) as [st1 fx1]. cbn [fst] in *.
    destruct (IH st1 id) as (I1 & I2 & I3).
    destruct (leave_all ids st1) as [st2 fx2]. cbn [fst] in *.
    split_and!; [tauto|tauto|].
    intros [->|Hin]%elem_of_cons Hlive; [|tauto].
    apply I1. exists sk'. split; [done|]. by rewrite Hsk' in H3.
  - destruct (IH st id) as (I1 & I2 & I3).
    destruct (leave_all ids st) as [st2 fx2]. cbn [fst] in *.
    split_and!; [done..|].
    intros [->|Hin]%elem_of_cons Hlive; [|tauto].
    rewrite Hio in Hlive. by destruct Hlive.
Qed.

(** X11 — the end of a session.  When the host ends the session,
    session-ended goes to the whole room first; afterwards the room has no
    membership map, no host assignment and no settings, and every live
    connection that was a key of the membership map has no current room. *)
Theorem end_session_clears_room (st : state) (hostId : string) (host : socket)
    (roomId : string) :
  io_socket st hostId = Some host →
  room_of (sk_roomId host) = Some roomId →
  roomHosts st !! roomId = Some hostId →
  let r := step st (Recv hostId HostEndSession) in
  head r.2 = Some (Emit (Room roomId) (MSessionEnded (u_username (sk_user host))))
  ∧ roomUsers r.1 !! roomId = None
  ∧ roomHosts r.1 !! roomId = None
  ∧ roomSettings r.1 !! roomId = None
  ∧ ∀ users id,
      roomUsers st !! roomId = Some users → id ∈ JsMap.keys users →
      is_Some (io_socket st id) → roomless r.1 id.
Proof.
  intros Hh Hroom Hhost r. subst r. cbn [step]. rewrite Hh. cbn [handle].
  unfold on_host_end_session.
  rewrite (host_only_host _ _ _ _ _ roomId) by done.
  match goal with |- context [leave_all ?ids st] =>
    pose proof (λ id, proj2 (proj2 (leave_all_roomless ids st id))) as Hall;
    destruct (leave_all ids st) as [st' fx]
  end.
  cbn [fst snd head roomUsers roomHosts roomSettings set_rooms] in *.
  rewrite !lookup_delete_eq. split_and!; [done..|].
  intros users id Hu Hin Hlive. rewrite Hu in Hall.
  destruct (Hall id Hin Hlive) as (sk & Hsk & Hr). by exists sk.
Qed.

Lemma end_session_clears_room_witness :
  let st := (run init [Connect "h" None; Connect "m" None;
                       Recv "h" (JoinRoom "ABC123" None);
                       Recv "m" (JoinRoom "ABC123" None)]).1 in
  roomUsers (step st (Recv "h" HostEndSession)).1 !! "ABC123" = None
  ∧ roomless (step st (Recv "h" HostEndSession)).1 "m".
Proof.
  intros st.
  destruct (io_socket st "h") as [host|] eqn:Hh; [|by vm_compute in Hh].
  assert (room_of (sk_roomId host) = Some "ABC123") as Hroom
    by (vm_compute in Hh; by injection Hh as <-).
  destruct (end_session_clears_room st "h" host "ABC123" Hh Hroom
              ltac:(vm_compute; reflexivity)) as (_ & Hu & _ & _ & Hall).
  split; [exact Hu|].
  destruct (roomUsers st !! "ABC123") as [users|] eqn:Husers;
    [|by vm_compute in Husers].
  apply (Hall users "m" eq_refl).
  - vm_compute in Husers. injection Husers as <-. vm_compute.
    apply list_elem_of_further, list_elem_of_here.
  - vm_compute. eauto.
Defined.

(** X12 — host-transfer hands the role over.  When the host names a member
    of its room other than itself, that member becomes the host and
    host-changed goes to the whole room; in the state the transfer leaves,
    a host command of the previous host, whichever it is, is refused with
    host-error and changes nothing. *)
Theorem host_transfer_hands_over (st : state) (hostId targetId : string)
    (host : socket) (roomId : string) (users : list (string * member)) :
  io_socket st hostId = Some host →
  room_of (sk_roomId host) = Some roomId →
  roomHosts st !! roomId = Some hostId →
  roomUsers st !! roomId = Some users →
  targetId ∈ JsMap.keys users → targetId ≠ hostId →
  let r := step st (Recv hostId (HostTransfer targetId)) in
  r.2 = [Emit (Room roomId) (MHostChanged targetId)]
  ∧ roomHosts r.1 !! roomId = Some targetId
  ∧ roomUsers r.1 = roomUsers st
  ∧ ∀ ev, host_command ev = true →
          ∃ message,
            step r.1 (Recv hostId ev)
            = (r.1, [Emit (Direct hostId) (MHostError message)]).
Proof.
  intros Hh Hroom Hhost Hu Hin Hne r. subst r. cbn [step]. rewrite Hh.
  cbn [handle]. unfold on_host_transfer.
  rewrite (host_only_host _ _ _ _ _ roomId) by done. rewrite Hu.
  rewrite (proj2 (JsMap_has_keys users targetId)) by done.
  cbn [fst snd roomHosts roomUsers set_rooms]. rewrite lookup_insert_eq.
  split_and!; [done..|]. intros ev Hev.
  apply (host_only_refuses _ hostId host); [done| |done].
  unfold isHost. rewrite Hroom. cbn [roomHosts set_rooms].
  rewrite lookup_insert_eq. apply bool_decide_eq_false_2. congruence.
Qed.

Lemma host_transfer_hands_over_witness :
  let st := (run init [Connect "h" None; Connect "m" None;
                       Recv "h" (JoinRoom "ABC123" None);
                       Recv "m" (JoinRoom "ABC123" None)]).1 in
  roomHosts (step st (Recv "h" (HostTransfer "m"))).1 !! "ABC123" = Some "m".
Proof.
  intros st.
  destruct (io_socket st "h") as [host|] eqn:Hh; [|by vm_compute in Hh].
  destruct (roomUsers st !! "ABC123") as [users|] eqn:Hu; [|by vm_compute in Hu].
  apply (host_transfer_hands_over st "h" "m" host "ABC123" users Hh);
    [| |exact Hu| |done].
  - vm_compute in Hh. by injection Hh as <-.
  - vm_compute. reflexivity.
  - vm_compute in Hu. injection Hu as <-. vm_compute.
    apply list_elem_of_further, list_elem_of_here.
Defined.

(** ** Leaving, case by case *)

(** X13 — a member that is not the host leaves a room in which someone
    else stays: the host assignment is untouched, nothing is said about the
    host, the membership map loses that one key, and user-left with the
    remaining members goes to the others. *)
Theorem member_leave_keeps_host (st : state) (socketId : string) (sk : socket)
    (roomId other : string) (users : list (string * member)) :
  io_socket st socketId = Some sk →
  room_of (sk_roomId sk) = Some roomId →
  roomUsers st !! roomId = Some users →
  roomHosts st !! roomId ≠ Some socketId →
  other ∈ JsMap.keys users → other ≠ socketId →
  let r := step st (Recv socketId LeaveRoom) in
  roomHosts r.1 = roomHosts st
  ∧ roomSettings r.1 = roomSettings st
  ∧ roomUsers r.1 = <[roomId := JsMap.delete socketId users]> (roomUsers st)
  ∧ r.2 = [Emit (RoomExcept roomId socketId)
             (MUserLeft (u_id (sk_user sk)) (u_username (sk_user sk)) socketId
                (JsMap.values (JsMap.delete socketId users))
                (roomHosts st !! roomId))].
Proof.
  intros Hsk Hroom Hu Hnh Hin Hne r. subst r. cbn [step]. rewrite Hsk.
  cbn [handle]. unfold handleLeaveRoom.
  rewrite (io_socket_heap _ _ _ Hsk), Hroom, Hu.
  rewrite bool_decide_eq_false_2 by done.
  assert ((JsMap.size (JsMap.delete socketId users) =? 0)%nat = false) as ->.
  { apply Nat.eqb_neq. unfold JsMap.size. intros Hz.
    apply length_zero_iff_nil in Hz.
    assert (other ∈ JsMap.keys (JsMap.delete socketId users)) as Ho
      by (by apply JsMap_elem_of_keys_delete).
    rewrite Hz in Ho. inversion Ho. }
  done.
Qed.

Lemma member_leave_keeps_host_witness :
  let st := (run init [Connect "h" None; Connect "m" None;
                       Recv "h" (JoinRoom "ABC123" None);
                       Recv "m" (JoinRoom "ABC123" None)]).1 in
  roomHosts (step st (Recv "m" LeaveRoom)).1 !! "ABC123" = Some "h".
Proof.
  intros st.
  destruct (io_socket st "m") as [sk|] eqn:Hsk; [|by vm_compute in Hsk].
  destruct (roomUsers st !! "ABC123") as [users|] eqn:Hu; [|by vm_compute in Hu].
  destruct (member_leave_keeps_host st "m" sk "ABC123" "h" users Hsk)
    as (-> & _); [| exact Hu | | | done |].
  - vm_compute in Hsk. by injection Hsk as <-.
  - vm_compute. discriminate.
  - vm_compute in Hu. injection Hu as <-. vm_compute. apply list_elem_of_here.
  - vm_compute. reflexivity.
Defined.

(** X14 — the last member leaves: the room's membership map, host
    assignment and settings are deleted together, no host-changed is
    emitted, and the one user-left (to the others, of whom there are none)
    carries an empty member list. *)
Theorem last_leave_deletes_room (st : state) (socketId : string) (sk : socket)
    (roomId : string) (users : list (string * member)) :
  io_socket st socketId = Some sk →
  room_of (sk_roomId sk) = Some roomId →
  roomUsers st !! roomId = Some users →
  (∀ id, id ∈ JsMap.keys users → id = socketId) →
  let r := step st (Recv socketId LeaveRoom) in
  roomUsers r.1 = delete roomId (roomUsers st)
  ∧ roomHosts r.1 = delete roomId (roomHosts st)
  ∧ roomSettings r.1 = delete roomId (roomSettings st)
  ∧ r.2 = [Emit (RoomExcept roomId socketId)
             (MUserLeft (u_id (sk_user sk)) (u_username (sk_user sk)) socketId
                [] (roomHosts st !! roomId))].
Proof.
  intros Hsk Hroom Hu Honly r. subst r. cbn [step]. rewrite Hsk.
  cbn [handle]. unfold handleLeaveRoom.
  rewrite (io_socket_heap _ _ _ Hsk), Hroom, Hu.
  assert (JsMap.delete socketId users = []) as ->.
  { destruct (JsMap.delete socketId users) as [|[k v] rest] eqn:Hd; [done|].
    assert (k ∈ JsMap.keys (JsMap.delete socketId users)) as Hk
      by (rewrite Hd; apply list_elem_of_here).
    apply JsMap_elem_of_keys_delete in Hk as [Hne Hk]. by apply Honly in Hk. }
  cbn [JsMap.keys JsMap.size JsMap.values fmap list_fmap length Nat.eqb].
  by destruct (bool_decide _).
Qed.

Lemma last_leave_deletes_room_witness :
  let st := (run init [Connect "h" None;
                       Recv "h" (JoinRoom "ABC123" None)]).1 in
  roomSettings (step st (Recv "h" LeaveRoom)).1 !! "ABC123" = None.
Proof.
  intros st.
  destruct (io_socket st "h") as [sk|] eqn:Hsk; [|by vm_compute in Hsk].
  destruct (roomUsers st !! "ABC123") as [users|] eqn:Hu; [|by vm_compute in Hu].
  destruct (last_leave_deletes_room st "h" sk "ABC123" users Hsk)
    as (_ & _ & -> & _); [| exact Hu | |].
  - vm_compute in Hsk. by injection Hsk as <-.
  - intros id Hid. vm_compute in Hu. injection Hu as <-. vm_compute in Hid.
    by apply list_elem_of_singleton in Hid.
  - apply lookup_delete_eq.
Defined.

(** ** The three registries of a room go together *)

Lemma rooms_settled_frame st st' :
  roomUsers st' = roomUsers st → roomHosts st' = roomHosts st →
  roomSettings st' = roomSettings st →
  rooms_settled st → rooms_settled st'.
Proof. unfold rooms_settled. by intros -> -> ->. Qed.

Lemma JsMap_size_nil {V} (m : list (string * V)) :
  (JsMap.size m =? 0)%nat = true ↔ m = [].
Proof.
  unfold JsMap.size. rewrite Nat.eqb_eq. apply length_zero_iff_nil.
Qed.

Lemma leave_rooms_settled socketId st :
  rooms_settled st → rooms_settled (handleLeaveRoom socketId st).1.
Proof.
  intros Hinv. unfold handleLeaveRoom.
  destruct (sockets st !! socketId) as [sk|]; [|done].
  destruct (room_of (sk_roomId sk)) as [roomId|]; [|done].
  destruct (roomUsers st !! roomId) as [users|] eqn:Hu; [|done].
  destruct (Hinv _ _ Hu) as (_ & Hh & Hs).
  destruct (JsMap.size (JsMap.delete socketId users) =? 0)%nat eqn:Hsz.
  - apply JsMap_size_nil in Hsz. rewrite Hsz. cbn [JsMap.keys fmap list_fmap].
    destruct (bool_decide _); cbn [fst]; intros r u;
      cbn [roomUsers roomHosts roomSettings set_socket set_rooms];
      (destruct (decide (r = roomId)) as [->|Hne];
        [by rewrite lookup_delete_eq
        |rewrite !lookup_delete_ne by done; apply Hinv]).
  - assert (JsMap.delete socketId users ≠ []) as Hnil.
    { intros Hnil. apply JsMap_size_nil in Hnil. congruence. }
    destruct (bool_decide _);
      [destruct (JsMap.keys (JsMap.delete socketId users)) as [|n rest]|];
      cbn [fst]; intros r u;
      cbn [roomUsers roomHosts roomSettings set_socket set_rooms];
      (destruct (decide (r = roomId)) as [->|Hne];
        [rewrite ?lookup_insert_eq; intros [= <-]; split_and!; eauto
        |rewrite ?lookup_insert_ne by done; apply Hinv]).
Qed.

Lemma leave_all_rooms_settled ids : ∀ st,
  rooms_settled st → rooms_settled (leave_all ids st).1.
Proof.
  induction ids as [|id ids IH]; intros st Hinv; [done|]. cbn [leave_all].
  destruct (io_socket st id) as [sk|].
  - pose proof (leave_rooms_settled id st Hinv) as H1.
    destruct (handleLeaveRoom id st) as [st1 fx1]. cbn [fst] in H1.
    specialize (IH st1 H1). by destruct (leave_all ids st1).
  - specialize (IH st Hinv). by destruct (leave_all ids st).
Qed.

Lemma join_begin_rooms_settled socketId sk roomId displayName st :
  rooms_settled st →
  rooms_settled (joinRoom_begin socketId sk roomId displayName st).
Proof.
  intros Hinv r u. unfold joinRoom_begin.
  cbn [roomUsers roomHosts roomSettings set_joining set_socket set_rooms].
  destruct (decide (r = roomId)) as [->|Hne].
  - rewrite lookup_insert_eq. intros [= <-]. split_and!.
    + apply JsMap_set_not_nil.
    + destruct (roomHosts st !! roomId) eqn:Hh; [by rewrite Hh|].
      by rewrite lookup_insert_eq.
    + destruct (roomSettings st !! roomId) eqn:Hs; [by rewrite Hs|].
      by rewrite lookup_insert_eq.
  - rewrite lookup_insert_ne by done. intros Hr.
    destruct (Hinv _ _ Hr) as (? & Hh & Hs). split_and!; [done| |].
    + destruct (roomHosts st !! roomId); [done|]. by rewrite lookup_insert_ne.
    + destruct (roomSettings st !! roomId); [done|].
      by rewrite lookup_insert_ne.
Qed.

Lemma join_resume_rooms_settled socketId sk roomId db st :
  rooms_settled st →
  rooms_settled (joinRoom_resume socketId sk roomId db st).1.
Proof.
  intros Hinv. unfold joinRoom_resume. destruct db as [|rs doc]; [done|].
  set (rh := match doc with Some _ => _ | None => _ end).
  assert (∀ r, is_Some (roomHosts st !! r) → is_Some (rh !! r)) as Hrh.
  { intros r Hr. subst rh.
    assert (is_Some (<[roomId := socketId]> (roomHosts st) !! r)) as Hc.
    { destruct (decide (r = roomId)) as [->|Hne];
        [by rewrite lookup_insert_eq|by rewrite lookup_insert_ne]. }
    repeat case_match; done. }
  assert (rooms_settled (set_rooms (roomUsers st) rh (roomSettings st) st)).
  { intros r u Hr. cbn [roomUsers roomHosts roomSettings set_rooms] in *.
    destruct (Hinv _ _ Hr) as (? & ? & ?). split_and!; auto. }
  by destruct (roomUsers st !! roomId), (roomSettings st !! roomId).
Qed.

Lemma handle_rooms_settled socketId sk ev st :
  rooms_settled st → rooms_settled (handle socketId sk ev st).1.
Proof.
  intros Hinv.
  destruct ev; cbn [handle fst];
    try (by apply join_begin_rooms_settled);
    try (by apply leave_rooms_settled).
  all: try (apply (rooms_settled_frame st); [..|done];
            unfold on_code_change, on_canvas_full_sync_1,
              on_canvas_full_sync_2, on_chat_message, on_cursor_position_2,
              on_request_cursors, on_host_mute_user,
              on_voice_join_1, on_voice_join_2, on_voice_leave_1,
              on_voice_leave_2, on_voice_mute_1, on_voice_mute_2, relay, both,
              on_sk, in_room, host_only;
            repeat case_match; simplify_eq/=; done).
  - (* intent-update *)
    unfold on_intent_update, in_room.
    destruct (room_of (sk_roomId sk)) as [roomId|]; [|done]. cbn [fst].
    destruct (roomUsers st !! roomId) as [users|] eqn:Hu; [|done].
    destruct (JsMap.get socketId users) as [info|]; [|done].
    intros r u. cbn [roomUsers roomHosts roomSettings set_rooms].
    destruct (decide (r = roomId)) as [->|Hne].
    + rewrite lookup_insert_eq. intros [= <-].
      destruct (Hinv _ _ Hu) as (_ & ? & ?).
      split_and!; [apply JsMap_set_not_nil|done..].
    + rewrite lookup_insert_ne by done. apply Hinv.
  - (* host-kick-user *)
    unfold on_host_kick_user, host_only.
    destruct (isHost socketId sk st); [|done].
    destruct (room_of (sk_roomId sk)) as [roomId|]; [|done].
    destruct (io_socket st targetSocketId) as [target|]; [|done].
    destruct (bool_decide _); [|done].
    pose proof (leave_rooms_settled targetSocketId st Hinv) as H1.
    by destruct (handleLeaveRoom targetSocketId st).
  - (* host-transfer *)
    unfold on_host_transfer, host_only.
    destruct (isHost socketId sk st); [|done].
    destruct (room_of (sk_roomId sk)) as [roomId|]; [|done].
    destruct (roomUsers st !! roomId) as [users|]; [|done].
    destruct (JsMap.has targetSocketId users); [|done]. cbn [fst].
    intros r u Hr. cbn [roomUsers roomHosts roomSettings set_rooms] in *.
    destruct (Hinv _ _ Hr) as (? & ? & ?). split_and!; [done| |done].
    destruct (decide (r = roomId)) as [->|Hne];
      [by rewrite lookup_insert_eq|by rewrite lookup_insert_ne].
  - (* host-toggle-chat *)
    unfold on_host_toggle_chat, host_only.
    destruct (isHost socketId sk st); [|done].
    destruct (room_of (sk_roomId sk)) as [roomId|]; [|done]. cbn [fst].
    intros r u Hr. cbn [roomUsers roomHosts roomSettings set_rooms] in *.
    destruct (Hinv _ _ Hr) as (? & ? & Hs). split_and!; [done..|].
    destruct (roomSettings st !! roomId) eqn:Hc; [|done].
    destruct (decide (r = roomId)) as [->|Hne];
      [by rewrite lookup_insert_eq|by rewrite lookup_insert_ne].
  - (* host-end-session *)
    unfold on_host_end_session, host_only.
    destruct (isHost socketId sk st); [|done].
    destruct (room_of (sk_roomId sk)) as [roomId|]; [|done].
    set (ids := match roomUsers st !! roomId with
                | Some users => JsMap.keys users | None => [] end).
    pose proof (leave_all_rooms_settled ids st Hinv) as H1.
    destruct (leave_all ids st) as [st1 fx1]. cbn [fst] in *.
    intros r u. cbn [roomUsers roomHosts roomSettings set_rooms].
    destruct (decide (r = roomId)) as [->|Hne];
      [by rewrite lookup_delete_eq
      |rewrite !lookup_delete_ne by done; apply H1].
Qed.

Lemma step_rooms_settled st i :
  rooms_settled st → rooms_settled (step st i).1.
Proof.
  intros Hinv.
  destruct i as [s auth|s ev|s roomId db|s|now|k ok]; cbn [step].
  - unfold connect. by destruct (sockets st !! s).
  - destruct (io_socket st s) as [sk|]; [|done].
    by apply handle_rooms_settled.
  - case_bool_decide; [|done]. unfold on_sk. cbn [sockets set_joining].
    destruct (sockets st !! s) as [sk|]; [|done].
    by apply join_resume_rooms_settled.
  - destruct (io_socket st s) as [sk|]; [|done]. unfold disconnect.
    by apply leave_rooms_settled.
  - destruct (Debounce.elapse now (saves st)) as [[d ?] fx]. done.
  - destruct (Debounce.saved k ok (saves st)) as [d fx]. done.
Qed.

Lemma reachable_rooms_settled st : reachable st → rooms_settled st.
Proof.
  induction 1 as [|st i _ IH _].
  - intros r u Hr. cbn [roomUsers init] in Hr. by rewrite lookup_empty in Hr.
  - by apply step_rooms_settled.
Qed.

(** X15 — the registries of a room go together.  In every state the
    server reaches, a room that has a membership map has at least one
    member in it, a host assignment and a chat setting: the three entries
    are created by the first join and deleted together when the map runs
    empty or the session is ended. *)
Theorem registries_go_together (st : state) :
  reachable st → rooms_settled st.
Proof. apply reachable_rooms_settled. Qed.

Lemma registries_go_together_witness :
  let st := (run init [Connect "h" None; Connect "m" None;
                       Recv "h" (JoinRoom "ABC123" None);
                       Recv "m" (JoinRoom "ABC123" None);
                       Recv "h" LeaveRoom]).1 in
  JsMap.keys <$> roomUsers st !! "ABC123" = Some ["m"]
  ∧ is_Some (roomHosts st !! "ABC123")
  ∧ is_Some (roomSettings st !! "ABC123").
Proof.
  intros st. split; [vm_compute; reflexivity|].
  destruct (roomUsers st !! "ABC123") as [users|] eqn:Hu;
    [|by vm_compute in Hu].
  by destruct (registries_go_together st
                 (reachable_run_any _ _ (reach_init _)) "ABC123" users Hu)
    as (_ & ? & ?).
Defined.

(** ** join-room, from the event to the answer *)

(** X16 — a join that resumes while its room has a membership map is
    always answered: the joiner gets room-state and the others user-joined,
    both with the member list as it is then and with the host the registry
    holds afterwards, which is the joiner or the host there was.  The lookup
    of the settings cannot fail there. *)
Theorem resumed_join_reports_room (st : state) (socketId roomId : string)
    (sk : socket) (users : list (string * member)) (roomState : jsval)
    (roomDoc : option (option string)) :
  reachable st →
  (socketId, roomId) ∈ joining st →
  sockets st !! socketId = Some sk →
  roomUsers st !! roomId = Some users →
  let r := step st (Resume socketId roomId (DbOk roomState roomDoc)) in
  ∃ hostId chatDisabled,
    roomHosts r.1 !! roomId = Some hostId
    ∧ roomSettings st !! roomId = Some chatDisabled
    ∧ (hostId = socketId ∨ roomHosts st !! roomId = Some hostId)
    ∧ r.2 = [Emit (Direct socketId)
               (MRoomState roomId roomState (JsMap.values users) (Some hostId)
                  chatDisabled);
             Emit (RoomExcept roomId socketId)
               (MUserJoined (u_id (sk_user sk)) (u_username (sk_user sk))
                  socketId (JsMap.values users) (Some hostId))].
Proof.
  intros Hreach Hjoin Hsk Hu r. subst r.
  destruct (reachable_rooms_settled st Hreach _ _ Hu)
    as (_ & [h Hh] & [c Hc]).
  cbn [step]. rewrite bool_decide_eq_true_2 by done.
  unfold on_sk. cbn [sockets set_joining]. rewrite Hsk.
  unfold joinRoom_resume. cbn [roomUsers roomHosts roomSettings set_joining].
  rewrite Hu, Hc, Hh. cbn [fst snd roomHosts set_rooms].
  destruct roomDoc as [host|]; [destruct (bool_decide _)|].
  - exists socketId, c. rewrite lookup_insert_eq. split_and!; auto.
  - exists h, c. rewrite Hh. split_and!; auto.
  - exists h, c. rewrite Hh. split_and!; auto.
Qed.

Lemma resumed_join_reports_room_witness :
  let st := (run init [Connect "h" None; Connect "m" None;
                       Recv "h" (JoinRoom "ABC123" None);
                       Recv "m" (JoinRoom "ABC123" None);
                       Recv "m" LeaveRoom]).1 in
  ∃ users,
    (step st (Resume "m" "ABC123" (DbOk JNull None))).2
    = [Emit (Direct "m") (MRoomState "ABC123" JNull users (Some "h") false);
       Emit (RoomExcept "ABC123" "m")
         (MUserJoined "guest-m" "Guest-m" "m" users (Some "h"))]
    ∧ m_socketId <$> users = ["h"].
Proof.
  intros st.
  destruct (sockets st !! "m") as [sk|] eqn:Hsk; [|by vm_compute in Hsk].
  destruct (roomUsers st !! "ABC123") as [users|] eqn:Hu;
    [|by vm_compute in Hu].
  destruct (resumed_join_reports_room st "m" "ABC123" sk users JNull None)
    as (hostId & chat & Hh & Hc & _ & Hfx); [| |done..|].
  - apply reachable_run_any, reach_init.
  - vm_compute. repeat first [apply list_elem_of_here | apply list_elem_of_further].
  - exists (JsMap.values users). rewrite Hfx.
    vm_compute in Hsk. injection Hsk as <-.
    vm_compute in Hc. injection Hc as <-.
    vm_compute in Hh. injection Hh as <-.
    vm_compute in Hu. injection Hu as <-. split; vm_compute; reflexivity.
Defined.

(** X17 — a join that fails in the database is not rolled back.  What ran
    before the lookups stays: the connection is a member of the room with
    the room as its current room, the room has a host, and all the joiner
    is sent is the error message. *)
Theorem failed_join_is_not_rolled_back (st : state) (socketId : string)
    (sk : socket) (roomId : string) (displayName : option string) :
  io_socket st socketId = Some sk →
  let r := run st [Recv socketId (JoinRoom roomId displayName);
                   Resume socketId roomId DbFail] in
  r.2 = [Emit (Direct socketId) (MError "Failed to join room")]
  ∧ is_member r.1 roomId socketId
  ∧ (∃ sk', sockets r.1 !! socketId = Some sk' ∧ sk_roomId sk' = Some roomId)
  ∧ is_Some (roomHosts r.1 !! roomId).
Proof.
  intros Hsk r. subst r. cbn [run step]. rewrite Hsk. cbn [handle].
  set (st1 := joinRoom_begin socketId sk roomId displayName st).
  assert ((socketId, roomId) ∈ joining st1) as Hj.
  { subst st1. unfold joinRoom_begin. cbn [joining set_joining].
    apply elem_of_app. right. apply list_elem_of_here. }
  rewrite bool_decide_eq_true_2 by done.
  unfold on_sk. cbn [sockets set_joining].
  assert (∃ sk', sockets st1 !! socketId = Some sk'
                 ∧ sk_roomId sk' = Some roomId) as (sk' & Hsk' & Hroom).
  { subst st1. unfold joinRoom_begin. cbn [sockets set_joining set_socket].
    rewrite lookup_insert_eq. eauto. }
  rewrite Hsk'. cbn [joinRoom_resume fst snd app]. split_and!.
  - done.
  - subst st1. unfold is_member, joinRoom_begin.
    cbn [roomUsers set_joining set_socket set_rooms].
    rewrite lookup_insert_eq. eexists. split; [done|].
    apply JsMap_elem_of_keys_set. by left.
  - cbn [sockets set_joining]. eauto.
  - subst st1. unfold joinRoom_begin.
    cbn [roomHosts set_joining set_socket set_rooms].
    destruct (roomHosts st !! roomId) eqn:Hh; [by rewrite Hh|].
    by rewrite lookup_insert_eq.
Qed.

Lemma failed_join_is_not_rolled_back_witness :
  let st := (run init [Connect "a" None]).1 in
  is_member (run st [Recv "a" (JoinRoom "ABC123" None);
                     Resume "a" "ABC123" DbFail]).1 "ABC123" "a".
Proof.
  intros st.
  destruct (io_socket st "a") as [sk|] eqn:Hsk; [|by vm_compute in Hsk].
  by destruct (failed_join_is_not_rolled_back st "a" sk "ABC123" None Hsk)
    as (_ & Hm & _).
Defined.

(** X18 — a join whose lookups return before anything else happens.  The
    joiner is in the member list it is sent, under the trimmed display
    name when that is not blank and with no intent; the host it is told is
    the joiner when the Room document names the joiner's account, otherwise
    the host the room had, otherwise the joiner; the chat flag is the
    room's, false for a new room. *)
Theorem atomic_join_reports_joiner (st : state) (socketId : string)
    (sk : socket) (roomId : string) (displayName : option string)
    (roomState : jsval) (roomDoc : option (option string)) :
  io_socket st socketId = Some sk →
  let r := run st [Recv socketId (JoinRoom roomId displayName);
                   Resume socketId roomId (DbOk roomState roomDoc)] in
  let name := name_after_join displayName sk in
  let hostId :=
    if bool_decide (roomDoc = Some (Some (u_id (sk_user sk)))) then socketId
    else default socketId (roomHosts st !! roomId) in
  let chatDisabled := default false (roomSettings st !! roomId) in
  ∃ users,
    roomUsers r.1 !! roomId = Some users
    ∧ JsMap.get socketId users
      = Some {| m_id := u_id (sk_user sk); m_username := name;
                m_isGuest := u_isGuest (sk_user sk); m_socketId := socketId;
                m_intent := None |}
    ∧ roomHosts r.1 !! roomId = Some hostId
    ∧ r.2 = [Emit (Direct socketId)
               (MRoomState roomId roomState (JsMap.values users) (Some hostId)
                  chatDisabled);
             Emit (RoomExcept roomId socketId)
               (MUserJoined (u_id (sk_user sk)) name socketId
                  (JsMap.values users) (Some hostId))].
Proof.
  intros Hsk r name hostId chatDisabled. subst r. cbn [run step].
  rewrite Hsk. cbn [handle].
  set (st1 := joinRoom_begin socketId sk roomId displayName st).
  assert ((socketId, roomId) ∈ joining st1) as Hj.
  { subst st1. unfold joinRoom_begin. cbn [joining set_joining].
    apply elem_of_app. right. apply list_elem_of_here. }
  rewrite bool_decide_eq_true_2 by done.
  unfold on_sk. cbn [sockets set_joining].
  assert (∃ sk', sockets st1 !! socketId = Some sk'
                 ∧ u_id (sk_user sk') = u_id (sk_user sk)
                 ∧ u_isGuest (sk_user sk') = u_isGuest (sk_user sk)
                 ∧ u_username (sk_user sk') = name
                 ∧ roomUsers st1 !! roomId
                   = Some (JsMap.set socketId (member_of socketId sk')
                             (default [] (roomUsers st !! roomId))))
    as (sk' & Hsk' & Hid & Hguest & Hname & Hu).
  { subst st1 name. unfold joinRoom_begin, name_after_join.
    cbn [sockets roomUsers set_joining set_socket set_rooms].
    rewrite !lookup_insert_eq. eexists. split; [done|].
    cbn [sk_user]. destruct displayName as [dn|]; [|done].
    by destruct (String.eqb (trim dn) ""). }
  assert (roomHosts st1 !! roomId
          = Some (default socketId (roomHosts st !! roomId))) as Hh.
  { subst st1. unfold joinRoom_begin.
    cbn [roomHosts set_joining set_socket set_rooms].
    destruct (roomHosts st !! roomId) eqn:Hh; [by rewrite Hh|].
    by rewrite lookup_insert_eq. }
  assert (roomSettings st1 !! roomId = Some chatDisabled) as Hc.
  { subst st1 chatDisabled. unfold joinRoom_begin.
    cbn [roomSettings set_joining set_socket set_rooms].
    destruct (roomSettings st !! roomId) eqn:Hs; [by rewrite Hs|].
    by rewrite lookup_insert_eq. }
  rewrite Hsk'. unfold joinRoom_resume.
  cbn [roomUsers roomHosts roomSettings set_joining]. rewrite Hu, Hc, Hh.
  cbn [fst snd app roomUsers roomHosts set_rooms]. rewrite Hid, Hname.
  eexists. split; [exact Hu|]. split.
  { rewrite JsMap_get_set, decide_True by done. unfold member_of.
    by rewrite Hid, Hguest, Hname. }
  subst hostId. destruct roomDoc as [host|].
  - destruct (decide (host = Some (u_id (sk_user sk)))) as [->|Hne].
    + rewrite !bool_decide_eq_true_2 by done. by rewrite lookup_insert_eq.
    + rewrite !bool_decide_eq_false_2 by congruence. by rewrite Hh.
  - rewrite bool_decide_eq_false_2 by done. by rewrite Hh.
Qed.

Lemma atomic_join_reports_joiner_witness :
  let st := (run init [Connect "h" None; Connect "m" (Some ("u1", "mia"));
                       Recv "h" (JoinRoom "ABC123" None)]).1 in
  let r := run st [Recv "m" (JoinRoom "ABC123" (Some (nbsp +:+ " Bob " +:+ nbsp)));
                   Resume "m" "ABC123" (DbOk JNull (Some (Some "u2")))] in
  roomHosts r.1 !! "ABC123" = Some "h"
  ∧ m_username <$> (roomUsers r.1 !! "ABC123" ≫= JsMap.get "m") = Some "Bob".
Proof.
  intros st r.
  destruct (io_socket st "m") as [sk|] eqn:Hsk; [|by vm_compute in Hsk].
  destruct (atomic_join_reports_joiner st "m" sk "ABC123"
              (Some (nbsp +:+ " Bob " +:+ nbsp))
              JNull (Some (Some "u2")) Hsk) as (users & Hu & Hg & Hh & _).
  fold r in Hu, Hh. rewrite Hh, Hu. cbn [mbind option_bind]. rewrite Hg.
  vm_compute in Hsk. injection Hsk as <-. split; vm_compute; reflexivity.
Defined.

(** ** The debouncer inside the server *)

Lemma handle_saves socketId sk ev st :
  (∀ f x cp, ev ≠ CodeChange f x cp) →
  saves (handle socketId sk ev st).1 = saves st.
Proof.
  intros Hev.
  destruct ev; cbn [handle];
    try apply handleLeaveRoom_frame; try apply kick_frame;
    try apply end_session_frame; try (by edestruct Hev);
    unfold joinRoom_begin, on_intent_update, on_canvas_full_sync_1,
      on_canvas_full_sync_2, on_chat_message, on_cursor_position_2,
      on_request_cursors, on_host_mute_user, on_host_transfer,
      on_host_toggle_chat, on_voice_join_1, on_voice_join_2,
      on_voice_leave_1, on_voice_leave_2, on_voice_mute_1, on_voice_mute_2,
      relay, both, on_sk, in_room, host_only;
    repeat case_match; simplify_eq/=; done.
Qed.

Lemma step_saves_other st i :
  save_input i = false → saves (step st i).1 = saves st.
Proof.
  intros Hi.
  destruct i as [s auth|s ev|s roomId db|s|now|k ok]; cbn [step];
    try discriminate Hi.
  - unfold connect. by destruct (sockets st !! s).
  - destruct (io_socket st s) as [sk|]; [|done].
    apply handle_saves. intros f x cp ->. discriminate Hi.
  - case_bool_decide; [|done]. unfold on_sk. cbn [sockets set_joining].
    destruct (sockets st !! s) as [sk|]; [|done].
    unfold joinRoom_resume. destruct db; [done|].
    cbn [roomUsers roomSettings set_joining].
    by destruct (roomUsers st !! roomId), (roomSettings st !! roomId).
  - destruct (io_socket st s) as [sk|]; [|done]. unfold disconnect.
    by destruct (handleLeaveRoom_frame s
                   (set_socket s
                      {| sk_user := sk_user sk; sk_roomId := sk_roomId sk;
                         sk_displayName := sk_displayName sk;
                         sk_voicePeerId := sk_voicePeerId sk; sk_rooms := ∅;
                         sk_voiceParticipants := sk_voiceParticipants sk;
                         sk_connected := false |} st)) as (_ & _ & -> & _).
Qed.

(** *** Timer handles *)

Lemma handles_fresh_debouncedSave roomId fileId content d :
  handles_fresh d →
  handles_fresh (Debounce.debouncedSave roomId fileId content d).
Proof.
  intros (Hnd & Hlt & Hslt & Hown).
  set (q := match Debounce.saveTimers d !! roomId with
            | Some h => Debounce.clearTimeout h (Debounce.loop_timers d)
            | None => Debounce.loop_timers d
            end).
  assert (q `sublist_of` Debounce.loop_timers d) as Hsub.
  { unfold q, Debounce.clearTimeout.
    destruct (Debounce.saveTimers d !! roomId); [apply sublist_filter|done]. }
  assert (∀ tm, tm ∈ q → tm ∈ Debounce.loop_timers d) as Hq
    by (intros tm Hin; by eapply elem_of_sublist).
  unfold Debounce.debouncedSave. fold q. split_and!;
    cbn [Debounce.loop_timers Debounce.saveTimers Debounce.next_handle].
  - rewrite fmap_app. apply NoDup_app. split_and!.
    + eapply sublist_NoDup; [exact Hnd|]. by apply fmap_sublist.
    + intros h [tm [-> Hin]]%list_elem_of_fmap Hin'.
      apply list_elem_of_singleton in Hin'. cbn in Hin'.
      specialize (Hlt tm (Hq tm Hin)). lia.
    + apply NoDup_singleton.
  - intros tm [Hin|Hin%list_elem_of_singleton]%elem_of_app.
    + specialize (Hlt tm (Hq tm Hin)). lia.
    + subst tm. cbn. lia.
  - intros r h. destruct (decide (r = roomId)) as [->|Hne].
    + rewrite lookup_insert_eq. intros [= <-]. lia.
    + rewrite lookup_insert_ne by done. intros Hr%Hslt. lia.
  - intros r h tm Hr [Hin|Hin%list_elem_of_singleton]%elem_of_app Hh.
    + destruct (decide (r = roomId)) as [->|Hne].
      * rewrite lookup_insert_eq in Hr. injection Hr as <-.
        specialize (Hlt tm (Hq tm Hin)). lia.
      * rewrite lookup_insert_ne in Hr by done.
        by apply (Hown r h tm Hr (Hq tm Hin)).
    + subst tm. cbn in *. subst h.
      destruct (decide (r = roomId)) as [->|Hne]; [done|].
      rewrite lookup_insert_ne in Hr by done. apply Hslt in Hr. lia.
Qed.

Lemma handles_fresh_no_new d d' :
  no_new_timers d d' → handles_fresh d → handles_fresh d'.
Proof.
  intros (Hsub & Hn & Hs) (Hnd & Hlt & Hslt & Hown).
  assert (∀ tm, tm ∈ Debounce.loop_timers d' → tm ∈ Debounce.loop_timers d)
    as Hin by (intros tm Htm; by eapply elem_of_sublist).
  split_and!.
  - eapply sublist_NoDup; [exact Hnd|]. by apply fmap_sublist.
  - intros tm Htm. rewrite Hn. auto.
  - intros r h Hr. rewrite Hn. eauto.
  - intros r h tm Hr Htm. eauto.
Qed.

Lemma no_new_timers_refl d : no_new_timers d d.
Proof. done. Qed.

Lemma no_new_timers_trans d1 d2 d3 :
  no_new_timers d1 d2 → no_new_timers d2 d3 → no_new_timers d1 d3.
Proof.
  intros (Hsub & Hn & Hs) (Hsub' & Hn' & Hs'). split_and!.
  - by etrans.
  - congruence.
  - eauto.
Qed.

Lemma no_new_timers_forget room d : no_new_timers d (Debounce.forget room d).
Proof.
  split_and!; [done..|]. intros r h. cbn [Debounce.forget Debounce.saveTimers].
  by intros [_ Hr]%lookup_delete_Some.
Qed.

Lemma no_new_timers_flush_step fl d :
  no_new_timers d (Debounce.flush_step fl d).1.2.
Proof.
  unfold Debounce.flush_step.
  destruct (Debounce.flush_files fl d !! Debounce.fl_pos fl) as [[f x]|];
    [done|].
  cbn [fst snd].
  apply (no_new_timers_trans _ (Debounce.drop_buffer (Debounce.fl_room fl) d));
    [done|apply no_new_timers_forget].
Qed.

Lemma no_new_timers_flush_begin room d :
  no_new_timers d (Debounce.flush_begin room d).1.2.
Proof.
  unfold Debounce.flush_begin.
  destruct (Debounce.pendingSaves d !! room) as [files|];
    [|apply no_new_timers_forget].
  destruct (0 <? JsMap.size files)%nat;
    [apply no_new_timers_flush_step|apply no_new_timers_forget].
Qed.

Lemma no_new_timers_flush_reply ok fl d :
  no_new_timers d (Debounce.flush_reply ok fl d).1.2.
Proof.
  unfold Debounce.flush_reply.
  destruct ok; [apply no_new_timers_flush_step|apply no_new_timers_forget].
Qed.

Lemma no_new_timers_begin_all due : ∀ d,
  no_new_timers d (Debounce.begin_all due d).1.
Proof.
  induction due as [|tm due IH]; intros d; [done|]. cbn [Debounce.begin_all].
  pose proof (no_new_timers_flush_begin (Debounce.tm_room tm) d) as Hb.
  destruct (Debounce.flush_begin (Debounce.tm_room tm) d) as [[o d1] fx1].
  specialize (IH (Debounce.suspend o d1)).
  destruct (Debounce.begin_all due _) as [d2 fx2]. cbn [fst snd] in *.
  by apply (no_new_timers_trans _ d1).
Qed.

Lemma no_new_timers_elapse now d :
  no_new_timers d (Debounce.elapse now d).1.1.
Proof.
  unfold Debounce.elapse.
  pose proof (no_new_timers_begin_all
    (filter (Debounce.is_due now) (Debounce.loop_timers d))
    {| Debounce.saveTimers := Debounce.saveTimers d;
       Debounce.pendingSaves := Debounce.pendingSaves d;
       Debounce.loop_timers :=
         filter (λ tm, ¬ Debounce.is_due now tm) (Debounce.loop_timers d);
       Debounce.next_handle := Debounce.next_handle d;
       Debounce.clock := Z.max (Debounce.clock d) now;
       Debounce.flushes := Debounce.flushes d |}) as Hb.
  destruct (Debounce.begin_all _ _) as [d' fx]. cbn [fst] in *.
  eapply no_new_timers_trans; [|exact Hb].
  split_and!; [apply sublist_filter|done..].
Qed.

Lemma no_new_timers_saved k ok d :
  no_new_timers d (Debounce.saved k ok d).1.
Proof.
  unfold Debounce.saved.
  destruct (Debounce.flushes d !! k) as [fl|]; [|done].
  pose proof (no_new_timers_flush_reply ok fl
                (Debounce.set_flushes (delete k (Debounce.flushes d)) d)) as Hr.
  destruct (Debounce.flush_reply ok fl _) as [[o d1] fx]. cbn [fst snd] in *.
  done.
Qed.

Lemma step_handles_fresh st i :
  handles_fresh (saves st) → handles_fresh (saves (step st i).1).
Proof.
  intros Hf.
  destruct (save_input i) eqn:Hi; [|by rewrite step_saves_other].
  destruct i as [s auth|s ev|s roomId db|s|now|k ok]; try discriminate Hi;
    cbn [step].
  - destruct (io_socket st s) as [sk|]; [|done].
    destruct ev; try discriminate Hi. cbn [handle].
    unfold on_code_change, in_room.
    destruct (room_of (sk_roomId sk)) as [roomId|]; [|done].
    cbn [fst saves set_saves]. by apply handles_fresh_debouncedSave.
  - pose proof (no_new_timers_elapse now (saves st)) as Hn.
    destruct (Debounce.elapse now (saves st)) as [[d ?] fx].
    cbn [fst saves set_saves] in *. by eapply handles_fresh_no_new.
  - pose proof (no_new_timers_saved k ok (saves st)) as Hn.
    destruct (Debounce.saved k ok (saves st)) as [d fx].
    cbn [fst saves set_saves] in *. by eapply handles_fresh_no_new.
Qed.

Lemma reachable_handles_fresh st : reachable st → handles_fresh (saves st).
Proof.
  induction 1 as [|st i _ IH _]; [|by apply step_handles_fresh].
  split_and!.
  - constructor.
  - intros tm Htm. inversion Htm.
  - intros r h. cbn. by rewrite lookup_empty.
  - intros r h tm. cbn. by rewrite lookup_empty.
Qed.



(** X20 — rooms do not disturb each other's saves.  A code-change in one
    room leaves the armed timers, the timer handle and the buffer of every
    other room as they were: the [clearTimeout] it does cancels no timer of
    another room. *)
Theorem code_change_leaves_other_rooms (st : state) (socketId : string)
    (sk : socket) (roomId other : string) (fileId content : option string)
    (cursorPosition : jsval) :
  reachable st →
  io_socket st socketId = Some sk →
  room_of (sk_roomId sk) = Some roomId →
  other ≠ roomId →
  let st' := (step st (Recv socketId
                         (CodeChange fileId content cursorPosition))).1 in
  Debounce.armed other (saves st') = Debounce.armed other (saves st)
  ∧ Debounce.saveTimers (saves st') !! other
    = Debounce.saveTimers (saves st) !! other
  ∧ Debounce.pendingSaves (saves st') !! other
    = Debounce.pendingSaves (saves st) !! other.
Proof.
  intros Hreach Hsk Hroom Hne st'. subst st'.
  destruct (reachable_handles_fresh st Hreach) as (_ & _ & _ & Hown).
  cbn [step]. rewrite Hsk. cbn [handle]. unfold on_code_change, in_room.
  rewrite Hroom. cbn [fst saves set_saves]. unfold Debounce.debouncedSave.
  unfold Debounce.armed.
  cbn [Debounce.loop_timers Debounce.saveTimers Debounce.pendingSaves].
  split_and!.
  - rewrite filter_app, filter_cons, decide_False, filter_nil, app_nil_r
      by (cbn; congruence).
    destruct (Debounce.saveTimers (saves st) !! roomId) as [h|] eqn:Hh; [|done].
    unfold Debounce.clearTimeout. rewrite filter_comm. apply filter_all.
    apply Forall_forall. intros tm [Hr Hin]%list_elem_of_filter Heq.
    apply Hne. rewrite <- Hr. by apply (Hown roomId h tm).
  - by rewrite lookup_insert_ne.
  - destruct fileId as [f|]; [|done]. destruct content as [x|]; [|done].
    destruct (negb (String.eqb f "")); [|done]. by rewrite lookup_insert_ne.
Qed.

Lemma code_change_leaves_other_rooms_witness :
  let st := (run init [Connect "a" None; Connect "b" None;
                       Recv "a" (JoinRoom "ROOM_A" None);
                       Recv "b" (JoinRoom "ROOM_B" None);
                       Recv "b" (CodeChange (Some "f1") (Some "x") JNull)]).1 in
  Debounce.pendingSaves
    (saves (step st (Recv "a" (CodeChange (Some "f1") (Some "y") JNull))).1)
    !! "ROOM_B" = Some [("f1", "x")].
Proof.
  intros st.
  destruct (io_socket st "a") as [sk|] eqn:Hsk; [|by vm_compute in Hsk].
  destruct (code_change_leaves_other_rooms st "a" sk "ROOM_A" "ROOM_B"
              (Some "f1") (Some "y") JNull) as (_ & _ & ->); [|done| |done|].
  - apply reachable_run_any, reach_init.
  - vm_compute in Hsk. by injection Hsk as <-.
  - vm_compute. reflexivity.
Defined.

(** X21 — pending saves outlive the room.  Only code-change, the save
    timers and the answers of the store touch the debouncer: every other
    input, among them leave-room, a kick, a disconnect and the end of a
    session, leaves the timers and the buffers of all rooms as they are, so
    that what a room has pending is still written after the room is
    gone. *)
Theorem pending_saves_outlive_room (st : state) (i : input) :
  save_input i = false → saves (step st i).1 = saves st.
Proof. apply step_saves_other. Qed.

Lemma pending_saves_outlive_room_witness :
  let st := (run init [Connect "a" None; Recv "a" (JoinRoom "ABC123" None);
                       Recv "a" (CodeChange (Some "f1") (Some "x") JNull)]).1 in
  roomUsers (step st (Recv "a" HostEndSession)).1 !! "ABC123" = None
  ∧ (run (step st (Recv "a" HostEndSession)).1 [Elapse 2000; Saved 0 true]).2
    = [Flush (Debounce.Store (SetFileContent "ABC123" "f1" "x"));
       Flush (Debounce.LogSaved "ABC123" 1)].
Proof.
  intros st. split; [vm_compute; reflexivity|].
  assert (∀ st', saves st' = saves st →
                 (run st' [Elapse 2000; Saved 0 true]).2
                 = (run st [Elapse 2000; Saved 0 true]).2) as Hsame.
  { intros st' Hs. cbn [run step]. rewrite Hs.
    destruct (Debounce.elapse 2000 (saves st)) as [[d ?] fx].
    cbn [saves set_saves].
    by destruct (Debounce.saved 0 true d) as [d' fx']. }
  rewrite Hsame by (by apply pending_saves_outlive_room).
  vm_compute. reflexivity.
Defined.

(** ** Editing events *)

(** X22 — editing events stay in the room and are not echoed.  For a
    connection with a current room, every editing event produces at least
    one message; each message it produces goes to the others in that room
    and never to the sender, each store call it makes is for that room, and
    membership, hosts and the connections' rooms are as before. *)
Theorem sync_events_stay_in_room (st : state) (socketId : string) (sk : socket)
    (roomId : string) (ev : client_event) :
  io_socket st socketId = Some sk →
  room_of (sk_roomId sk) = Some roomId →
  sync_event ev = true →
  let r := step st (Recv socketId ev) in
  (∃ m, head r.2 = Some (Emit (RoomExcept roomId socketId) m))
  ∧ Forall (confined roomId socketId) r.2
  ∧ same_view st r.1.
Proof.
  intros Hsk Hroom Hev r. subst r. split_and!.
  3:{ cbn [step]. rewrite Hsk. apply handle_neutral;
        [by apply io_socket_heap|by destruct ev]. }
  all: cbn [step]; rewrite Hsk.
  all: destruct ev; try discriminate Hev; cbn [handle].
  all: unfold on_code_change, on_intent_update, on_canvas_full_sync_1,
         on_canvas_full_sync_2, on_cursor_position_2, relay, both, in_room,
         no_ops.
  all: rewrite Hroom; cbn [fst snd app fmap list_fmap head].
  all: try (by eexists).
  all: repeat case_match; cbn [app].
  all: repeat first [done | constructor].
Qed.

Lemma sync_events_stay_in_room_witness :
  let st := (run init [Connect "a" None; Connect "b" None;
                       Recv "a" (JoinRoom "ABC123" None);
                       Recv "b" (JoinRoom "ABC123" None)]).1 in
  Forall (confined "ABC123" "a")
    (step st (Recv "a" (FileRename (JStr "f1") (JStr "main.js")))).2.
Proof.
  intros st.
  destruct (io_socket st "a") as [sk|] eqn:Hsk; [|by vm_compute in Hsk].
  apply (sync_events_stay_in_room st "a" sk "ABC123" _ Hsk); [|done].
  vm_compute in Hsk. by injection Hsk as <-.
Defined.

(** X23 — an intent is kept in the roster.  intent-update from a member
    writes the intent into the sender's own entry of the room's membership
    map, where later joiners read it; the entry keeps its place, the other
    entries are as they were, and the others in the room are told. *)
Theorem intent_recorded_in_roster (st : state) (socketId : string)
    (sk : socket) (roomId : string) (users : list (string * member))
    (info : member) (intent : jsval) :
  io_socket st socketId = Some sk →
  room_of (sk_roomId sk) = Some roomId →
  roomUsers st !! roomId = Some users →
  JsMap.get socketId users = Some info →
  let r := step st (Recv socketId (IntentUpdate intent)) in
  ∃ users',
    roomUsers r.1 !! roomId = Some users'
    ∧ JsMap.keys users' = JsMap.keys users
    ∧ JsMap.get socketId users' = Some (with_intent intent info)
    ∧ (∀ other, other ≠ socketId →
                JsMap.get other users' = JsMap.get other users)
    ∧ (∀ room, room ≠ roomId → roomUsers r.1 !! room = roomUsers st !! room)
    ∧ r.2 = [Emit (RoomExcept roomId socketId)
               (MRelay "intent-update"
                  [("socketId", JStr socketId); ("username", username sk);
                   ("intent", intent)])].
Proof.
  intros Hsk Hroom Hu Hget r. subst r. cbn [step]. rewrite Hsk.
  cbn [handle]. unfold on_intent_update, in_room. rewrite Hroom, Hu, Hget.
  cbn [fst snd roomUsers set_rooms]. rewrite lookup_insert_eq.
  eexists. split; [done|]. split_and!.
  - rewrite JsMap_keys_set, decide_True; [done|].
    by eapply JsMap_get_Some_keys.
  - by rewrite JsMap_get_set, decide_True.
  - intros other Hne. by rewrite JsMap_get_set, decide_False.
  - intros room Hne. by rewrite lookup_insert_ne.
  - done.
Qed.

Lemma intent_recorded_in_roster_witness :
  let st := (run init [Connect "a" None; Connect "b" None;
                       Recv "a" (JoinRoom "ABC123" None);
                       Recv "b" (JoinRoom "ABC123" None)]).1 in
  ∃ users',
    roomUsers (step st (Recv "a" (IntentUpdate (JStr "refactoring")))).1
      !! "ABC123" = Some users'
    ∧ m_intent <$> JsMap.values users' = [Some (JStr "refactoring"); None].
Proof.
  intros st.
  destruct (io_socket st "a") as [sk|] eqn:Hsk; [|by vm_compute in Hsk].
  destruct (roomUsers st !! "ABC123") as [users|] eqn:Hu;
    [|by vm_compute in Hu].
  destruct (JsMap.get "a" users) as [info|] eqn:Hg.
  2:{ vm_compute in Hu. injection Hu as <-. by vm_compute in Hg. }
  destruct (intent_recorded_in_roster st "a" sk "ABC123" users info
              (JStr "refactoring") Hsk) as (users' & Hu' & _); [|done..|].
  { vm_compute in Hsk. by injection Hsk as <-. }
  exists users'. split; [done|]. revert Hu'. vm_compute. by intros [= <-].
Defined.

(** X24 — joining a room that exists.  Up to the lookups, join-room for a
    room that already has a membership map leaves the room's host and chat
    setting alone and touches one roster entry: a connection that is
    already in the map has its entry replaced in place by a fresh one, with
    no intent, and a new connection is added at the end, so that the
    order of the map is the order of first joins. *)
Theorem join_existing_room (st : state) (socketId : string) (sk : socket)
    (roomId : string) (users : list (string * member))
    (displayName : option string) :
  reachable st →
  io_socket st socketId = Some sk →
  roomUsers st !! roomId = Some users →
  let st' := (step st (Recv socketId (JoinRoom roomId displayName))).1 in
  ∃ users' m,
    roomUsers st' !! roomId = Some users'
    ∧ JsMap.keys users'
      = (if decide (socketId ∈ JsMap.keys users) then JsMap.keys users
         else JsMap.keys users ++ [socketId])
    ∧ JsMap.get socketId users' = Some m
    ∧ m_intent m = None ∧ m_username m = name_after_join displayName sk
    ∧ (∀ other, other ≠ socketId →
                JsMap.get other users' = JsMap.get other users)
    ∧ roomHosts st' = roomHosts st
    ∧ roomSettings st' = roomSettings st.
Proof.
  intros Hreach Hsk Hu st'. subst st'.
  destruct (reachable_rooms_settled st Hreach _ _ Hu)
    as (_ & [h Hh] & [c Hc]).
  cbn [step]. rewrite Hsk. cbn [handle fst]. unfold joinRoom_begin.
  cbn [roomUsers roomHosts roomSettings set_joining set_socket set_rooms].
  rewrite Hu, Hh, Hc, lookup_insert_eq. cbn [default].
  eexists _, _. split; [done|]. split_and!.
  - apply JsMap_keys_set.
  - by rewrite JsMap_get_set, decide_True.
  - done.
  - unfold member_of, name_after_join. cbn [m_username sk_user u_username].
    destruct displayName as [dn|]; [|done].
    by destruct (String.eqb (trim dn) "").
  - intros other Hne. by rewrite JsMap_get_set, decide_False.
  - done.
  - done.
Qed.

Lemma join_existing_room_witness :
  let st := (run init [Connect "a" None; Connect "b" None;
                       Recv "a" (JoinRoom "ABC123" None);
                       Recv "b" (JoinRoom "ABC123" None);
                       Recv "a" (IntentUpdate (JStr "refactoring"))]).1 in
  ∃ users',
    roomUsers (step st (Recv "a" (JoinRoom "ABC123" (Some (nbsp +:+ "Ann"))))).1
      !! "ABC123" = Some users'
    ∧ JsMap.keys users' = ["a"; "b"]
    ∧ m_username <$> JsMap.values users' = ["Ann"; "Guest-b"]
    ∧ m_intent <$> JsMap.values users' = [None; None].
Proof.
  intros st.
  destruct (io_socket st "a") as [sk|] eqn:Hsk; [|by vm_compute in Hsk].
  destruct (roomUsers st !! "ABC123") as [users|] eqn:Hu;
    [|by vm_compute in Hu].
  destruct (join_existing_room st "a" sk "ABC123" users (Some (nbsp +:+ "Ann")))
    as (users' & m & Hu' & _); [|done..|].
  { apply reachable_run_any, reach_init. }
  exists users'. split; [done|]. revert Hu'. vm_compute. by intros [= <-].
Defined.
